(** * SCFW: import and dispatch machinery

    A shallow embedding of the core of the shellcode framework
    (lib/include/scfw): the freestanding string routines of [crt0.h], the
    FNV-1a hasher of [runtime/fnv1a.h], the XOR string layer of
    [runtime/xorstr.h], the PE export parser and the kernel-mode module
    enumerator of [platform/windows/common.h], the dispatch table chain
    of [runtime.h] with its two platform back ends, the relocation helper of
    [runtime/pic.h], and the launcher [tools/scrun.c].

    Conventions.
    - A code unit ([char], [wchar_t], [uint8_t] ...) is a [Z], its value in
      its C type; every conversion of the source to an unsigned type is
      written out with [mod]. The XOR string layer works on memory and keeps
      units as unsigned numbers of their width.
    - A C string is the list of the code units stored at the pointer; reading
      past the end of the list reads the terminator 0, and a 0 inside the
      list terminates the string there, as it does in memory.
    - Pointers are integers; the null pointer is 0.
    - A read through the null pointer faults: the computation does not
      return, which is [None]. The one read that succeeds there is of what
      the host itself has just stored through the same pointer. Any other
      read of host memory succeeds, the host says what the address holds.
      A platform service that does not return is [None] too. *)

From Stdlib Require Import ZArith List Bool Lia String Ascii.
From stdpp Require Import base list gmap.
Import ListNotations.

Local Open Scope Z_scope.

(** ** Machine integers *)

Definition uint8  (x : Z) : Z := x mod 2 ^ 8.
Definition uint16 (x : Z) : Z := x mod 2 ^ 16.
Definition uint32 (x : Z) : Z := x mod 2 ^ 32.

(** A C string: code units at the pointer, terminator implicit. *)
Definition cstr := list Z.

(** A narrow string literal of the sources, without its terminator. *)
Definition lit (s : string) : cstr :=
  map (fun a => Z.of_N (N_of_ascii a)) (list_ascii_of_string s).

(** [*p] and [p + 1] on a string pointer. *)
Definition peek (p : cstr) : Z := hd 0 p.
Definition advance (p : cstr) : cstr := tl p.

(** Character constants used by the sources. *)
Definition chr_A : Z := 65.
Definition chr_Z : Z := 90.
Definition chr_a : Z := 97.
Definition chr_z : Z := 122.
Definition chr_dot : Z := 46.
Definition chr_hash : Z := 35.

(** ** crt0.h *)

Module Crt0.

(** [strlen] / [wcslen]: count code units up to the terminator. *)
Fixpoint strlen (str : cstr) : nat :=
  match str with
  | [] => O
  | c :: p => if c =? 0 then O else S (strlen p)
  end.

(** The string proper: what lies before the terminator. *)
Definition chars (str : cstr) : list Z := take (strlen str) str.

(** [strcmp]: advance both pointers while the left unit is non-zero and
    equal to the right one; return the difference of the two units read as
    [unsigned char]. *)
Fixpoint strcmp (lhs rhs : cstr) {struct lhs} : Z :=
  match lhs with
  | [] => uint8 (peek lhs) - uint8 (peek rhs)
  | c :: lhs' =>
      if negb (c =? 0) && (c =? peek rhs)
      then strcmp lhs' (advance rhs)
      else uint8 c - uint8 (peek rhs)
  end.

(** The fold of the case-insensitive comparators:
    [if (c >= 'A' && c <= 'Z') c += ('a' - 'A')]. *)
Definition to_lower (c : Z) : Z :=
  if (chr_A <=? c) && (c <=? chr_Z) then c + (chr_a - chr_A) else c.

(** [_stricmp]: the do-while reads and folds one unit of each string, and
    continues while [c1 && (c1 == c2)]. *)
Fixpoint _stricmp (lhs rhs : cstr) {struct lhs} : Z :=
  let c1 := to_lower (peek lhs) in
  let c2 := to_lower (peek rhs) in
  match lhs with
  | [] => uint8 c1 - uint8 c2
  | _ :: lhs' =>
      if negb (c1 =? 0) && (c1 =? c2)
      then _stricmp lhs' (advance rhs)
      else uint8 c1 - uint8 c2
  end.

(** [_wcsicmpa]: wide against narrow, same fold on both sides; the narrow
    unit is widened for the comparison and the result is [c1 - (wchar_t)c2]. *)
Fixpoint _wcsicmpa (lhs rhs : cstr) {struct lhs} : Z :=
  let c1 := to_lower (peek lhs) in
  let c2 := to_lower (peek rhs) in
  match lhs with
  | [] => c1 - uint16 c2
  | _ :: lhs' =>
      if negb (c1 =? 0) && (c1 =? uint16 c2)
      then _wcsicmpa lhs' (advance rhs)
      else c1 - uint16 c2
  end.

(** [strcpy (dest, src)]: store units of [src] into [dest] up to and
    including the first zero unit. The copy is returned
    as the list of stores it performs, [(index into dest, value)], in order;
    the terminator is stored too. *)
Fixpoint strcpy_from (d : Z) (src : cstr) : list (Z * Z) :=
  match src with
  | [] => [(d, 0)]
  | c :: src' => if c =? 0 then [(d, 0)] else (d, c) :: strcpy_from (d + 1) src'
  end.

Definition strcpy (src : cstr) : list (Z * Z) := strcpy_from 0 src.

End Crt0.

(** ** runtime/fnv1a.h *)

Module Fnv1a.

(** The fold step of the hasher: [if (byte >= 'a') byte -= 0x20] on a
    [uint8_t]. *)
Definition fold (byte : Z) : Z :=
  if chr_a <=? byte then uint8 (byte - 0x20) else byte.

(** [fnv1a_hash (string, length)]: the [while (length--)] loop, with the
    running hash as an accumulator. *)
Fixpoint fnv1a_loop (string : cstr) (length : nat) (hash : Z) : Z :=
  match length with
  | O => hash
  | S length' =>
      let byte := fold (uint8 (peek string)) in
      let hash := uint32 (Z.lxor hash byte) in
      let hash := uint32 (hash * 0x01000193) in
      fnv1a_loop (advance string) length' hash
  end.

Definition fnv1a_hash_n (string : cstr) (length : nat) : Z :=
  fnv1a_loop string length 0x811c9dc5.

(** [fnv1a_hash (string)]: the length is [char_traits::length (string)]. *)
Definition fnv1a_hash (string : cstr) : Z :=
  fnv1a_hash_n string (Crt0.strlen string).

(** The folded byte sequence the hasher consumes. *)
Definition folded (string : cstr) : list Z :=
  map (fun c => fold (uint8 c)) (Crt0.chars string).

End Fnv1a.

(** ** runtime/xorstr.h *)

Module Xorstr.

(** The two character types the layer is instantiated at. A unit of the
    record is kept as the unsigned number its bits spell. *)
Inductive CharT := char | wchar_t.

Definition sizeof (T : CharT) : Z :=
  match T with char => 1 | wchar_t => 2 end.

(** [xor_key<CharT>::type]: [uint8_t] for [char], [uint16_t] otherwise;
    [key_type_cast] is the conversion to it. *)
Definition key_type_cast (T : CharT) (x : Z) : Z :=
  match T with char => uint8 x | wchar_t => uint16 x end.

(** [struct xor_string]: [key], [len], then [N] code units of data. *)
Record xor_string := {
  key : Z;
  len : Z;
  data : list Z
}.

(** The consteval constructor, applied to the literal [str] of [N] units
    (terminator included) and the key [k]:
    [len = (key_type)(N - 1)], [data[i] = str[i] ^ (CharT)k]. *)
Definition make_xor_string (T : CharT) (str : list Z) (k : Z) : xor_string :=
  {| key := k;
     len := key_type_cast T (Z.of_nat (length str) - 1);
     data := map (fun c => key_type_cast T (Z.lxor c k)) str |}.

(** [SCFW_XOR_KEY (c, CharT)]. *)
Definition SCFW_XOR_KEY (c : Z) (T : CharT) : Z :=
  key_type_cast T
    (match T with
     | char => Z.lor (c * 0x9E + 0x5A) 1
     | wchar_t => Z.lor (c * 0x9E37 + 0x5A5A) 1
     end).

(** A literal [s] as the array the macro [_TX] sees: its units followed by
    the terminator. *)
Definition literal (s : list Z) : list Z := s ++ [0].

(** The static record [_TX (s)] creates on source line [line]. *)
Definition _TX_record (T : CharT) (s : list Z) (line : Z) : xor_string :=
  make_xor_string T (literal s) (SCFW_XOR_KEY line T).

(** [str[i] ^= (CharT)key]. A store outside the data array leaves the model
    unchanged. *)
Definition xor_unit (T : CharT) (k : Z) (i : Z) (str : list Z) : list Z :=
  alter (fun c => key_type_cast T (Z.lxor c k)) (Z.to_nat i) str.

(** [for (key_type i = 0; i <= len; i++) str[i] ^= key]. The counter has the
    key type, so [i++] wraps in it; the loop is run on fuel and [None] means
    the fuel ran out before the loop condition failed. *)
Fixpoint decode_loop (fuel : nat) (T : CharT) (k len i : Z) (str : list Z)
  : option (list Z) :=
  match fuel with
  | O => None
  | S fuel' =>
      if i <=? len
      then decode_loop fuel' T k len (key_type_cast T (i + 1)) (xor_unit T k i str)
      else Some str
  end.

(** [decode_xor<CharT> (ptr)] on the record stored at [ptr]: the returned
    pointer [p + 2] and the record as the call leaves it. *)
Definition decode_xor (fuel : nat) (T : CharT) (ptr : Z) (r : xor_string)
  : option (Z * xor_string) :=
  if negb (key r =? 0)
  then match decode_loop fuel T (key r) (len r) 0 (data r) with
       | Some str => Some (ptr + 2 * sizeof T, {| key := 0; len := len r; data := str |})
       | None => None
       end
  else Some (ptr + 2 * sizeof T, r).

(** The record as bytes in memory (little endian for 16-bit units), and the
    bytes of a literal without its terminator. *)
Definition unit_bytes (T : CharT) (u : Z) : list Z :=
  match T with
  | char => [u]
  | wchar_t => [u mod 256; u / 256]
  end.

Definition record_bytes (T : CharT) (r : xor_string) : list Z :=
  concat (map (unit_bytes T) (key r :: len r :: data r)).

Definition string_bytes (T : CharT) (s : list Z) : list Z :=
  concat (map (unit_bytes T) s).

(** [needle] occurs in [hay] as a contiguous run of bytes. *)
Definition occurs_in (needle hay : list Z) : Prop :=
  exists before after, hay = before ++ needle ++ after.

(** Units representable in the character type. *)
Definition in_range (T : CharT) (c : Z) : Prop :=
  0 <= c < 2 ^ (8 * sizeof T).

End Xorstr.

(** ** platform/windows/common.h *)

Module Windows.

(** What the export parser reads of a mapped image, relative to its base:
    the export data directory entry, [NumberOfNames], the three export
    arrays, and the C strings at given RVAs. The arrays are read without a
    bounds check, so they are total: an index past the table reads whatever
    the image holds there. *)
Record IMAGE := {
  ExportDirRVA : Z;
  ExportDirSize : Z;
  NumberOfNames : Z;
  Names : Z -> Z;
  Ordinals : Z -> Z;
  Functions : Z -> Z;
  string_at : Z -> cstr
}.

(** An entry of the loader's [InLoadOrderModuleList]. *)
Record LDR_DATA_TABLE_ENTRY := {
  BaseDllName : cstr;
  DllBase : Z
}.

(** [sizeof (DllName)] in the forwarder branch. *)
Definition sizeof_DllName : Z := 64.

(** [while ( *Dot && *Dot != '.') Dot++]: the number of units skipped and
    the pointer where the scan stops. *)
Fixpoint scan_dot (Dot : cstr) : nat * cstr :=
  match Dot with
  | [] => (O, Dot)
  | c :: Dot' =>
      if negb (c =? 0) && negb (c =? chr_dot)
      then let '(n, stop) := scan_dot Dot' in (S n, stop)
      else (O, Dot)
  end.

(** The stores into [char DllName[64]] made by the forwarder branch once
    the length guard has passed: [strcpy (DllName, ForwardStr)], then the
    five stores of the extension at [DllNameLen + 0 .. DllNameLen + 4]. *)
Definition DllName_stores (ForwardStr : cstr) (DllNameLen : Z) : list (Z * Z) :=
  Crt0.strcpy ForwardStr ++
  [ (DllNameLen + 0, chr_dot); (DllNameLen + 1, 100); (DllNameLen + 2, 108);
    (DllNameLen + 3, 108); (DllNameLen + 4, 0) ].

(** The buffer after a list of stores. A store at an index outside the
    array does not land in it (it lands in the caller's stack frame). *)
Definition store (buf : list Z) (s : Z * Z) : list Z :=
  if 0 <=? fst s then <[Z.to_nat (fst s) := snd s]> buf else buf.

Definition DllName_after (stores : list (Z * Z)) : list Z :=
  foldl store (replicate (Z.to_nat sizeof_DllName) 0) stores.

Section Host.

(** The host process: the loader list reachable from the PEB and the images
    mapped at each base address. *)
Variable InLoadOrderModuleList : list LDR_DATA_TABLE_ENTRY.
Variable image_at : Z -> IMAGE.

(** The list is circular through its head, which lies in [PEB_LDR_DATA] and
    is no module entry. [ListHead_DllBase] is what the [DllBase] field reads
    as when the head is taken for an entry. *)
Variable ListHead_DllBase : Z.

(** [DllBase] of the node reached after [hops] steps of [Flink] from the
    list head. *)
Definition DllBase_after (hops : nat) : Z :=
  match (hops mod S (length InLoadOrderModuleList))%nat with
  | O => ListHead_DllBase
  | S j =>
      match InLoadOrderModuleList !! j with
      | Some Ldr => DllBase Ldr
      | None => ListHead_DllBase
      end
  end.

(** The fast paths: the second and the third entry of the list. *)
Definition find_module_ntdll : Z := DllBase_after 2.
Definition find_module_kernel32 : Z := DllBase_after 3.

(** [usermode::find_module_impl]: walk the list from its head and return
    [DllBase] of the first entry the comparator accepts, else null. *)
Fixpoint usermode_find_module_impl (comparator : cstr -> bool)
    (Entries : list LDR_DATA_TABLE_ENTRY) : Z :=
  match Entries with
  | [] => 0
  | Ldr :: rest =>
      if comparator (BaseDllName Ldr) then DllBase Ldr
      else usermode_find_module_impl comparator rest
  end.

(** [usermode::find_module (const char* )] and [(uint32_t)]. *)
Definition usermode_find_module (name : cstr) : Z :=
  usermode_find_module_impl (fun module => Crt0._wcsicmpa module name =? 0)
    InLoadOrderModuleList.

Definition usermode_find_module_hash (hash : Z) : Z :=
  usermode_find_module_impl (fun module => Fnv1a.fnv1a_hash module =? hash)
    InLoadOrderModuleList.

(** The forwarder branch of [lookup_symbol_impl], entered with the RVA of
    the forwarder string. [lookup] is the recursive [lookup_symbol<F>]. The
    result pairs the stores made into [DllName] with the value returned
    ([None]: the recursive lookup did not return). *)
Definition resolve_forwarder (lookup : Z -> cstr -> option Z)
    (image : IMAGE) (FunctionRVA : Z) : list (Z * Z) * option Z :=
  let ForwardStr := string_at image FunctionRVA in
  let '(n, Dot) := scan_dot ForwardStr in
  if peek Dot =? 0 then ([], Some 0) else
  let DllNameLen := Z.of_nat n in
  if DllNameLen + 5 >? sizeof_DllName then ([], Some 0) else
  let stores := DllName_stores ForwardStr DllNameLen in
  let DllName := DllName_after stores in
  let FuncName := advance Dot in
  if peek FuncName =? chr_hash then (stores, Some 0) else
  let TargetModule := usermode_find_module DllName in
  if TargetModule =? 0 then (stores, Some 0) else
  (stores, lookup TargetModule FuncName).

(** The test that sends a matching export to the forwarder branch.
    [forwarder] is the compile-time switch
    [SCFW_ENABLE_FIND_MODULE_FORWARDER]; the range test is done in [DWORD]
    arithmetic. *)
Definition forwarded (forwarder : bool) (image : IMAGE) (FunctionRVA : Z) : bool :=
  forwarder
  && (ExportDirRVA image <=? FunctionRVA)
  && (FunctionRVA <? uint32 (ExportDirRVA image + ExportDirSize image)).

(** The body of the export loop at a matching [Index]. *)
Definition export_at (forwarder : bool) (lookup : Z -> cstr -> option Z)
    (module : Z) (Index : Z) : option Z :=
  let image := image_at module in
  let FunctionRVA := Functions image (Ordinals image Index) in
  if forwarded forwarder image FunctionRVA
  then snd (resolve_forwarder lookup image FunctionRVA)
  else Some (module + FunctionRVA).

(** [Name] in the export loop: the string at [ImageBase + Names[Index]]. *)
Definition export_name (image : IMAGE) (Index : Z) : cstr :=
  string_at image (Names image Index).

(** [for (ULONG Index = NumberOfNames; Index--;)]: [scan_exports n] runs the
    loop with [n] indices left, [n - 1] first. *)
Fixpoint scan_exports (forwarder : bool) (lookup : Z -> cstr -> option Z)
    (module : Z) (comparator : cstr -> bool) (n : nat) : option Z :=
  match n with
  | O => Some 0
  | S Index =>
      let Name := export_name (image_at module) (Z.of_nat Index) in
      if comparator Name
      then export_at forwarder lookup module (Z.of_nat Index)
      else scan_exports forwarder lookup module comparator Index
  end.

(** [lookup_symbol_impl]. The headers are read through [module] before the
    loop ([DosHeader->e_lfanew], then the export directory), with no test
    of the handle: on a null [module] this is a null dereference. *)
Definition lookup_symbol_impl (forwarder : bool) (lookup : Z -> cstr -> option Z)
    (module : Z) (comparator : cstr -> bool) : option Z :=
  if module =? 0 then None
  else scan_exports forwarder lookup module comparator
         (Z.to_nat (NumberOfNames (image_at module))).

(** The two comparators. *)
Definition by_name (name : cstr) : cstr -> bool :=
  fun export_name => Crt0.strcmp export_name name =? 0.

Definition by_hash (hash : Z) : cstr -> bool :=
  fun export_name => Fnv1a.fnv1a_hash export_name =? hash.

(** [lookup_symbol (module, name)]. The fuel bounds the length of the
    forwarder chain that is followed; [None] means the chain is longer. *)
Fixpoint lookup_symbol (fuel : nat) (forwarder : bool) (module : Z) (name : cstr)
  : option Z :=
  lookup_symbol_impl forwarder
    (match fuel with
     | O => fun _ _ => None
     | S fuel' => lookup_symbol fuel' forwarder
     end)
    module (by_name name).

(** [lookup_symbol (module, hash)]: same loop, the hash comparator; a
    forwarder is chased by name. *)
Definition lookup_symbol_hash (fuel : nat) (forwarder : bool) (module : Z) (hash : Z)
  : option Z :=
  lookup_symbol_impl forwarder
    (match fuel with
     | O => fun _ _ => None
     | S fuel' => lookup_symbol fuel' forwarder
     end)
    module (by_hash hash).

End Host.

End Windows.

(** ** platform/windows/common.h, namespace kernelmode *)

Module Kernelmode.

Definition STATUS_INFO_LENGTH_MISMATCH : Z := 0xC0000004.

(** One element of [RTL_PROCESS_MODULES.Modules]. *)
Record RTL_PROCESS_MODULE_INFORMATION := {
  ImageBase : Z;
  FullPathName : cstr;
  OffsetToFileName : Z
}.

(** A buffer's contents seen as [RTL_PROCESS_MODULES]: [NumberOfModules] is
    the length of the list. *)
Definition RTL_PROCESS_MODULES := list RTL_PROCESS_MODULE_INFORMATION.

(** One reply of [ZwQuerySystemInformation]: the status, the value stored
    through the [ReturnLength] pointer if one is stored, and the module
    array written into the caller's buffer if the call fills it. *)
Record reply := {
  Status : Z;
  ReturnLength : option Z;
  Written : option RTL_PROCESS_MODULES
}.

(** The kernel as the helper sees it: the pointers successive
    [ExAllocatePool] calls return (0 when the pool is exhausted), the
    replies successive queries return, and what memory that no query has
    filled reads as. *)
Record kernel := {
  pool : list Z;
  replies : list reply;
  stale : Z -> RTL_PROCESS_MODULES
}.

(** What the helper does to the kernel, in program order. [EvScan] records
    whether the buffer scanned had been filled by a query. *)
Inductive event :=
  | EvAlloc (NumberOfBytes : Z) (P : Z)
  | EvFree (P : Z)
  | EvQuery (Buffer BufferLength : Z) (Status : Z)
  | EvScan (Buffer : Z) (filled : bool).

(** The locals of [find_module_impl] that live across the loop, with the
    filled buffers and the event log. *)
Record frame := {
  Buffer : Z;
  BufferLength : Z;
  RequiredLength : Z;
  filled : gmap Z RTL_PROCESS_MODULES;
  log : list event
}.

(** The [do { ... } while (Status == STATUS_INFO_LENGTH_MISMATCH)] loop.
    One reply is consumed per iteration; [None] means the kernel model has
    no further allocation or reply to give. *)
Fixpoint query_loop (pool : list Z) (replies : list reply) (f : frame)
  : option frame :=
  match replies with
  | [] => None
  | r :: replies' =>
      let grown :=
        if negb (RequiredLength f =? 0) then
          let log1 :=
            if negb (Buffer f =? 0) then log f ++ [EvFree (Buffer f)] else log f in
          match pool with
          | [] => None
          | P :: pool' =>
              Some (pool',
                    {| Buffer := P;
                       BufferLength := RequiredLength f;
                       RequiredLength := RequiredLength f;
                       filled := delete (Buffer f) (filled f);
                       log := log1 ++ [EvAlloc (RequiredLength f) P] |})
          end
        else Some (pool, f) in
      match grown with
      | None => None
      | Some (pool1, f1) =>
          let f2 :=
            {| Buffer := Buffer f1;
               BufferLength := BufferLength f1;
               RequiredLength :=
                 match ReturnLength r with
                 | Some n => n
                 | None => RequiredLength f1
                 end;
               filled :=
                 match Written r with
                 | Some ms => <[Buffer f1 := ms]> (filled f1)
                 | None => filled f1
                 end;
               log := log f1 ++ [EvQuery (Buffer f1) (BufferLength f1) (Status r)] |} in
          if Status r =? STATUS_INFO_LENGTH_MISMATCH
          then query_loop pool1 replies' f2
          else Some f2
      end
  end.

(** The scan of the module array: [Result] of the first element whose file
    name the comparator accepts, else null. *)
Fixpoint scan_modules (comparator : cstr -> bool) (Modules : RTL_PROCESS_MODULES) : Z :=
  match Modules with
  | [] => 0
  | ModuleInfo :: rest =>
      let ModuleName :=
        drop (Z.to_nat (OffsetToFileName ModuleInfo)) (FullPathName ModuleInfo) in
      if comparator ModuleName then ImageBase ModuleInfo
      else scan_modules comparator rest
  end.

(** What [Modules->NumberOfModules] and the array after it read as, through
    [Buffer]: the array the last query stored there if one did (the query
    found the address writable, so it reads back); else the stale contents
    of the block, the read of a block being a read of pool memory; and when
    [Buffer] is null and no query stored anything through it, the read is a
    null dereference. *)
Definition read_modules (k : kernel) (f : frame) : option RTL_PROCESS_MODULES :=
  match filled f !! Buffer f with
  | Some ms => Some ms
  | None => if Buffer f =? 0 then None else Some (stale k (Buffer f))
  end.

(** [kernelmode::find_module_impl]. The three routines it resolves from the
    kernel image are the ones of the kernel model. After the loop the module
    array is read through [Buffer] whatever the last status was and with no
    test of [Buffer]; then [Buffer] is passed to [ExFreePool]. *)
Definition find_module_impl (k : kernel) (comparator : cstr -> bool)
  : option (Z * list event) :=
  let f0 := {| Buffer := 0; BufferLength := 0; RequiredLength := 0;
               filled := ∅; log := [] |} in
  match query_loop (pool k) (replies k) f0 with
  | None => None
  | Some f =>
      match read_modules k f with
      | None => None
      | Some Modules =>
          let Result := scan_modules comparator Modules in
          Some (Result,
                log f ++ [EvScan (Buffer f)
                            (bool_decide (is_Some (filled f !! Buffer f)));
                          EvFree (Buffer f)])
      end
  end.

(** [kernelmode::find_module (kernel_base, name)] and [(kernel_base, hash)]. *)
Definition find_module (k : kernel) (name : cstr) : option (Z * list event) :=
  find_module_impl k (fun module_name => Crt0._stricmp module_name name =? 0).

Definition find_module_hash (k : kernel) (hash : Z) : option (Z * list event) :=
  find_module_impl k (fun module_name => Fnv1a.fnv1a_hash module_name =? hash).

End Kernelmode.

(** ** runtime.h, with runtime/pic.h *)

Module Dispatch.

Definition SCFW_FLAG_DYNAMIC_RESOLVE : Z := 0x01.
Definition SCFW_FLAG_DYNAMIC_LOAD    : Z := 0x02.
Definition SCFW_FLAG_DYNAMIC_UNLOAD  : Z := 0x04.
Definition SCFW_FLAG_STRING_MODULE   : Z := 0x08.
Definition SCFW_FLAG_STRING_SYMBOL   : Z := 0x10.

(** [Flags & bit] used as a condition. *)
Definition has (Flags bit : Z) : bool := negb (Z.land Flags bit =? 0).

Inductive entry_kind := module | symbol.

(** The compile-time options. *)
Record features := {
  SCFW_ENABLE_CLEANUP : bool;
  SCFW_ENABLE_LOAD_MODULE : bool;
  SCFW_ENABLE_UNLOAD_MODULE : bool;
  SCFW_ENABLE_LOOKUP_SYMBOL : bool;
  SCFW_ENABLE_FULL_MODULE_SEARCH : bool;
  SCFW_ENABLE_FIND_MODULE_FORWARDER : bool;
  SCFW_ENABLE_INIT_MODULES_BY_STRING : bool;
  SCFW_ENABLE_INIT_SYMBOLS_BY_STRING : bool;
  _M_IX86 : bool
}.

(** Where the payload was linked and where it runs: the linked address of
    [_pc] and the value [_pc ()] returns, and the linked addresses of the
    objects whose address the core takes. *)
Record layout := {
  addr__pc : Z;
  _pc : Z;
  addr___dispatch_table : Z;
  addr__cleanup_usermode : Z;
  addr__cleanup_kernelmode : Z
}.

(** [_pic (addr)], in [uintptr_t] arithmetic of the 32-bit target, and the
    macro [_ (x)], which is [_pic] on x86 only. *)
Definition _pic (L : layout) (addr : Z) : Z :=
  uint32 (uint32 (_pc L - addr__pc L) + addr).

Definition live (F : features) (L : layout) (x : Z) : Z :=
  if _M_IX86 F then _pic L x else x.

(** [dispatch_table_storage]: the header fields, then the state of the
    platform traits ([mode_], the kernel base; absent in user mode). A field
    whose feature is disabled is never written. *)
Record dispatch_table_storage := {
  cleanup_ : Z;
  free_ : Z;
  load_module_ : Z;
  unload_module_ : Z;
  lookup_symbol_ : Z;
  mode_ : Z
}.

(** The chain of specializations: [dispatch_table_impl<Id + 1>] inherits
    from [dispatch_table_impl<Id>], and [IMPORT_MODULE] / [IMPORT_SYMBOL]
    each add one. *)
Inductive chain :=
  | Base
  | IMPORT_MODULE (parent : chain) (Module : cstr) (Flags : Z)
  | IMPORT_SYMBOL (parent : chain) (Name : cstr) (Flags : Z).

(** The template argument of a specialization: 0 for the base, [Id + 1] for
    an entry declared on top of [dispatch_table_impl<Id>]. *)
Fixpoint Id (c : chain) : Z :=
  match c with
  | Base => 0
  | IMPORT_MODULE parent _ _ => Id parent + 1
  | IMPORT_SYMBOL parent _ _ => Id parent + 1
  end.

(** [lookup_flags<Id, Mode, EntryKind>::get ()]. *)
Fixpoint lookup_flags (c : chain) (EntryKind : entry_kind) : Z :=
  match c with
  | Base => 0
  | IMPORT_MODULE parent _ module_flags =>
      match EntryKind with
      | module => module_flags
      | symbol => lookup_flags parent EntryKind
      end
  | IMPORT_SYMBOL parent _ entry_flags =>
      match EntryKind with
      | symbol => entry_flags
      | module => lookup_flags parent EntryKind
      end
  end.

(** The static assertions of the two import macros, over a whole chain. *)
Fixpoint static_asserts (c : chain) : bool :=
  match c with
  | Base => true
  | IMPORT_MODULE parent _ Flags =>
      static_asserts parent
      && negb (has Flags SCFW_FLAG_DYNAMIC_UNLOAD && negb (has Flags SCFW_FLAG_DYNAMIC_LOAD))
  | IMPORT_SYMBOL parent _ Flags =>
      static_asserts parent
      && negb (has Flags SCFW_FLAG_DYNAMIC_LOAD)
      && negb (has Flags SCFW_FLAG_DYNAMIC_UNLOAD)
      && negb (has Flags SCFW_FLAG_STRING_MODULE)
  end.

(** The calls [_entry] makes, in order. *)
Inductive call :=
  | call_init (this argument1 argument2 : Z)
  | call_entry (argument1 argument2 : Z)
  | call_destroy (this argument1 argument2 : Z).

Section Chain.

(** The host the payload runs in. *)
Context {W : Type}.

(** The payload's state: the dispatch table (header storage, then one slot
    per import in declaration order, the slot of entry [Id] at index
    [Id - 1]), the host, and the calls made by [_entry] so far. *)
Record state := {
  storage : dispatch_table_storage;
  slots : list Z;
  world : W;
  calls : list call
}.

(** Computations on the state; [None] when a platform service does not
    return. *)
Definition M (A : Type) : Type := state -> option (A * state).

Definition ret {A} (a : A) : M A := fun s => Some (a, s).

Definition bind {A B} (m : M A) (k : A -> M B) : M B :=
  fun s => match m s with
           | Some (a, s') => k a s'
           | None => None
           end.

Notation "'do' x <- m ; k" := (bind m (fun x => k))
  (at level 10, x name, m at level 100, k at level 200).
Notation "'do_' m ; k" := (bind m (fun _ => k))
  (at level 10, m at level 100, k at level 200).

(** What a platform back end provides: the members of
    [dispatch_table_impl<0, Mode>] it defines, and the two static
    [mode_traits<Mode>::lookup_symbol] overloads. A member function sees the
    header storage; none of them sees the import slots. *)
Class platform := {
  base_init : Z -> Z -> dispatch_table_storage -> W -> option (Z * dispatch_table_storage * W);
  base_destroy : Z -> Z -> dispatch_table_storage -> W -> option W;
  load_module : dispatch_table_storage -> cstr -> W -> option (Z * W);
  unload_module : dispatch_table_storage -> Z -> W -> option W;
  find_module : dispatch_table_storage -> cstr -> W -> option (Z * W);
  find_module_hash : dispatch_table_storage -> Z -> W -> option (Z * W);
  lookup_symbol : dispatch_table_storage -> Z -> cstr -> W -> option (Z * W);
  mode_lookup_symbol : Z -> cstr -> W -> option (Z * W);
  mode_lookup_symbol_hash : Z -> Z -> W -> option (Z * W)
}.

Context {P : platform}.

(** A platform call that returns a value, and one that returns nothing. *)
Definition service {A} (op : dispatch_table_storage -> W -> option (A * W)) : M A :=
  fun s => match op (storage s) (world s) with
           | Some (a, w) =>
               Some (a, {| storage := storage s; slots := slots s;
                           world := w; calls := calls s |})
           | None => None
           end.

Definition service_ (op : dispatch_table_storage -> W -> option W) : M unit :=
  service (fun st w => match op st w with Some w' => Some (tt, w') | None => None end).

(** The slot of entry [Id]: read, and store. *)
Definition slot (Id : Z) (sl : list Z) : Z :=
  default 0 (sl !! Z.to_nat (Id - 1)).

Definition set_slot (Id : Z) (v : Z) : M unit :=
  fun s => Some (tt, {| storage := storage s;
                        slots := <[Z.to_nat (Id - 1) := v]> (slots s);
                        world := world s; calls := calls s |}).

Definition get_slots : M (list Z) := fun s => Some (slots s, s).

(** [current_module ()]: the [module_] member of the nearest module entry;
    null at the base level. *)
Fixpoint current_module (c : chain) (sl : list Z) : Z :=
  match c with
  | Base => 0
  | IMPORT_MODULE _ _ _ => slot (Id c) sl
  | IMPORT_SYMBOL parent _ _ => current_module parent sl
  end.

(** The resolution step of [IMPORT_MODULE]'s [init]. [_T (Module)] yields
    the literal. *)
Definition resolve_module (Module : cstr) (module_flags : Z) : M Z :=
  if has module_flags SCFW_FLAG_DYNAMIC_LOAD
  then service (fun st => load_module st Module)
  else if has module_flags SCFW_FLAG_STRING_MODULE
  then service (fun st => find_module st Module)
  else service (fun st => find_module_hash st (Fnv1a.fnv1a_hash Module)).

(** The resolution step of [IMPORT_SYMBOL]'s [init], declared on top of
    [parent]. *)
Definition resolve_symbol (parent : chain) (Name : cstr) (entry_flags : Z) : M Z :=
  let dynamic_resolve :=
    has entry_flags SCFW_FLAG_DYNAMIC_RESOLVE
    || has (lookup_flags parent module) SCFW_FLAG_DYNAMIC_RESOLVE in
  do sl <- get_slots;
  if dynamic_resolve
  then service (fun st => lookup_symbol st (current_module parent sl) Name)
  else
    let string_symbol :=
      has entry_flags SCFW_FLAG_STRING_SYMBOL
      || has (lookup_flags parent module) SCFW_FLAG_STRING_SYMBOL in
    if string_symbol
    then service (fun _ => mode_lookup_symbol (current_module parent sl) Name)
    else service (fun _ => mode_lookup_symbol_hash (current_module parent sl)
                             (Fnv1a.fnv1a_hash Name)).

(** [init]: the parent's [init] first, its error passed on; then the
    entry's own resolution, stored in its slot whatever it is. *)
Fixpoint init (c : chain) (argument1 argument2 : Z) : M Z :=
  match c with
  | Base =>
      fun s =>
        match base_init argument1 argument2 (storage s) (world s) with
        | Some (err, st, w) =>
            Some (err, {| storage := st; slots := slots s; world := w; calls := calls s |})
        | None => None
        end
  | IMPORT_MODULE parent Module module_flags =>
      do err <- init parent argument1 argument2;
      if negb (err =? 0) then ret err else
      do module_ <- resolve_module Module module_flags;
      do_ set_slot (Id c) module_;
      if module_ =? 0 then ret (Id c) else ret 0
  | IMPORT_SYMBOL parent Name entry_flags =>
      do err <- init parent argument1 argument2;
      if negb (err =? 0) then ret err else
      do slot_ <- resolve_symbol parent Name entry_flags;
      do_ set_slot (Id c) slot_;
      ret (if negb (slot_ =? 0) then 0 else Id c)
  end.

(** [destroy]: the entry's own teardown, then the parent's. *)
Fixpoint destroy (c : chain) (argument1 argument2 : Z) : M unit :=
  match c with
  | Base => service_ (fun st => base_destroy argument1 argument2 st)
  | IMPORT_MODULE parent _ module_flags =>
      do_ (if has module_flags SCFW_FLAG_DYNAMIC_LOAD
              && has module_flags SCFW_FLAG_DYNAMIC_UNLOAD
           then do sl <- get_slots;
                if negb (slot (Id c) sl =? 0)
                then service_ (fun st => unload_module st (current_module c sl))
                else ret tt
           else ret tt);
      destroy parent argument1 argument2
  | IMPORT_SYMBOL parent _ _ => destroy parent argument1 argument2
  end.

(** The user's [entry], which the framework only declares. It runs with the
    import slots and the host and is taken to return. *)
Variable entry : Z -> Z -> list Z -> W -> list Z * W.




(** *** Notions used to state the properties *)

(** The base level reports no error. *)
Definition base_never_fails : Prop :=
  forall a1 a2 st w err st' w',
    base_init a1 a2 st w = Some (err, st', w') -> err = 0.

(** The three ways a symbol is resolved. *)
Inductive strategy := through_header | export_strcmp | export_hash.

Definition resolve_by (how : strategy) (module : Z) (Name : cstr) : M Z :=
  match how with
  | through_header => service (fun st => lookup_symbol st module Name)
  | export_strcmp => service (fun _ => mode_lookup_symbol module Name)
  | export_hash =>
      service (fun _ => mode_lookup_symbol_hash module (Fnv1a.fnv1a_hash Name))
  end.

End Chain.

(** The declared entries of a chain, in declaration order, and the flags of
    the nearest module entry among them (0 when there is none): the last
    module met when the declarations are read from the first on. *)
Inductive entry_decl :=
  | module_decl (Module : cstr) (Flags : Z)
  | symbol_decl (Name : cstr) (Flags : Z).

Fixpoint declarations (c : chain) : list entry_decl :=
  match c with
  | Base => []
  | IMPORT_MODULE parent Module Flags => declarations parent ++ [module_decl Module Flags]
  | IMPORT_SYMBOL parent Name Flags => declarations parent ++ [symbol_decl Name Flags]
  end.

Fixpoint last_module_flags (seen : Z) (l : list entry_decl) : Z :=
  match l with
  | [] => seen
  | module_decl _ Flags :: rest => last_module_flags Flags rest
  | symbol_decl _ _ :: rest => last_module_flags seen rest
  end.

Definition nearest_module_flags (preceding : list entry_decl) : Z :=
  last_module_flags 0 preceding.

(** Effective flags of a symbol, and the strategy they select. *)
Definition effective_flags (own parent_module : Z) : Z :=
  Z.lor own
    (Z.land parent_module (Z.lor SCFW_FLAG_DYNAMIC_RESOLVE SCFW_FLAG_STRING_SYMBOL)).

Definition strategy_of (effective : Z) : strategy :=
  if has effective SCFW_FLAG_DYNAMIC_RESOLVE then through_header
  else if has effective SCFW_FLAG_STRING_SYMBOL then export_strcmp
  else export_hash.

Arguments state : clear implicits.
Arguments platform : clear implicits.
Arguments M : clear implicits.

End Dispatch.

(** ** [init], read off the list of declarations

    The chain of specializations runs [init] from the innermost parent
    outwards. The same run told along the declarations, first to last: the
    base level first; then each entry in turn is resolved and its slot
    stored; the run stops at the first entry whose resolution gives null,
    and the result is that entry's ordinal. *)

Module InOrder.

Import Dispatch.

(** The ordinal of the module declared last in a list of declarations whose
    first element has ordinal [next]; [seen] when the list declares none. *)
Fixpoint last_module_ordinal (seen next : Z) (l : list entry_decl) : Z :=
  match l with
  | [] => seen
  | module_decl _ _ :: rest => last_module_ordinal next (next + 1) rest
  | symbol_decl _ _ :: rest => last_module_ordinal seen (next + 1) rest
  end.

Definition nearest_module_ordinal (preceding : list entry_decl) : Z :=
  last_module_ordinal 0 1 preceding.

(** The handle a symbol is looked up in: the slot of the nearest module
    declared before it, null when there is none. *)
Definition nearest_module_handle (preceding : list entry_decl) (sl : list Z) : Z :=
  if nearest_module_ordinal preceding =? 0 then 0
  else slot (nearest_module_ordinal preceding) sl.

(** The ordinal of the first null among the values [rs], the first value
    having ordinal [ordinal]; 0 when none is null. *)
Fixpoint first_null_from (ordinal : Z) (rs : list Z) : Z :=
  match rs with
  | [] => 0
  | r :: rs' => if r =? 0 then ordinal else first_null_from (ordinal + 1) rs'
  end.

Definition first_null (rs : list Z) : Z := first_null_from 1 rs.

Section Run.

Context {W : Type} {P : platform W}.

(** The resolution of one declaration, [preceding] being the declarations
    before it: a module the way its flags say, a symbol the way its
    effective flags say, in the nearest module before it. *)
Definition resolve_entry (preceding : list entry_decl) (d : entry_decl) : M W Z :=
  match d with
  | module_decl Module Flags => resolve_module Module Flags
  | symbol_decl Name Flags =>
      bind get_slots (fun sl =>
        resolve_by
          (strategy_of (effective_flags Flags (nearest_module_flags preceding)))
          (nearest_module_handle preceding sl) Name)
  end.

(** The entries [rest] resolved in order after [preceding]: each value is
    stored in the slot of its entry, and the run stops after the first
    null. The result is the list of the values resolved, the null
    included. *)
Fixpoint import_in_order (preceding rest : list entry_decl) : M W (list Z) :=
  match rest with
  | [] => ret []
  | d :: rest' =>
      bind (resolve_entry preceding d) (fun r =>
      bind (set_slot (Z.of_nat (length preceding) + 1) r) (fun _ =>
      if r =? 0 then ret [r]
      else bind (import_in_order (preceding ++ [d]) rest') (fun rs =>
           ret (r :: rs))))
  end.

(** [init] along the declarations: a non-zero result of the base level is
    passed on; else the result is the ordinal of the first entry whose
    resolution gave null, 0 when every entry resolved. *)
Definition init_in_order (decls : list entry_decl) (argument1 argument2 : Z)
  : M W Z :=
  bind (init Base argument1 argument2) (fun err =>
  if negb (err =? 0) then ret err
  else bind (import_in_order [] decls) (fun rs => ret (first_null rs))).

End Run.

End InOrder.

(** What both back ends read of the host's memory: the loader list of the
    current process and the images mapped at each base. *)
Class memory (W : Type) := {
  InLoadOrderModuleList : W -> list Windows.LDR_DATA_TABLE_ENTRY;
  ListHead_DllBase : W -> Z;
  image_at : W -> Z -> Windows.IMAGE
}.

Definition and_then {A B} (o : option A) (k : A -> option B) : option B :=
  match o with
  | Some a => k a
  | None => None
  end.

(** ** platform/windows/usermode.h *)

Module UserMode.

Import Dispatch.

Section Backend.

Context {W : Type} {Mem : memory W}.

(** Calls through the resolved header pointers: what the host does when the
    code at address [fn] is called with the arguments of [LoadLibraryA],
    [FreeLibrary] and [GetProcAddress]. The back end calls through a header
    slot without testing it. *)
Class api := {
  call_load_module_fn : Z -> cstr -> W -> option (Z * W);
  call_unload_module_fn : Z -> Z -> W -> option W;
  call_lookup_symbol_fn : Z -> Z -> cstr -> W -> option (Z * W)
}.

Context {Api : api}.

Variable F : features.
Variable L : layout.

(** Bound on the forwarder chains followed by the export parser. *)
Variable fuel : nat.

(** [mode_traits<user_mode>::find_module], both overloads. *)
Definition mode_find_module (name : cstr) (w : W) : Z :=
  if negb (SCFW_ENABLE_FULL_MODULE_SEARCH F)
     && (Crt0._stricmp name (lit "ntdll.dll") =? 0)
  then Windows.find_module_ntdll (InLoadOrderModuleList w) (ListHead_DllBase w)
  else if negb (SCFW_ENABLE_FULL_MODULE_SEARCH F)
     && (Crt0._stricmp name (lit "kernel32.dll") =? 0)
  then Windows.find_module_kernel32 (InLoadOrderModuleList w) (ListHead_DllBase w)
  else Windows.usermode_find_module (InLoadOrderModuleList w) name.

Definition mode_find_module_hash (hash : Z) (w : W) : Z :=
  if negb (SCFW_ENABLE_FULL_MODULE_SEARCH F)
     && (hash =? Fnv1a.fnv1a_hash (lit "ntdll.dll"))
  then Windows.find_module_ntdll (InLoadOrderModuleList w) (ListHead_DllBase w)
  else if negb (SCFW_ENABLE_FULL_MODULE_SEARCH F)
     && (hash =? Fnv1a.fnv1a_hash (lit "kernel32.dll"))
  then Windows.find_module_kernel32 (InLoadOrderModuleList w) (ListHead_DllBase w)
  else Windows.usermode_find_module_hash (InLoadOrderModuleList w) hash.

(** [mode_traits<user_mode>::lookup_symbol], both overloads. *)
Definition mode_lookup_symbol (module : Z) (name : cstr) (w : W) : option Z :=
  Windows.lookup_symbol (InLoadOrderModuleList w) (image_at w) fuel
    (SCFW_ENABLE_FIND_MODULE_FORWARDER F) module name.

Definition mode_lookup_symbol_hash (module : Z) (hash : Z) (w : W) : option Z :=
  Windows.lookup_symbol_hash (InLoadOrderModuleList w) (image_at w) fuel
    (SCFW_ENABLE_FIND_MODULE_FORWARDER F) module hash.

(** [mode::find_module (SCFW__MODULE (x))] and
    [mode::lookup_symbol (m, SCFW__SYMBOL (x))] of the base [init]. *)
Definition init_module (x : string) (w : W) : Z :=
  if SCFW_ENABLE_INIT_MODULES_BY_STRING F
  then mode_find_module (lit x) w
  else mode_find_module_hash (Fnv1a.fnv1a_hash (lit x)) w.

Definition init_symbol (m : Z) (x : string) (w : W) : option Z :=
  if SCFW_ENABLE_INIT_SYMBOLS_BY_STRING F
  then mode_lookup_symbol m (lit x) w
  else mode_lookup_symbol_hash m (Fnv1a.fnv1a_hash (lit x)) w.

(** A header field: resolved when its feature is enabled, else untouched. *)
Definition header_field (enabled : bool) (m : Z) (x : string) (w : W) (old : Z)
  : option Z :=
  if enabled then init_symbol m x w else Some old.

(** [dispatch_table_impl<0, user_mode>::init]. *)
Definition init (argument1 argument2 : Z) (st : dispatch_table_storage) (w : W)
  : option (Z * dispatch_table_storage * W) :=
  let cleanup :=
    if SCFW_ENABLE_CLEANUP F then live F L (addr__cleanup_usermode L)
    else cleanup_ st in
  let kernel32 := init_module "kernel32.dll" w in
  and_then (header_field (SCFW_ENABLE_CLEANUP F) kernel32 "VirtualFree" w (free_ st))
    (fun free =>
  and_then (header_field (SCFW_ENABLE_LOOKUP_SYMBOL F) kernel32 "GetProcAddress" w
              (lookup_symbol_ st))
    (fun lookup_symbol =>
  and_then (header_field (SCFW_ENABLE_LOAD_MODULE F) kernel32 "LoadLibraryA" w
              (load_module_ st))
    (fun load_module =>
  and_then (header_field (SCFW_ENABLE_UNLOAD_MODULE F) kernel32 "FreeLibrary" w
              (unload_module_ st))
    (fun unload_module =>
  Some (0,
        {| cleanup_ := cleanup; free_ := free; load_module_ := load_module;
           unload_module_ := unload_module; lookup_symbol_ := lookup_symbol;
           mode_ := mode_ st |},
        w))))).

(** The user-mode back end. *)
#[export] Instance user_mode : platform W := {|
  base_init := init;
  base_destroy := fun _ _ _ w => Some w;
  load_module := fun st name w => call_load_module_fn (load_module_ st) name w;
  unload_module := fun st m w => call_unload_module_fn (unload_module_ st) m w;
  find_module := fun _ name w => Some (mode_find_module name w, w);
  find_module_hash := fun _ hash w => Some (mode_find_module_hash hash w, w);
  lookup_symbol := fun st m name w => call_lookup_symbol_fn (lookup_symbol_ st) m name w;
  Dispatch.mode_lookup_symbol :=
    fun m name w => and_then (mode_lookup_symbol m name w) (fun r => Some (r, w));
  Dispatch.mode_lookup_symbol_hash :=
    fun m hash w => and_then (mode_lookup_symbol_hash m hash w) (fun r => Some (r, w))
|}.

End Backend.

End UserMode.

(** ** platform/windows/kernelmode.h *)

Module KernelMode.

Import Dispatch.

Section Backend.

Context {W : Type} {Mem : memory W}.

(** The kernel the enumeration helper talks to from a given host state, and
    the host after the helper's calls. *)
Class enumeration := {
  kernel_of : W -> Kernelmode.kernel;
  after_calls : list Kernelmode.event -> W -> W
}.

Context {Enum : enumeration}.

Variable F : features.
Variable L : layout.
Variable fuel : nat.

(** [mode_traits<kernel_mode>::find_module], both overloads; [kernel_base]
    is the member of the traits object. *)
Definition mode_find_module (kernel_base : Z) (name : cstr) (w : W) : option (Z * W) :=
  if Crt0._stricmp name (lit "ntoskrnl.exe") =? 0
  then Some (kernel_base, w)
  else and_then (Kernelmode.find_module (kernel_of w) name)
         (fun r => Some (fst r, after_calls (snd r) w)).

Definition mode_find_module_hash (kernel_base : Z) (hash : Z) (w : W) : option (Z * W) :=
  if hash =? Fnv1a.fnv1a_hash (lit "ntoskrnl.exe")
  then Some (kernel_base, w)
  else and_then (Kernelmode.find_module_hash (kernel_of w) hash)
         (fun r => Some (fst r, after_calls (snd r) w)).

Definition mode_lookup_symbol (module : Z) (name : cstr) (w : W) : option Z :=
  Windows.lookup_symbol (InLoadOrderModuleList w) (image_at w) fuel
    (SCFW_ENABLE_FIND_MODULE_FORWARDER F) module name.

Definition mode_lookup_symbol_hash (module : Z) (hash : Z) (w : W) : option Z :=
  Windows.lookup_symbol_hash (InLoadOrderModuleList w) (image_at w) fuel
    (SCFW_ENABLE_FIND_MODULE_FORWARDER F) module hash.

Definition init_symbol (m : Z) (x : string) (w : W) : option Z :=
  if SCFW_ENABLE_INIT_SYMBOLS_BY_STRING F
  then mode_lookup_symbol m (lit x) w
  else mode_lookup_symbol_hash m (Fnv1a.fnv1a_hash (lit x)) w.

(** [dispatch_table_impl<0, kernel_mode>::init]: [argument1] is the kernel
    base. *)
Definition init (argument1 argument2 : Z) (st : dispatch_table_storage) (w : W)
  : option (Z * dispatch_table_storage * W) :=
  let kernel_base := argument1 in
  let cleanup :=
    if SCFW_ENABLE_CLEANUP F then live F L (addr__cleanup_kernelmode L)
    else cleanup_ st in
  and_then (if SCFW_ENABLE_CLEANUP F
            then init_symbol kernel_base "ExFreePool" w
            else Some (free_ st))
    (fun free =>
  Some (0,
        {| cleanup_ := cleanup; free_ := free; load_module_ := load_module_ st;
           unload_module_ := unload_module_ st; lookup_symbol_ := lookup_symbol_ st;
           mode_ := kernel_base |},
        w)).

(** The kernel-mode back end. It defines no [load_module], [unload_module]
    or dynamic [lookup_symbol]: a chain that needs one does not build, and
    here the call does not return. *)
#[export] Instance kernel_mode : platform W := {|
  base_init := init;
  base_destroy := fun _ _ _ w => Some w;
  load_module := fun _ _ _ => None;
  unload_module := fun _ _ _ => None;
  find_module := fun st name w => mode_find_module (mode_ st) name w;
  find_module_hash := fun st hash w => mode_find_module_hash (mode_ st) hash w;
  lookup_symbol := fun _ _ _ _ => None;
  Dispatch.mode_lookup_symbol :=
    fun m name w => and_then (mode_lookup_symbol m name w) (fun r => Some (r, w));
  Dispatch.mode_lookup_symbol_hash :=
    fun m hash w => and_then (mode_lookup_symbol_hash m hash w) (fun r => Some (r, w))
|}.

End Backend.

End KernelMode.

(** ** Notions used to state the properties *)

Module Case.

(** ASCII upper-casing and lower-casing of a code unit: only the letters
    move. [lower] is the fold of the comparators of [crt0.h]. *)
Definition upper (c : Z) : Z :=
  if (chr_a <=? c) && (c <=? chr_z) then c - (chr_a - chr_A) else c.

Definition lower (c : Z) : Z := Crt0.to_lower c.

Definition is_ascii (c : Z) : Prop := 0 <= c <= 0x7F.

(** The five code units above ['z'] that the hasher's fold also moves. *)
Definition above_z (c : Z) : Prop := 0x7B <= c <= 0x7F.

End Case.

(** ** Concrete hosts *)

Module Examples.

(** An array and a set of strings given by their contents. *)
Definition table_of (l : list Z) : Z -> Z :=
  fun i => default 0 (l !! Z.to_nat i).

Fixpoint strings_of (l : list (Z * string)) : Z -> cstr :=
  fun rva =>
    match l with
    | [] => []
    | (at_rva, str) :: rest => if rva =? at_rva then lit str else strings_of rest rva
    end.

(** An image whose name table holds the same name twice. *)
Definition twice_named : Windows.IMAGE := {|
  Windows.ExportDirRVA := 0x80;
  Windows.ExportDirSize := 0x200;
  Windows.NumberOfNames := 3;
  Windows.Names := table_of [0x100; 0x110; 0x120];
  Windows.Ordinals := table_of [2; 0; 1];
  Windows.Functions := table_of [0x1000; 0x2000; 0x3000];
  Windows.string_at :=
    strings_of [(0x100, "FuncA"%string); (0x110, "FuncB"%string);
                (0x120, "FuncA"%string)]
|}.

(** An image with one export, forwarded to an API-set library: the DLL part
    of the forwarder string has 37 characters, the whole string 65. *)
Definition forwarding : Windows.IMAGE := {|
  Windows.ExportDirRVA := 0x80;
  Windows.ExportDirSize := 0x200;
  Windows.NumberOfNames := 1;
  Windows.Names := table_of [0x100];
  Windows.Ordinals := table_of [0];
  Windows.Functions := table_of [0x140];
  Windows.string_at :=
    strings_of
      [(0x100, "GetCurrentProcessorNumberEx"%string);
       (0x140, "api-ms-win-core-processthreads-l1-1-0.GetCurrentProcessorNumberEx"%string)]
|}.

(** A kernel whose first query fails outright (STATUS_ACCESS_DENIED) and
    stores no length. *)
Definition refusing : Kernelmode.kernel := {|
  Kernelmode.pool := [];
  Kernelmode.replies :=
    [ {| Kernelmode.Status := 0xC0000022;
         Kernelmode.ReturnLength := None;
         Kernelmode.Written := None |} ];
  Kernelmode.stale := fun _ => []
|}.

(** A kernel that reports the needed length, then fails the second query
    (STATUS_INSUFFICIENT_RESOURCES) without filling the buffer; the pool
    block handed out still holds an old module list. *)
Definition old_list : Kernelmode.RTL_PROCESS_MODULES :=
  [ {| Kernelmode.ImageBase := 0x7000;
       Kernelmode.FullPathName := lit "\SystemRoot\System32\drivers\ksecdd.sys";
       Kernelmode.OffsetToFileName := 29 |} ].

Definition failing_late : Kernelmode.kernel := {|
  Kernelmode.pool := [0x5000];
  Kernelmode.replies :=
    [ {| Kernelmode.Status := Kernelmode.STATUS_INFO_LENGTH_MISMATCH;
         Kernelmode.ReturnLength := Some 0x128;
         Kernelmode.Written := None |};
      {| Kernelmode.Status := 0xC000009A;
         Kernelmode.ReturnLength := None;
         Kernelmode.Written := None |} ];
  Kernelmode.stale := fun P => if P =? 0x5000 then old_list else []
|}.

(** A kernel whose pool is exhausted: [ExAllocatePool] returns null, and the
    query on the null buffer fails (STATUS_ACCESS_VIOLATION). *)
Definition exhausted : Kernelmode.kernel := {|
  Kernelmode.pool := [0];
  Kernelmode.replies :=
    [ {| Kernelmode.Status := Kernelmode.STATUS_INFO_LENGTH_MISMATCH;
         Kernelmode.ReturnLength := Some 0x128;
         Kernelmode.Written := None |};
      {| Kernelmode.Status := 0xC0000005;
         Kernelmode.ReturnLength := None;
         Kernelmode.Written := None |} ];
  Kernelmode.stale := fun _ => []
|}.

(** A user-mode process: the executable, ntdll and kernel32 in load order,
    and a kernel32 with three named exports. *)
Definition kernel32 : Windows.IMAGE := {|
  Windows.ExportDirRVA := 0x80;
  Windows.ExportDirSize := 0x200;
  Windows.NumberOfNames := 3;
  Windows.Names := table_of [0x100; 0x110; 0x120];
  Windows.Ordinals := table_of [0; 1; 2];
  Windows.Functions := table_of [0x1000; 0x2000; 0x3000];
  Windows.string_at :=
    strings_of [(0x100, "LoadLibraryA"%string); (0x110, "Sleep"%string);
                (0x120, "VirtualFree"%string)]
|}.

Definition no_exports : Windows.IMAGE := {|
  Windows.ExportDirRVA := 0;
  Windows.ExportDirSize := 0;
  Windows.NumberOfNames := 0;
  Windows.Names := table_of [];
  Windows.Ordinals := table_of [];
  Windows.Functions := table_of [];
  Windows.string_at := strings_of []
|}.

Definition process : list Windows.LDR_DATA_TABLE_ENTRY :=
  [ {| Windows.BaseDllName := lit "payload.exe"; Windows.DllBase := 0x400000 |};
    {| Windows.BaseDllName := lit "ntdll.dll"; Windows.DllBase := 0x77000000 |};
    {| Windows.BaseDllName := lit "KERNEL32.DLL"; Windows.DllBase := 0x76000000 |} ].

#[export] Instance process_memory : memory unit := {|
  InLoadOrderModuleList := fun _ => process;
  ListHead_DllBase := fun _ => 0;
  image_at := fun _ base => if base =? 0x76000000 then kernel32 else no_exports
|}.

(** No library can be loaded and no symbol looked up through the host. *)
#[export] Instance no_api : UserMode.api (W := unit) := {|
  UserMode.call_load_module_fn := fun _ _ _ => None;
  UserMode.call_unload_module_fn := fun _ _ _ => None;
  UserMode.call_lookup_symbol_fn := fun _ _ _ _ => None
|}.

(** The default build for x64, and a payload linked at 0x1000 and running
    at 0x20000. *)
Definition default_build : Dispatch.features := {|
  Dispatch.SCFW_ENABLE_CLEANUP := false;
  Dispatch.SCFW_ENABLE_LOAD_MODULE := false;
  Dispatch.SCFW_ENABLE_UNLOAD_MODULE := false;
  Dispatch.SCFW_ENABLE_LOOKUP_SYMBOL := false;
  Dispatch.SCFW_ENABLE_FULL_MODULE_SEARCH := false;
  Dispatch.SCFW_ENABLE_FIND_MODULE_FORWARDER := false;
  Dispatch.SCFW_ENABLE_INIT_MODULES_BY_STRING := false;
  Dispatch.SCFW_ENABLE_INIT_SYMBOLS_BY_STRING := false;
  Dispatch._M_IX86 := false
|}.

Definition linked : Dispatch.layout := {|
  Dispatch.addr__pc := 0x1010;
  Dispatch._pc := 0x20010;
  Dispatch.addr___dispatch_table := 0x1800;
  Dispatch.addr__cleanup_usermode := 0x1020;
  Dispatch.addr__cleanup_kernelmode := 0x1030
|}.

(** [IMPORT_MODULE ("kernel32.dll"); IMPORT_SYMBOL (Sleep);], and the same
    chain followed by a symbol kernel32 does not export. *)
Definition sleep_chain : Dispatch.chain :=
  Dispatch.IMPORT_SYMBOL
    (Dispatch.IMPORT_MODULE Dispatch.Base (lit "kernel32.dll") 0)
    (lit "Sleep") 0.

Definition missing_chain : Dispatch.chain :=
  Dispatch.IMPORT_SYMBOL sleep_chain (lit "NoSuchExport") 0.

(** The zero-initialized table with [n] import slots, before [_entry]. *)
Definition fresh (n : nat) : Dispatch.state unit := {|
  Dispatch.storage :=
    {| Dispatch.cleanup_ := 0; Dispatch.free_ := 0; Dispatch.load_module_ := 0;
       Dispatch.unload_module_ := 0; Dispatch.lookup_symbol_ := 0;
       Dispatch.mode_ := 0 |};
  Dispatch.slots := replicate n 0;
  Dispatch.world := tt;
  Dispatch.calls := []
|}.

Definition user_mode : Dispatch.platform unit :=
  UserMode.user_mode default_build linked 0.


End Examples.

(** ** crt0.h: the memory routines *)

Module Crt0Mem.

(** Memory as the byte routines see it: a byte at every address. A read
    through [unsigned char* ] is [load]; [store] writes one byte. *)
Definition memory := Z -> Z.

Definition load (m : memory) (p : Z) : Z := uint8 (m p).

Definition store (m : memory) (p v : Z) : memory :=
  fun a => if a =? p then v else m a.

(** [memcmp]: return the difference of the first pair of bytes that differ
    among the first [count], 0 if none does. *)
Fixpoint memcmp (m : memory) (p1 p2 : Z) (count : nat) : Z :=
  match count with
  | O => 0
  | S count' =>
      if negb (load m p1 =? load m p2)
      then load m p1 - load m p2
      else memcmp m (p1 + 1) (p2 + 1) count'
  end.

(** [memset]: store [(unsigned char)ch] in [count] successive bytes. *)
Fixpoint memset (m : memory) (p : Z) (ch : Z) (count : nat) : memory :=
  match count with
  | O => m
  | S count' => memset (store m p (uint8 ch)) (p + 1) ch count'
  end.

(** [memcpy]: copy [count] bytes, lowest address first. *)
Fixpoint memcpy (m : memory) (d s : Z) (count : nat) : memory :=
  match count with
  | O => m
  | S count' => memcpy (store m d (load m s)) (d + 1) (s + 1) count'
  end.

(** The second branch of [memmove]: [d] and [s] point past the ends, and
    each step stores through the decremented pointers. *)
Fixpoint copy_backward (m : memory) (d s : Z) (count : nat) : memory :=
  match count with
  | O => m
  | S count' => copy_backward (store m (d - 1) (load m (s - 1))) (d - 1) (s - 1) count'
  end.

(** [memmove]: lowest address first when [d < s], else highest first. *)
Definition memmove (m : memory) (d s : Z) (count : nat) : memory :=
  if d <? s
  then memcpy m d s count
  else copy_backward m (d + Z.of_nat count) (s + Z.of_nat count) count.

(** [memchr]: the address of the first of [count] bytes equal to
    [(unsigned char)ch], null if there is none. *)
Fixpoint memchr (m : memory) (p : Z) (ch : Z) (count : nat) : Z :=
  match count with
  | O => 0
  | S count' =>
      if load m p =? uint8 ch then p
      else memchr m (p + 1) ch count'
  end.

End Crt0Mem.

(** ** crt0.h: the remaining string routines *)

Module Crt0Str.

(** A buffer after a list of stores [(index, value)], in order. A store
    outside the buffer does not land in it. *)
Definition write (buf : list Z) (stores : list (Z * Z)) : list Z :=
  foldl Windows.store buf stores.

(** [strncpy (dest, src, count)] as the stores it makes. The first loop
    stores a unit of [src] and advances [d] whenever [count] is not zero,
    and decrements [count] only when the unit stored is not zero; the
    second loop then stores [count] zero units from where [d] stands. *)
Fixpoint strncpy_pad (d : Z) (count : nat) : list (Z * Z) :=
  match count with
  | O => []
  | S count' => (d, 0) :: strncpy_pad (d + 1) count'
  end.

Fixpoint strncpy_from (d : Z) (src : cstr) (count : nat) : list (Z * Z) :=
  match count with
  | O => []
  | S count' =>
      if peek src =? 0
      then (d, 0) :: strncpy_pad (d + 1) count
      else (d, peek src) :: strncpy_from (d + 1) (advance src) count'
  end.

Definition strncpy (src : cstr) (count : nat) : list (Z * Z) :=
  strncpy_from 0 src count.

(** [strncmp]: like [strcmp], over at most [count] units; 0 when the
    count runs out first. *)
Fixpoint strncmp (lhs rhs : cstr) (count : nat) : Z :=
  match count with
  | O => 0
  | S count' =>
      if negb (peek lhs =? 0) && (peek lhs =? peek rhs)
      then strncmp (advance lhs) (advance rhs) count'
      else uint8 (peek lhs) - uint8 (peek rhs)
  end.

(** [_wcsicmp]: the wide comparator; the result is [c1 - c2]. *)
Fixpoint _wcsicmp (lhs rhs : cstr) {struct lhs} : Z :=
  let c1 := Crt0.to_lower (peek lhs) in
  let c2 := Crt0.to_lower (peek rhs) in
  match lhs with
  | [] => c1 - c2
  | _ :: lhs' =>
      if negb (c1 =? 0) && (c1 =? c2)
      then _wcsicmp lhs' (advance rhs)
      else c1 - c2
  end.

(** [strcat (dest, src)]: the stores of the copy, which starts at the
    terminator of [dest]; and [dest] after them. *)
Definition strcat_stores (dest src : cstr) : list (Z * Z) :=
  Crt0.strcpy_from (Z.of_nat (Crt0.strlen dest)) src.

Definition strcat (dest src : cstr) : list Z :=
  write dest (strcat_stores dest src).

(** [strncat (dest, src, count)]. The loop test [count--] fails at zero and
    leaves [count] at [(size_t)-1], which is when the terminator is stored
    after the loop; the loop also ends on storing a zero unit. *)
Fixpoint strncat_from (d : Z) (src : cstr) (count : nat) : list (Z * Z) :=
  match count with
  | O => [(d, 0)]
  | S count' =>
      if peek src =? 0
      then [(d, 0)]
      else (d, peek src) :: strncat_from (d + 1) (advance src) count'
  end.

Definition strncat (dest src : cstr) (count : nat) : list Z :=
  write dest (strncat_from (Z.of_nat (Crt0.strlen dest)) src count).

(** [strchr]: the pointer to the first unit equal to [(char)ch]; when there
    is none, the pointer to the terminator if [ch] is zero, else null
    ([None]). Two [char]s are equal when their bytes are. *)
Fixpoint strchr (str : cstr) (ch : Z) : option cstr :=
  match str with
  | [] => if ch =? 0 then Some str else None
  | c :: str' =>
      if c =? 0 then (if ch =? 0 then Some str else None)
      else if uint8 c =? uint8 ch then Some str
      else strchr str' ch
  end.

(** [strrchr]: [last] holds the latest match while the string is walked. *)
Fixpoint strrchr_from (last : option cstr) (str : cstr) (ch : Z) : option cstr :=
  match str with
  | [] => if ch =? 0 then Some str else last
  | c :: str' =>
      if c =? 0 then (if ch =? 0 then Some str else last)
      else strrchr_from (if uint8 c =? uint8 ch then Some str else last) str' ch
  end.

Definition strrchr (str : cstr) (ch : Z) : option cstr :=
  strrchr_from None str ch.

(** The inner loop of [strstr] and its test [!*n]: walk [h] and [n] while
    both hold equal non-zero units, and report whether [n] was exhausted. *)
Fixpoint match_here (h n : cstr) {struct n} : bool :=
  match n with
  | [] => true
  | c :: n' =>
      if c =? 0 then true
      else if negb (peek h =? 0) && (peek h =? c)
      then match_here (advance h) n'
      else false
  end.

(** [strstr]: [str] itself for an empty [substr]; else the first position
    of [str] where the inner loop exhausts [substr]; null if none. *)
Fixpoint strstr_scan (str substr : cstr) : option cstr :=
  match str with
  | [] => None
  | c :: str' =>
      if c =? 0 then None
      else if match_here str substr then Some str
      else strstr_scan str' substr
  end.

Definition strstr (str substr : cstr) : option cstr :=
  if peek substr =? 0 then Some str else strstr_scan str substr.

(** The stores that lay the units of [l] at consecutive indices from [d]. *)
Fixpoint block (d : Z) (l : list Z) : list (Z * Z) :=
  match l with
  | [] => []
  | v :: l' => (d, v) :: block (d + 1) l'
  end.

(** A unit that is a byte; on bytes, equality of [char]s and equality of
    their [unsigned char] values are the same. *)
Definition is_byte (c : Z) : Prop := 0 <= c <= 255.

End Crt0Str.

(** ** platform/windows/common.h: the wide overload of [find_module] *)

Module WindowsWide.

(** [usermode::find_module (const wchar_t* )]. *)
Definition usermode_find_module_wide
    (InLoadOrderModuleList : list Windows.LDR_DATA_TABLE_ENTRY) (name : cstr) : Z :=
  Windows.usermode_find_module_impl
    (fun module => Crt0Str._wcsicmp module name =? 0) InLoadOrderModuleList.

(** Two names that are equal up to the case of ASCII letters. *)
Definition same_name (a b : cstr) : Prop :=
  map Crt0.to_lower (Crt0.chars a) = map Crt0.to_lower (Crt0.chars b).

(** The load order the fast paths rely on: the executable first, then
    ntdll.dll, then kernel32.dll, the executable bearing neither name. *)
Definition standard_load_order (L : list Windows.LDR_DATA_TABLE_ENTRY) : Prop :=
  exists exe ntdll kernel32 rest,
    L = exe :: ntdll :: kernel32 :: rest
    /\ ~ same_name (Windows.BaseDllName exe) (lit "ntdll.dll")
    /\ ~ same_name (Windows.BaseDllName exe) (lit "kernel32.dll")
    /\ same_name (Windows.BaseDllName ntdll) (lit "ntdll.dll")
    /\ same_name (Windows.BaseDllName kernel32) (lit "kernel32.dll").

End WindowsWide.

(** ** The pool traffic of [kernelmode::find_module_impl] *)

Module PoolTraffic.

(** The pointers [ExAllocatePool] returned and the pointers passed to
    [ExFreePool], in program order. *)
Definition allocations (log : list Kernelmode.event) : list Z :=
  omap (fun e => match e with Kernelmode.EvAlloc _ P => Some P | _ => None end) log.

Definition frees (log : list Kernelmode.event) : list Z :=
  omap (fun e => match e with Kernelmode.EvFree P => Some P | _ => None end) log.

(** What holds of the locals whenever the loop is at its head. *)
Definition pool_balanced (f : Kernelmode.frame) : Prop :=
  (allocations (Kernelmode.log f) = [] /\ Kernelmode.Buffer f = 0
   /\ frees (Kernelmode.log f) = [])
  \/ (exists earlier,
        allocations (Kernelmode.log f) = earlier ++ [Kernelmode.Buffer f]
        /\ frees (Kernelmode.log f) = filter (fun P => P <> 0) earlier).

End PoolTraffic.

(** ** Further hosts used as witnesses *)

Module Hosts.

(** A kernel that reports the needed length and then fills the buffer. *)
Definition answering : Kernelmode.kernel := {|
  Kernelmode.pool := [0x5000];
  Kernelmode.replies :=
    [ {| Kernelmode.Status := Kernelmode.STATUS_INFO_LENGTH_MISMATCH;
         Kernelmode.ReturnLength := Some 0x128;
         Kernelmode.Written := None |};
      {| Kernelmode.Status := 0;
         Kernelmode.ReturnLength := Some 0x128;
         Kernelmode.Written := Some Examples.old_list |} ];
  Kernelmode.stale := fun _ => []
|}.

(** A kernel-mode host that talks to it. *)
#[export] Instance kernel_host : KernelMode.enumeration (W := unit) := {|
  KernelMode.kernel_of := fun _ => answering;
  KernelMode.after_calls := fun _ w => w
|}.

(** A native process: only the executable and ntdll are loaded, so no
    walk of the loader list finds kernel32. *)
Definition native_process : list Windows.LDR_DATA_TABLE_ENTRY :=
  [ {| Windows.BaseDllName := lit "smss.exe"; Windows.DllBase := 0x400000 |};
    {| Windows.BaseDllName := lit "ntdll.dll"; Windows.DllBase := 0x77000000 |} ].

Definition native_memory : memory unit := {|
  InLoadOrderModuleList := fun _ => native_process;
  ListHead_DllBase := fun _ => 0;
  image_at := fun _ _ => Examples.no_exports
|}.

(** A build with [SCFW_ENABLE_CLEANUP] and [SCFW_ENABLE_FULL_MODULE_SEARCH]
    defined. *)
Definition cleanup_build : Dispatch.features := {|
  Dispatch.SCFW_ENABLE_CLEANUP := true;
  Dispatch.SCFW_ENABLE_LOAD_MODULE := false;
  Dispatch.SCFW_ENABLE_UNLOAD_MODULE := false;
  Dispatch.SCFW_ENABLE_LOOKUP_SYMBOL := false;
  Dispatch.SCFW_ENABLE_FULL_MODULE_SEARCH := true;
  Dispatch.SCFW_ENABLE_FIND_MODULE_FORWARDER := false;
  Dispatch.SCFW_ENABLE_INIT_MODULES_BY_STRING := false;
  Dispatch.SCFW_ENABLE_INIT_SYMBOLS_BY_STRING := false;
  Dispatch._M_IX86 := false
|}.

End Hosts.

(** ** The teardown order of a chain *)

Module Teardown.

Import Dispatch.

(** The handle [destroy] passes to [unload_module] for the declaration at
    position [i] (the entry with [Id = i + 1]), if any: the entry is a
    module loaded and unloaded dynamically and its slot is not null. *)
Definition unloaded (sl : list Z) (i : nat) (d : entry_decl) : option Z :=
  match d with
  | module_decl _ Flags =>
      if has Flags SCFW_FLAG_DYNAMIC_LOAD && has Flags SCFW_FLAG_DYNAMIC_UNLOAD
         && negb (slot (Z.of_nat i + 1) sl =? 0)
      then Some (slot (Z.of_nat i + 1) sl)
      else None
  | symbol_decl _ _ => None
  end.

(** The handles unloaded, last declaration first. *)
Definition unload_order (c : chain) (sl : list Z) : list Z :=
  reverse (omap id (imap (unloaded sl) (declarations c))).

(** [unload_module] called on each handle in turn. *)
Fixpoint unload_all {W : Type} {P : platform W} (st : dispatch_table_storage)
    (handles : list Z) (w : W) : option W :=
  match handles with
  | [] => Some w
  | h :: rest =>
      match unload_module st h w with
      | Some w' => unload_all st rest w'
      | None => None
      end
  end.

End Teardown.

(** ** tools/scrun.c *)

Module Scrun.

Definition INVALID_HANDLE_VALUE : Z := -1.
Definition INVALID_FILE_SIZE : Z := 0xFFFFFFFF.

(** What the system answers to the launcher. Each service is called at
    most once in a run, so its answer is a function of its arguments.
    [ReadFile] gives [Success] and [BytesRead]; [VirtualProtect] is asked
    after the shellcode has returned; [strtoull] gives the argument already
    converted to a pointer. *)
Record host := {
  CreateFileA : cstr -> Z;
  GetFileSize : Z -> Z;
  VirtualAlloc : Z -> Z;
  ReadFile : Z -> Z -> Z -> bool * Z;
  VirtualProtect : Z -> Z -> bool;
  strtoull : cstr -> Z
}.

(** The calls [main] makes, in program order; the messages it prints are
    left out. *)
Inductive event :=
  | EvCreateFileA (lpFileName : cstr)
  | EvGetFileSize (hFile : Z)
  | EvVirtualAlloc (dwSize : Z)
  | EvReadFile (hFile lpBuffer nNumberOfBytesToRead : Z)
  | EvCloseHandle (hObject : Z)
  | EvVirtualFree (lpAddress : Z)
  | EvShellcode (BaseAddress Arg1 Arg2 : Z)
  | EvVirtualProtect (lpAddress dwSize : Z).

(** [main (argc, argv)], [argc] being the length of [argv]: the exit code
    and the calls made. The shellcode is taken to return. *)
Definition main (h : host) (argv : list cstr) : Z * list event :=
  let argc := Z.of_nat (length argv) in
  if argc <? 2 then (1, []) else
  let FileHandle := CreateFileA h (nth 1 argv []) in
  let opened := [EvCreateFileA (nth 1 argv [])] in
  if FileHandle =? INVALID_HANDLE_VALUE then (1, opened) else
  let FileSize := GetFileSize h FileHandle in
  let sized := opened ++ [EvGetFileSize FileHandle] in
  if FileSize =? INVALID_FILE_SIZE then (1, sized ++ [EvCloseHandle FileHandle]) else
  if FileSize =? 0 then (1, sized ++ [EvCloseHandle FileHandle]) else
  let BaseAddress := VirtualAlloc h FileSize in
  let allocated := sized ++ [EvVirtualAlloc FileSize] in
  if BaseAddress =? 0 then (1, allocated ++ [EvCloseHandle FileHandle]) else
  let '(Success, BytesRead) := ReadFile h FileHandle BaseAddress FileSize in
  let read := allocated ++ [EvReadFile FileHandle BaseAddress FileSize;
                            EvCloseHandle FileHandle] in
  if negb Success || negb (BytesRead =? FileSize)
  then (1, read ++ [EvVirtualFree BaseAddress]) else
  let Arg1 := if argc >? 2 then strtoull h (nth 2 argv []) else 0 in
  let Arg2 := if argc >? 3 then strtoull h (nth 3 argv []) else 0 in
  let ran := read ++ [EvShellcode BaseAddress Arg1 Arg2;
                      EvVirtualProtect BaseAddress FileSize] in
  if VirtualProtect h BaseAddress FileSize
  then (0, ran ++ [EvVirtualFree BaseAddress])
  else (0, ran).

(** The handles closed, the blocks freed and the entry points called. *)
Definition closed (log : list event) : list Z :=
  omap (fun e => match e with EvCloseHandle x => Some x | _ => None end) log.

Definition freed (log : list event) : list Z :=
  omap (fun e => match e with EvVirtualFree x => Some x | _ => None end) log.

Definition entered (log : list event) : list Z :=
  omap (fun e => match e with EvShellcode x _ _ => Some x | _ => None end) log.

End Scrun.

(** * Properties *)

(** ** Case folding: hasher and comparators *)

Section CaseFolding.

Import Crt0 Fnv1a Case.

Ltac crunch_bytes :=
  unfold is_ascii, above_z, upper, lower, to_lower, fold, uint8,
    chr_a, chr_z, chr_A, chr_Z in *;
  repeat match goal with
  | |- context [?a <=? ?b] => destruct (Z.leb_spec a b)
  | |- context [?a =? ?b] => destruct (Z.eqb_spec a b)
  | H : context [?a <=? ?b] |- _ => destruct (Z.leb_spec a b)
  end;
  simpl in *;
  repeat match goal with
  | |- context [?a mod 2 ^ 8] => rewrite (Z.mod_small a (2 ^ 8)) by lia
  | H : context [?a mod 2 ^ 8] |- _ => rewrite (Z.mod_small a (2 ^ 8)) in H by lia
  end;
  try lia.

Lemma fold_upper (c : Z) : is_ascii c -> fold (uint8 (upper c)) = fold (uint8 c).
Proof. intros H. crunch_bytes. Qed.

Lemma fold_lower (c : Z) : is_ascii c -> fold (uint8 (lower c)) = fold (uint8 c).
Proof. intros H. crunch_bytes. Qed.

Lemma upper_zero (c : Z) : is_ascii c -> (upper c =? 0) = (c =? 0).
Proof. intros H. crunch_bytes. Qed.

Lemma lower_zero (c : Z) : is_ascii c -> (lower c =? 0) = (c =? 0).
Proof. intros H. crunch_bytes. Qed.

Lemma strlen_map (f : Z -> Z) (s : cstr) :
  Forall (fun c => (f c =? 0) = (c =? 0)) s ->
  strlen (map f s) = strlen s.
Proof.
  induction 1 as [|c s Hc _ IH]; simpl; [reflexivity|].
  rewrite Hc. destruct (c =? 0); congruence.
Qed.

Lemma fnv1a_loop_map (f : Z -> Z) (s : cstr) :
  Forall (fun c => fold (uint8 (f c)) = fold (uint8 c)) s ->
  forall n hash, fnv1a_loop (map f s) n hash = fnv1a_loop s n hash.
Proof.
  intros Hs.
  induction Hs as [|c s Hc _ IH]; intros n hash.
  - reflexivity.
  - destruct n as [|n]; simpl; [reflexivity|].
    unfold peek; simpl. rewrite Hc. apply IH.
Qed.

Lemma fnv1a_hash_map (f : Z -> Z) (s : cstr) :
  Forall is_ascii s ->
  (forall c, is_ascii c -> fold (uint8 (f c)) = fold (uint8 c)) ->
  (forall c, is_ascii c -> (f c =? 0) = (c =? 0)) ->
  fnv1a_hash (map f s) = fnv1a_hash s.
Proof.
  intros Hs Hfold Hzero. unfold fnv1a_hash, fnv1a_hash_n.
  rewrite strlen_map by (eapply Forall_impl; [exact Hs|]; auto).
  apply fnv1a_loop_map.
  eapply Forall_impl; [exact Hs|]. auto.
Qed.

(** C7. For every ASCII-only string [s] the hash of [s], of its upper-cased
    form and of its lower-cased form are the same value. *)
Theorem fnv1a_hash_case_insensitive (s : cstr) :
  Forall is_ascii s ->
  fnv1a_hash s = fnv1a_hash (map upper s)
  /\ fnv1a_hash (map upper s) = fnv1a_hash (map lower s).
Proof.
  intros Hs.
  assert (Hu : fnv1a_hash (map upper s) = fnv1a_hash s).
  { apply fnv1a_hash_map; auto using fold_upper, upper_zero. }
  assert (Hl : fnv1a_hash (map lower s) = fnv1a_hash s).
  { apply fnv1a_hash_map; auto using fold_lower, lower_zero. }
  split; congruence.
Qed.

Lemma fnv1a_hash_case_insensitive_witness :
  Forall is_ascii (lit "Kernel32.dll")
  /\ fnv1a_hash (lit "Kernel32.dll") = fnv1a_hash (lit "KERNEL32.DLL")
  /\ fnv1a_hash (lit "KERNEL32.DLL") = fnv1a_hash (lit "kernel32.dll").
Proof.
  assert (H : Forall is_ascii (lit "Kernel32.dll")).
  { repeat constructor; unfold is_ascii; simpl; lia. }
  split; [exact H|].
  exact (fnv1a_hash_case_insensitive (lit "Kernel32.dll") H).
Defined.

Lemma chars_cons (a : Z) (s : cstr) :
  chars (a :: s) = if a =? 0 then [] else a :: chars s.
Proof. unfold chars. simpl. destruct (a =? 0); reflexivity. Qed.

Lemma to_lower_diff (c d : Z) :
  is_ascii c -> is_ascii d ->
  (uint8 (to_lower c) - uint8 (to_lower d) = 0 <-> to_lower c = to_lower d).
Proof. intros Hc Hd. crunch_bytes. Qed.

Lemma to_lower_zero (c : Z) : is_ascii c -> to_lower c = 0 -> c = 0.
Proof. intros Hc. crunch_bytes. Qed.

Lemma stricmp_zero_iff (s : cstr) : forall t : cstr,
  Forall is_ascii s -> Forall is_ascii t ->
  (_stricmp s t = 0 <-> map to_lower (chars s) = map to_lower (chars t)).
Proof.
  induction s as [|a s IH]; intros t Hs Ht.
  - assert (Hp : is_ascii (peek t)).
    { destruct Ht; simpl; [unfold is_ascii; lia | assumption]. }
    simpl. change (chars []) with (@nil Z). simpl.
    rewrite (to_lower_diff 0 (peek t)) by (unfold is_ascii; try lia; assumption).
    change (to_lower 0) with 0.
    destruct t as [|b t]; simpl in *.
    + split; reflexivity.
    + rewrite chars_cons. destruct (Z.eqb_spec b 0) as [->|Hb]; simpl.
      * split; reflexivity.
      * split; [|discriminate]. intros E. symmetry in E.
        apply to_lower_zero in E; [contradiction | assumption].
  - inversion Hs as [|? ? Ha Hs']; subst.
    assert (Hp : is_ascii (peek t)).
    { destruct Ht; simpl; [unfold is_ascii; lia | assumption]. }
    cbn [_stricmp]. change (peek (a :: s)) with a.
    rewrite chars_cons.
    destruct (Z.eqb_spec (to_lower a) 0) as [E0|N0]; simpl negb; simpl andb.
    + apply to_lower_zero in E0; [|assumption]. subst a. simpl.
      change (to_lower 0) with 0.
      rewrite (to_lower_diff 0 (peek t)) by (unfold is_ascii; try lia; assumption).
      change (to_lower 0) with 0.
      destruct t as [|b t]; simpl in *.
      * split; reflexivity.
      * rewrite chars_cons. destruct (Z.eqb_spec b 0) as [->|Hb]; simpl.
        -- split; reflexivity.
        -- split; [|discriminate]. intros E. symmetry in E.
           apply to_lower_zero in E; [contradiction | assumption].
    + assert (Ha0 : a <> 0) by (intros ->; apply N0; reflexivity).
      destruct (Z.eqb_spec a 0) as [|_]; [contradiction|].
      destruct (Z.eqb_spec (to_lower a) (to_lower (peek t))) as [E|N].
      * destruct t as [|b t]; simpl in E.
        { change (to_lower 0) with 0 in E. contradiction. }
        inversion Ht as [|? ? Hb Ht']; subst.
        simpl advance. rewrite chars_cons.
        assert (Hb0 : b <> 0).
        { intros ->. change (to_lower 0) with 0 in E. contradiction. }
        destruct (Z.eqb_spec b 0) as [|_]; [contradiction|].
        simpl. rewrite (IH t Hs' Ht'). split.
        -- intros ->. rewrite E. reflexivity.
        -- intros X. injection X. auto.
      * rewrite to_lower_diff by assumption.
        split; [contradiction|]. intros X. exfalso. apply N.
        destruct t as [|b t]; simpl in X |- *.
        { change (chars []) with (@nil Z) in X. discriminate. }
        rewrite chars_cons in X. destruct (Z.eqb_spec b 0); [discriminate|].
        simpl in X. injection X. auto.
Qed.

Lemma map_fold_of_map_lower (xs : list Z) : forall ys : list Z,
  Forall is_ascii xs -> Forall is_ascii ys ->
  map to_lower xs = map to_lower ys ->
  map (fun c => fold (uint8 c)) xs = map (fun c => fold (uint8 c)) ys.
Proof.
  induction xs as [|x xs IH]; intros [|y ys] Hx Hy E; try discriminate; auto.
  inversion Hx; inversion Hy; subst. simpl in E. injection E as E1 E2.
  simpl. f_equal; [|auto].
  clear - E1 H1 H5. crunch_bytes.
Qed.

Lemma map_lower_of_map_fold (xs : list Z) : forall ys : list Z,
  Forall (fun c => 0 <= c <= chr_z) xs -> Forall (fun c => 0 <= c <= chr_z) ys ->
  map (fun c => fold (uint8 c)) xs = map (fun c => fold (uint8 c)) ys ->
  map to_lower xs = map to_lower ys.
Proof.
  induction xs as [|x xs IH]; intros [|y ys] Hx Hy E; try discriminate; auto.
  inversion Hx; inversion Hy; subst. simpl in E. injection E as E1 E2.
  simpl. f_equal; [|auto].
  clear - E1 H1 H5. crunch_bytes.
Qed.

Lemma Forall_chars (Q : Z -> Prop) (s : cstr) : Forall Q s -> Forall Q (chars s).
Proof. unfold chars. apply Forall_take. Qed.

(** C8, as the code has it. On the ASCII range the comparators' fold is
    finer than the hasher's: two bytes with equal comparator folds have
    equal hasher folds, and two bytes with equal hasher folds have equal
    comparator folds unless they are one of the five pairs made of a byte in
    0x7B..0x7F and the byte 0x20 below it. So for ASCII strings a zero
    [_stricmp] gives equal folded byte sequences, and the converse holds
    for strings whose bytes are all at most ['z']. *)
Theorem folds_agree_up_to_z (c d : Z) (s t : cstr) :
  is_ascii c -> is_ascii d -> Forall is_ascii s -> Forall is_ascii t ->
  (to_lower c = to_lower d -> fold c = fold d)
  /\ (fold c = fold d <->
      to_lower c = to_lower d
      \/ (above_z c /\ d = c - 0x20) \/ (above_z d /\ c = d - 0x20))
  /\ (_stricmp s t = 0 -> folded s = folded t)
  /\ (Forall (fun x => x <= chr_z) s -> Forall (fun x => x <= chr_z) t ->
      folded s = folded t -> _stricmp s t = 0).
Proof.
  intros Hc Hd Hs Ht. split; [|split; [|split]].
  - clear Hs Ht. intros E. crunch_bytes.
  - clear Hs Ht. crunch_bytes.
  - intros E. apply stricmp_zero_iff in E; try assumption.
    unfold folded. apply map_fold_of_map_lower; auto using Forall_chars.
  - intros Zs Zt E. apply stricmp_zero_iff; try assumption.
    unfold folded in E. apply map_lower_of_map_fold; try assumption.
    + apply Forall_chars. rewrite Forall_forall in *. intros x Hx.
      specialize (Hs x Hx). specialize (Zs x Hx). unfold is_ascii in Hs. lia.
    + apply Forall_chars. rewrite Forall_forall in *. intros x Hx.
      specialize (Ht x Hx). specialize (Zt x Hx). unfold is_ascii in Ht. lia.
Qed.

Lemma folds_agree_up_to_z_witness :
  is_ascii 65 /\ is_ascii 97 /\ fold 65 = fold 97
  /\ _stricmp (lit "Sleep") (lit "SLEEP") = 0
  /\ folded (lit "Sleep") = folded (lit "SLEEP").
Proof.
  assert (Hc : is_ascii 65) by (unfold is_ascii; lia).
  assert (Hd : is_ascii 97) by (unfold is_ascii; lia).
  assert (Hs : Forall is_ascii (lit "Sleep")).
  { repeat constructor; unfold is_ascii; simpl; lia. }
  assert (Ht : Forall is_ascii (lit "SLEEP")).
  { repeat constructor; unfold is_ascii; simpl; lia. }
  destruct (folds_agree_up_to_z 65 97 (lit "Sleep") (lit "SLEEP") Hc Hd Hs Ht)
    as (H1 & _ & H3 & _).
  split; [exact Hc|]. split; [exact Hd|].
  split; [apply H1; reflexivity|].
  split; [reflexivity|].
  apply H3. reflexivity.
Defined.

(** C8 as stated fails at ['{'] and ['[']: the hasher folds both to 0x5B,
    the comparators keep them apart, and so do the one-byte strings. *)
Lemma folds_disagree_at_brace :
  is_ascii 0x7B /\ is_ascii 0x5B
  /\ ~ (fold 0x7B = fold 0x5B <-> to_lower 0x7B = to_lower 0x5B)
  /\ ~ (_stricmp [0x7B] [0x5B] = 0 <-> folded [0x7B] = folded [0x5B]).
Proof.
  split; [unfold is_ascii; lia|]. split; [unfold is_ascii; lia|]. split.
  - intros [H _]. specialize (H eq_refl). discriminate H.
  - intros [_ H]. specialize (H eq_refl). discriminate H.
Qed.

End CaseFolding.

(** ** The XOR string layer *)

Section XorStrings.

Import Xorstr.

Lemma key_type_cast_mod (T : CharT) (x : Z) :
  key_type_cast T x = x mod 2 ^ (8 * sizeof T).
Proof. destruct T; reflexivity. Qed.

Lemma key_type_cast_small (T : CharT) (x : Z) :
  in_range T x -> key_type_cast T x = x.
Proof.
  unfold in_range. intros H. rewrite key_type_cast_mod. apply Z.mod_small. exact H.
Qed.

Lemma sizeof_pos (T : CharT) : 0 < 8 * sizeof T.
Proof. destruct T; simpl; lia. Qed.

Lemma in_range_mod (T : CharT) (x : Z) : in_range T (key_type_cast T x).
Proof.
  rewrite key_type_cast_mod. unfold in_range. apply Z.mod_pos_bound.
  apply Z.pow_pos_nonneg; [lia | pose proof (sizeof_pos T); lia].
Qed.

(** XOR-ing twice with the same key gives the unit back. *)
Lemma xor_twice (T : CharT) (k c : Z) :
  in_range T c ->
  key_type_cast T (Z.lxor (key_type_cast T (Z.lxor c k)) k) = c.
Proof.
  intros Hc. rewrite !key_type_cast_mod.
  pose proof (sizeof_pos T) as Hw.
  rewrite <- (Z.mod_small c (2 ^ (8 * sizeof T))) at 2 by exact Hc.
  apply Z.bits_inj'. intros n Hn.
  destruct (Z.lt_ge_cases n (8 * sizeof T)) as [Hlt|Hge].
  - rewrite !Z.mod_pow2_bits_low by lia.
    rewrite Z.lxor_spec, Z.mod_pow2_bits_low by lia.
    rewrite Z.lxor_spec. destruct (Z.testbit c n), (Z.testbit k n); reflexivity.
  - rewrite !Z.mod_pow2_bits_high by lia. reflexivity.
Qed.

(** The derived key has bit 0 set; in particular it is not zero. *)
Lemma SCFW_XOR_KEY_odd (line : Z) (T : CharT) :
  Z.testbit (SCFW_XOR_KEY line T) 0 = true.
Proof.
  unfold SCFW_XOR_KEY. rewrite key_type_cast_mod.
  pose proof (sizeof_pos T).
  rewrite Z.mod_pow2_bits_low by lia.
  destruct T; rewrite Z.lor_spec; apply orb_true_r.
Qed.

Lemma SCFW_XOR_KEY_nonzero (line : Z) (T : CharT) : SCFW_XOR_KEY line T <> 0.
Proof.
  intros E. pose proof (SCFW_XOR_KEY_odd line T) as H. rewrite E in H.
  discriminate H.
Qed.

Lemma xor_odd_differs (T : CharT) (k c : Z) :
  Z.testbit k 0 = true -> key_type_cast T (Z.lxor c k) <> c.
Proof.
  intros Hk E. pose proof (sizeof_pos T).
  assert (B : Z.testbit (key_type_cast T (Z.lxor c k)) 0 = Z.testbit c 0)
    by (rewrite E; reflexivity).
  rewrite key_type_cast_mod, Z.mod_pow2_bits_low, Z.lxor_spec, Hk in B by lia.
  destruct (Z.testbit c 0); discriminate B.
Qed.

(** The loop invariant: with [i] units decoded, the array is the decoded
    prefix followed by the encoded rest. *)
Lemma decode_loop_spec (T : CharT) (k : Z) (orig : list Z) :
  Forall (in_range T) orig ->
  Z.of_nat (length orig) <= 2 ^ (8 * sizeof T) - 1 ->
  forall (m i fuel : nat),
    (i + m = length orig)%nat -> (m + 1 <= fuel)%nat ->
    decode_loop fuel T k (Z.of_nat (length orig) - 1) (Z.of_nat i)
      (take i orig ++ drop i (map (fun c => key_type_cast T (Z.lxor c k)) orig))
    = Some orig.
Proof.
  intros Horig Hlen. set (enc := map _ orig).
  induction m as [|m IH]; intros i fuel Him Hfuel.
  - destruct fuel as [|fuel]; [lia|]. simpl.
    destruct (Z.leb_spec (Z.of_nat i) (Z.of_nat (length orig) - 1)); [lia|].
    rewrite take_ge by lia. rewrite drop_ge by (subst enc; rewrite length_map; lia).
    rewrite app_nil_r. reflexivity.
  - destruct fuel as [|fuel]; [lia|]. simpl.
    destruct (Z.leb_spec (Z.of_nat i) (Z.of_nat (length orig) - 1)); [|lia].
    assert (Hi : (i < length orig)%nat) by lia.
    destruct (lookup_lt_is_Some_2 orig i Hi) as [o Ho].
    assert (He : enc !! i = Some (key_type_cast T (Z.lxor o k))).
    { subst enc. rewrite list_lookup_fmap, Ho. reflexivity. }
    assert (Hro : in_range T o).
    { rewrite Forall_forall in Horig. apply Horig.
      eapply list_elem_of_lookup_2. exact Ho. }
    replace (key_type_cast T (Z.of_nat i + 1)) with (Z.of_nat (S i)).
    2:{ rewrite key_type_cast_small; [lia|]. unfold in_range. lia. }
    replace (xor_unit T k (Z.of_nat i) (take i orig ++ drop i enc))
      with (take (S i) orig ++ drop (S i) enc).
    { apply IH; lia. }
    unfold xor_unit. rewrite Nat2Z.id.
    rewrite (take_S_r orig i o Ho), (drop_S enc _ i He).
    rewrite <- app_assoc. simpl.
    rewrite alter_app_r_alt by (rewrite length_take; lia).
    rewrite length_take. replace (i - i `min` length orig)%nat with O by lia.
    simpl. rewrite xor_twice by exact Hro. reflexivity.
Qed.

Lemma decode_loop_spins (T : CharT) (k : Z) (fuel : nat) :
  forall (i : Z) (str : list Z),
    in_range T i ->
    decode_loop fuel T k (2 ^ (8 * sizeof T) - 1) i str = None.
Proof.
  induction fuel as [|fuel IH]; intros i str Hi; simpl; [reflexivity|].
  unfold in_range in Hi.
  destruct (Z.leb_spec i (2 ^ (8 * sizeof T) - 1)); [|lia].
  apply IH. apply in_range_mod.
Qed.

Lemma length_literal (s : list Z) : length (literal s) = S (length s).
Proof. unfold literal. rewrite length_app. simpl. lia. Qed.

Lemma literal_in_range (T : CharT) (s : list Z) :
  Forall (in_range T) s -> Forall (in_range T) (literal s).
Proof.
  intros H. unfold literal. apply Forall_app_2; [exact H|].
  constructor; [|constructor]. unfold in_range. pose proof (sizeof_pos T).
  split; [lia|]. apply Z.pow_pos_nonneg; lia.
Qed.

Lemma encoded_differs (T : CharT) (k : Z) (l : list Z) :
  Z.testbit k 0 = true ->
  Forall2 (fun e o => e <> o) (map (fun c => key_type_cast T (Z.lxor c k)) l) l.
Proof.
  intros Hk. induction l as [|c l IH]; simpl; constructor; [|exact IH].
  apply xor_odd_differs. exact Hk.
Qed.

(** When the literal has [2 ^ w - 1] units before its terminator the stored
    length is the largest value of the counter's type and the loop
    condition never fails. *)
Lemma decode_xor_spins (T : CharT) (s : list Z) (line ptr : Z) (fuel : nat) :
  Z.of_nat (length s) = 2 ^ (8 * sizeof T) - 1 ->
  decode_xor fuel T ptr (_TX_record T s line) = None.
Proof.
  intros Hlen. unfold decode_xor, _TX_record, make_xor_string. simpl.
  destruct (Z.eqb_spec (SCFW_XOR_KEY line T) 0) as [E|_].
  { exfalso. exact (SCFW_XOR_KEY_nonzero line T E). }
  simpl. rewrite length_literal.
  replace (Z.of_nat (S (length s)) - 1) with (2 ^ (8 * sizeof T) - 1) by lia.
  rewrite key_type_cast_small.
  2:{ unfold in_range. pose proof (sizeof_pos T).
      assert (0 < 2 ^ (8 * sizeof T)) by (apply Z.pow_pos_nonneg; lia). lia. }
  rewrite decode_loop_spins; [reflexivity|].
  unfold in_range. pose proof (sizeof_pos T).
  split; [lia|]. apply Z.pow_pos_nonneg; lia.
Qed.

(** C9, as the code has it. For a literal [s] of at most [2 ^ w - 2] units
    ([w] the width of the key type: 254 narrow units, 65534 wide ones),
    encoded on any source line with the key derived from it: the key is not
    zero; the first [decode_xor] returns the address of the data, leaves
    there the units of [s] with the terminator, and zeroes the key; any
    later call returns the same address and changes nothing; and every
    unit of the encoded data differs from the unit of [s] at its place. *)
Theorem decode_xor_round_trip (T : CharT) (s : list Z) (line ptr : Z) (fuel : nat) :
  Forall (in_range T) s ->
  Z.of_nat (length s) <= 2 ^ (8 * sizeof T) - 2 ->
  (length s + 2 <= fuel)%nat ->
  let r := _TX_record T s line in
  let decoded := {| key := 0; len := len r; data := literal s |} in
  key r <> 0
  /\ decode_xor fuel T ptr r = Some (ptr + 2 * sizeof T, decoded)
  /\ (forall fuel', decode_xor fuel' T ptr decoded = Some (ptr + 2 * sizeof T, decoded))
  /\ Forall2 (fun e o => e <> o) (data r) (literal s).
Proof.
  intros Hs Hlen Hfuel r decoded.
  split; [apply SCFW_XOR_KEY_nonzero|]. split; [|split].
  - unfold decode_xor. subst decoded. subst r.
    unfold _TX_record, make_xor_string. simpl.
    destruct (Z.eqb_spec (SCFW_XOR_KEY line T) 0) as [E|_].
    { exfalso. exact (SCFW_XOR_KEY_nonzero line T E). }
    simpl. rewrite (key_type_cast_small T (Z.of_nat (length (literal s)) - 1)).
    2:{ rewrite length_literal. unfold in_range. lia. }
    pose proof (decode_loop_spec T (SCFW_XOR_KEY line T) (literal s)
                  (literal_in_range T s Hs)) as Hloop.
    rewrite length_literal in Hloop.
    specialize (Hloop ltac:(lia) (S (length s)) O fuel ltac:(lia) ltac:(lia)).
    rewrite length_literal. change (Z.of_nat 0) with 0 in Hloop.
    rewrite take_0, drop_0 in Hloop. simpl app in Hloop.
    rewrite Hloop. reflexivity.
  - intros fuel'. reflexivity.
  - apply encoded_differs. apply SCFW_XOR_KEY_odd.
Qed.

Lemma decode_xor_round_trip_witness :
  let s := lit "Sleep" in
  let r := _TX_record char s 24 in
  Forall (in_range char) s
  /\ decode_xor 7 char 4096 r
     = Some (4098, {| key := 0; len := 5; data := literal s |}).
Proof.
  intros s r.
  assert (Hs : Forall (in_range char) s).
  { repeat constructor; unfold in_range; simpl; lia. }
  split; [exact Hs|].
  exact (proj1 (proj2 (decode_xor_round_trip char s 24 4096 7 Hs
                         ltac:(simpl; lia) ltac:(simpl; lia)))).
Defined.

(** C9 as stated fails. On its last part: the one-letter literal ["a"] on
    source line 13 gets the key 0x61, the letter itself, so the encoded
    record holds [s] as its first byte, and its data holds [s] where the
    terminator was encoded. On its first part: for a literal of 255
    characters the first [decode_xor] does not return. *)
Lemma xor_record_contains_literal :
  SCFW_XOR_KEY 13 char = 0x61
  /\ occurs_in (string_bytes char (lit "a"))
       (record_bytes char (_TX_record char (lit "a") 13))
  /\ occurs_in (string_bytes char (lit "a"))
       (data (_TX_record char (lit "a") 13))
  /\ forall fuel ptr,
       decode_xor fuel char ptr (_TX_record char (replicate 255 0x61) 13) = None.
Proof.
  split; [reflexivity|]. split; [|split].
  - exists [], [1; 0; 97]. reflexivity.
  - exists [0], []. reflexivity.
  - intros fuel ptr. apply decode_xor_spins. reflexivity.
Qed.

End XorStrings.

(** ** The export parser *)

Section ExportParser.

Import Windows.

Variable InLoadOrderModuleList : list LDR_DATA_TABLE_ENTRY.
Variable image_at : Z -> IMAGE.

Lemma scan_exports_miss forwarder lookup module comparator (n : nat) :
  (forall j, 0 <= j < Z.of_nat n ->
     comparator (export_name (image_at module) j) = false) ->
  scan_exports InLoadOrderModuleList image_at forwarder lookup module comparator n = Some 0.
Proof.
  induction n as [|n IH]; intros Hmiss; simpl; [reflexivity|].
  rewrite Hmiss by lia.
  apply IH. intros j Hj. apply Hmiss. lia.
Qed.

Lemma scan_exports_hit forwarder lookup module comparator (n : nat) (i : Z) :
  0 <= i < Z.of_nat n ->
  comparator (export_name (image_at module) i) = true ->
  (forall j, i < j < Z.of_nat n ->
     comparator (export_name (image_at module) j) = false) ->
  scan_exports InLoadOrderModuleList image_at forwarder lookup module comparator n
  = export_at InLoadOrderModuleList image_at forwarder lookup module i.
Proof.
  induction n as [|n IH]; intros Hi Hhit Hlater; [lia|].
  simpl.
  destruct (Z.eq_dec i (Z.of_nat n)) as [->|Hne].
  - rewrite Hhit. reflexivity.
  - rewrite Hlater by lia. apply IH; [lia|exact Hhit|].
    intros j Hj. apply Hlater. lia.
Qed.

Lemma export_at_plain forwarder lookup module (i : Z) :
  forwarded forwarder (image_at module)
    (Functions (image_at module) (Ordinals (image_at module) i)) = false ->
  export_at InLoadOrderModuleList image_at forwarder lookup module i
  = Some (module + Functions (image_at module) (Ordinals (image_at module) i)).
Proof.
  unfold export_at. simpl. intros ->. reflexivity.
Qed.

(** C4. For a module image (a handle that is not null) and a requested
    name or hash: if [i] is the highest index below [NumberOfNames] whose
    name the comparator accepts, and the export at [i] is one the parser
    returns itself, not a forwarder it is built to chase, the lookup returns
    the module base plus [Functions[Ordinals[i]]] (so of two equal names
    the one at the higher index wins); and if no name is accepted, which is
    so in particular for an image without names, it returns null. *)
Theorem lookup_symbol_highest_index (fuel : nat) (forwarder : bool)
    (module : Z) (name : cstr) (hash : Z) :
  module <> 0 ->
  let image := image_at module in
  (forall i,
     0 <= i < NumberOfNames image ->
     forwarded forwarder image (Functions image (Ordinals image i)) = false ->
     by_name name (export_name image i) = true ->
     (forall j, i < j < NumberOfNames image ->
        by_name name (export_name image j) = false) ->
     lookup_symbol InLoadOrderModuleList image_at fuel forwarder module name
     = Some (module + Functions image (Ordinals image i)))
  /\ (forall i,
       0 <= i < NumberOfNames image ->
       forwarded forwarder image (Functions image (Ordinals image i)) = false ->
       by_hash hash (export_name image i) = true ->
       (forall j, i < j < NumberOfNames image ->
          by_hash hash (export_name image j) = false) ->
       lookup_symbol_hash InLoadOrderModuleList image_at fuel forwarder module hash
       = Some (module + Functions image (Ordinals image i)))
  /\ ((forall j, 0 <= j < NumberOfNames image ->
         by_name name (export_name image j) = false) ->
      lookup_symbol InLoadOrderModuleList image_at fuel forwarder module name = Some 0)
  /\ ((forall j, 0 <= j < NumberOfNames image ->
         by_hash hash (export_name image j) = false) ->
      lookup_symbol_hash InLoadOrderModuleList image_at fuel forwarder module hash
      = Some 0).
Proof.
  intros Hmodule image.
  assert (Himpl : forall lookup comparator,
            lookup_symbol_impl InLoadOrderModuleList image_at forwarder lookup
              module comparator
            = scan_exports InLoadOrderModuleList image_at forwarder lookup module
                comparator (Z.to_nat (NumberOfNames image))).
  { intros lookup comparator. unfold lookup_symbol_impl.
    destruct (Z.eqb_spec module 0); [contradiction | reflexivity]. }
  assert (Hrange : forall j, 0 <= j < Z.of_nat (Z.to_nat (NumberOfNames image)) ->
                   0 <= j < NumberOfNames image) by (intros j Hj; lia).
  assert (Hhit : forall lookup comparator i,
            0 <= i < NumberOfNames image ->
            forwarded forwarder image (Functions image (Ordinals image i)) = false ->
            comparator (export_name image i) = true ->
            (forall j, i < j < NumberOfNames image ->
               comparator (export_name image j) = false) ->
            lookup_symbol_impl InLoadOrderModuleList image_at forwarder lookup
              module comparator
            = Some (module + Functions image (Ordinals image i))).
  { intros lookup comparator i Hi Hplain Hacc Hlater. rewrite Himpl.
    rewrite (scan_exports_hit _ _ _ _ _ i);
      [apply export_at_plain; exact Hplain | fold image; lia | exact Hacc |].
    fold image. intros j Hj. apply Hlater. lia. }
  assert (Hmiss : forall lookup comparator,
            (forall j, 0 <= j < NumberOfNames image ->
               comparator (export_name image j) = false) ->
            lookup_symbol_impl InLoadOrderModuleList image_at forwarder lookup
              module comparator
            = Some 0).
  { intros lookup comparator Hnone. rewrite Himpl. apply scan_exports_miss.
    fold image. intros j Hj. apply Hnone, Hrange, Hj. }
  split; [|split; [|split]].
  - intros i Hi Hplain Hacc Hlater. destruct fuel; simpl; apply Hhit; assumption.
  - intros i Hi Hplain Hacc Hlater. unfold lookup_symbol_hash.
    apply Hhit; assumption.
  - intros Hnone. destruct fuel; simpl; apply Hmiss; assumption.
  - intros Hnone. unfold lookup_symbol_hash. apply Hmiss; assumption.
Qed.

End ExportParser.

Lemma lookup_symbol_highest_index_witness :
  let image_at := fun _ : Z => Examples.twice_named in
  0x10000000 <> 0
  /\ Windows.lookup_symbol [] image_at 0 true 0x10000000 (lit "FuncA")
     = Some 0x10002000
  /\ Windows.lookup_symbol_hash [] image_at 0 true 0x10000000
       (Fnv1a.fnv1a_hash (lit "FuncA"))
     = Some 0x10002000
  /\ Windows.lookup_symbol [] image_at 0 true 0x10000000 (lit "FuncC") = Some 0
  /\ Windows.lookup_symbol [] (fun _ : Z => Examples.no_exports) 0 true 0x10000000
       (lit "FuncA") = Some 0.
Proof.
  intros image_at.
  assert (Hm : 0x10000000 <> 0) by lia.
  destruct (lookup_symbol_highest_index [] image_at 0 true 0x10000000
              (lit "FuncA") (Fnv1a.fnv1a_hash (lit "FuncA")) Hm)
    as (Hname & Hhash & _ & _).
  destruct (lookup_symbol_highest_index [] image_at 0 true 0x10000000
              (lit "FuncC") 0 Hm)
    as (_ & _ & Hmiss & _).
  destruct (lookup_symbol_highest_index [] (fun _ : Z => Examples.no_exports)
              0 true 0x10000000 (lit "FuncA") 0 Hm)
    as (_ & _ & Hnone & _).
  split; [exact Hm|]. split; [|split; [|split]].
  - apply (Hname 2); [simpl; lia | reflexivity | reflexivity |].
    simpl. intros j Hj. lia.
  - apply (Hhash 2); [simpl; lia | reflexivity | reflexivity |].
    simpl. intros j Hj. lia.
  - apply Hmiss. simpl. intros j Hj.
    assert (Hc : j = 0 \/ j = 1 \/ j = 2) by lia.
    destruct Hc as [-> | [-> | ->]]; reflexivity.
  - apply Hnone. simpl. intros j Hj. lia.
Defined.

(** ** The forwarder branch *)

(** C5, first part, at a forwarder string the code can meet. The DLL part
    has 37 characters, so the guard [DllNameLen + 5 > sizeof (DllName)]
    lets the string through; [strcpy] then copies all 65 characters and the
    terminator, and the stores at indices 64 and 65 fall outside the
    64-byte array. *)
Lemma forwarder_strcpy_overruns_DllName :
  let ForwardStr := Windows.string_at Examples.forwarding 0x140 in
  let DllNameLen := Z.of_nat (fst (Windows.scan_dot ForwardStr)) in
  let stores :=
    fst (Windows.resolve_forwarder [] (fun _ _ => None) Examples.forwarding 0x140) in
  DllNameLen = 37
  /\ (DllNameLen + 5 >? Windows.sizeof_DllName) = false
  /\ List.filter (fun st => Windows.sizeof_DllName <=? fst st) stores
     = [(64, 120); (65, 0)].
Proof. repeat split. Qed.

(** [strcpy] stores the terminator at the index that is the length of the
    whole source string, wherever the dot was: a forwarder string of 64
    characters or more overruns the array whatever its DLL part. *)
Lemma strcpy_from_terminator (src : cstr) : forall d : Z,
  In (d + Z.of_nat (Crt0.strlen src), 0) (Crt0.strcpy_from d src).
Proof.
  induction src as [|c src IH]; intros d; simpl.
  - left. f_equal. lia.
  - destruct (c =? 0); simpl.
    + left. f_equal. lia.
    + right. specialize (IH (d + 1)).
      replace (d + Z.of_nat (S (Crt0.strlen src)))
        with (d + 1 + Z.of_nat (Crt0.strlen src)) by lia.
      exact IH.
Qed.

Lemma strcpy_stores_terminator (src : cstr) :
  In (Z.of_nat (Crt0.strlen src), 0) (Crt0.strcpy src).
Proof. exact (strcpy_from_terminator src 0). Qed.

(** C5, second part: a forwarder whose function name starts with ['#']
    resolves to null, whatever else the string holds. *)
Lemma ordinal_forwarder_rejected ldr lookup image (FunctionRVA : Z) :
  peek (advance (snd (Windows.scan_dot (Windows.string_at image FunctionRVA))))
  = chr_hash ->
  snd (Windows.resolve_forwarder ldr lookup image FunctionRVA) = Some 0.
Proof.
  unfold Windows.resolve_forwarder.
  destruct (Windows.scan_dot _) as [n Dot]. simpl. intros ->.
  rewrite Z.eqb_refl.
  destruct (peek Dot =? 0); [reflexivity|].
  destruct (_ >? _); reflexivity.
Qed.

(** ** The kernel-mode module enumerator *)

(** C6 at a kernel that reports the needed length and then fails the query
    made with the block allocated for it. The loop ends on the failure
    status, which is not the length mismatch; the helper then scans the
    block, which no query filled, returns the image base it finds in the
    stale contents, and frees the block. *)
Lemma find_module_impl_ignores_failed_query :
  Kernelmode.find_module Examples.failing_late (lit "ksecdd.sys")
  = Some (0x7000,
          [ Kernelmode.EvQuery 0 0 Kernelmode.STATUS_INFO_LENGTH_MISMATCH;
            Kernelmode.EvAlloc 0x128 0x5000;
            Kernelmode.EvQuery 0x5000 0x128 0xC000009A;
            Kernelmode.EvScan 0x5000 false;
            Kernelmode.EvFree 0x5000 ]).
Proof. reflexivity. Qed.

(** When the first query fails outright, or the pool is exhausted, [Buffer]
    is null after the loop and the read of the module array through it is
    a null dereference. *)
Lemma find_module_impl_null_Buffer :
  Kernelmode.find_module Examples.refusing (lit "ksecdd.sys") = None
  /\ Kernelmode.find_module Examples.exhausted (lit "ksecdd.sys") = None.
Proof. split; reflexivity. Qed.

(** ** The dispatch table chain *)

Section ChainProperties.

Import Dispatch InOrder.

Context {W : Type} {P : platform W}.

(** *** Flags *)

Lemma has_pow2 (x k : Z) : 0 <= k -> has x (2 ^ k) = Z.testbit x k.
Proof.
  intros Hk. unfold has.
  assert (E : Z.land x (2 ^ k) = if Z.testbit x k then 2 ^ k else 0).
  { apply Z.bits_inj'. intros n Hn. rewrite Z.land_spec, Z.pow2_bits_eqb by lia.
    destruct (Z.eqb_spec k n) as [->|Hne].
    - destruct (Z.testbit x n) eqn:En; simpl.
      + rewrite Z.pow2_bits_true by lia. reflexivity.
      + rewrite Z.bits_0. reflexivity.
    - rewrite andb_false_r. destruct (Z.testbit x k).
      + rewrite Z.pow2_bits_false by lia. reflexivity.
      + rewrite Z.bits_0. reflexivity. }
  rewrite E. destruct (Z.testbit x k); simpl.
  - assert (0 < 2 ^ k) by (apply Z.pow_pos_nonneg; lia).
    destruct (Z.eqb_spec (2 ^ k) 0); [lia | reflexivity].
  - reflexivity.
Qed.

Lemma has_DYNAMIC_RESOLVE (x : Z) : has x SCFW_FLAG_DYNAMIC_RESOLVE = Z.testbit x 0.
Proof. exact (has_pow2 x 0 ltac:(lia)). Qed.

Lemma has_STRING_SYMBOL (x : Z) : has x SCFW_FLAG_STRING_SYMBOL = Z.testbit x 4.
Proof. exact (has_pow2 x 4 ltac:(lia)). Qed.

Lemma effective_DYNAMIC_RESOLVE (own parent_module : Z) :
  has (effective_flags own parent_module) SCFW_FLAG_DYNAMIC_RESOLVE
  = has own SCFW_FLAG_DYNAMIC_RESOLVE || has parent_module SCFW_FLAG_DYNAMIC_RESOLVE.
Proof.
  rewrite !has_DYNAMIC_RESOLVE. unfold effective_flags.
  rewrite Z.lor_spec, Z.land_spec. change (Z.testbit (Z.lor _ _) 0) with true.
  rewrite andb_true_r. reflexivity.
Qed.

Lemma effective_STRING_SYMBOL (own parent_module : Z) :
  has (effective_flags own parent_module) SCFW_FLAG_STRING_SYMBOL
  = has own SCFW_FLAG_STRING_SYMBOL || has parent_module SCFW_FLAG_STRING_SYMBOL.
Proof.
  rewrite !has_STRING_SYMBOL. unfold effective_flags.
  rewrite Z.lor_spec, Z.land_spec. change (Z.testbit (Z.lor _ _) 4) with true.
  rewrite andb_true_r. reflexivity.
Qed.

Lemma last_module_flags_app (l1 l2 : list entry_decl) (seen : Z) :
  last_module_flags seen (l1 ++ l2) = last_module_flags (last_module_flags seen l1) l2.
Proof.
  revert seen. induction l1 as [|[m f|n f] l1 IH]; intros seen; simpl; auto.
Qed.

Lemma lookup_flags_nearest (c : chain) :
  lookup_flags c module = nearest_module_flags (declarations c).
Proof.
  unfold nearest_module_flags.
  induction c as [|p IH m f|p IH n f]; simpl.
  - reflexivity.
  - rewrite last_module_flags_app. reflexivity.
  - rewrite last_module_flags_app. simpl. exact IH.
Qed.

Lemma resolve_symbol_by_strategy
    (parent : chain) (Name : cstr) (entry_flags : Z) (s : state W) :
  resolve_symbol parent Name entry_flags s
  = resolve_by
      (strategy_of (effective_flags entry_flags (lookup_flags parent module)))
      (current_module parent (slots s)) Name s.
Proof.
  unfold resolve_symbol, bind, get_slots, strategy_of.
  rewrite effective_DYNAMIC_RESOLVE, effective_STRING_SYMBOL.
  destruct (has entry_flags SCFW_FLAG_DYNAMIC_RESOLVE
            || has (lookup_flags parent module) SCFW_FLAG_DYNAMIC_RESOLVE);
    [reflexivity|].
  destruct (has entry_flags SCFW_FLAG_STRING_SYMBOL
            || has (lookup_flags parent module) SCFW_FLAG_STRING_SYMBOL);
    reflexivity.
Qed.

Lemma string_symbol_not_downgraded (entry_flags inherited : Z) :
  has entry_flags SCFW_FLAG_STRING_SYMBOL = true ->
  strategy_of (effective_flags entry_flags inherited) <> export_hash
  /\ (has entry_flags SCFW_FLAG_DYNAMIC_RESOLVE = false -> inherited = 0 ->
      strategy_of (effective_flags entry_flags inherited) = export_strcmp).
Proof.
  intros Hs. unfold strategy_of.
  rewrite effective_DYNAMIC_RESOLVE, effective_STRING_SYMBOL, Hs. simpl. split.
  - destruct (_ || _); discriminate.
  - intros -> ->. reflexivity.
Qed.

(** *** [init] *)

Lemma Id_nonneg (c : chain) : 0 <= Id c.
Proof. induction c; simpl; lia. Qed.

Lemma Id_declarations (c : chain) : Id c = Z.of_nat (length (declarations c)).
Proof.
  induction c as [|p IH ? ?|p IH ? ?]; simpl; [reflexivity| |];
    rewrite length_app, IH; simpl; lia.
Qed.

Lemma slot_insert_same (k v : Z) (sl : list Z) :
  1 <= k <= Z.of_nat (length sl) ->
  slot k (<[Z.to_nat (k - 1) := v]> sl) = v.
Proof.
  intros Hk. unfold slot. rewrite list_lookup_insert_eq by lia. reflexivity.
Qed.

Lemma slot_insert_other (k k' v : Z) (sl : list Z) :
  1 <= k -> 1 <= k' -> k <> k' ->
  slot k (<[Z.to_nat (k' - 1) := v]> sl) = slot k sl.
Proof.
  intros Hk Hk' Hne. unfold slot. rewrite list_lookup_insert_ne by lia. reflexivity.
Qed.

Lemma slot_zeroed (k : Z) (sl : list Z) :
  Forall (fun v => v = 0) sl -> slot k sl = 0.
Proof.
  intros Hz. unfold slot. destruct (sl !! Z.to_nat (k - 1)) as [v|] eqn:E; [|reflexivity].
  simpl. rewrite Forall_forall in Hz. apply Hz.
  eapply list_elem_of_lookup_2. exact E.
Qed.

Lemma slot_resolved (rs rest : list Z) (k : Z) :
  Forall (fun r => r <> 0) rs ->
  1 <= k <= Z.of_nat (length rs) ->
  slot k (rs ++ rest) <> 0.
Proof.
  intros Hrs Hk. unfold slot. rewrite lookup_app_l by lia.
  destruct (lookup_lt_is_Some_2 rs (Z.to_nat (k - 1)) ltac:(lia)) as [r Hr].
  rewrite Hr. simpl. rewrite Forall_forall in Hrs. apply Hrs.
  eapply list_elem_of_lookup_2. exact Hr.
Qed.

Lemma slot_untouched (rs sl : list Z) (k : Z) :
  Z.of_nat (length rs) < k ->
  slot k (rs ++ drop (length rs) sl) = slot k sl.
Proof.
  intros Hk. unfold slot. rewrite lookup_app_r by lia. rewrite lookup_drop.
  do 2 f_equal. lia.
Qed.

(** The first null of a list of values. *)
Lemma first_null_from_zero (rs : list Z) : forall k,
  0 < k -> (first_null_from k rs = 0 <-> Forall (fun r => r <> 0) rs).
Proof.
  induction rs as [|r rs IH]; intros k Hk; simpl.
  - split; [constructor | reflexivity].
  - destruct (Z.eqb_spec r 0) as [->|Hr].
    + split; [lia|]. intros H. inversion H; subst. contradiction.
    + rewrite IH by lia. split.
      * intros H. constructor; assumption.
      * intros H. inversion H; assumption.
Qed.

Lemma first_null_from_snoc (rs : list Z) (r : Z) : forall k,
  Forall (fun v => v <> 0) rs ->
  first_null_from k (rs ++ [r]) = if r =? 0 then k + Z.of_nat (length rs) else 0.
Proof.
  induction rs as [|r0 rs IH]; intros k H; simpl.
  - destruct (r =? 0); [lia | reflexivity].
  - inversion H; subst. destruct (Z.eqb_spec r0 0); [contradiction|].
    rewrite IH by assumption. destruct (r =? 0); lia.
Qed.

Lemma first_null_from_shift (rs : list Z) : forall k k',
  0 < k -> 0 < k' ->
  (first_null_from k rs =? 0) = (first_null_from k' rs =? 0).
Proof.
  induction rs as [|r rs IH]; intros k k' Hk Hk'; simpl; [reflexivity|].
  destruct (r =? 0); [|apply IH; lia].
  destruct (Z.eqb_spec k 0), (Z.eqb_spec k' 0); first [lia | reflexivity].
Qed.

(** The nearest module, along the declarations and along the chain. *)
Lemma last_module_ordinal_app (l1 : list entry_decl) : forall l2 seen next,
  last_module_ordinal seen next (l1 ++ l2)
  = last_module_ordinal (last_module_ordinal seen next l1)
      (next + Z.of_nat (length l1)) l2.
Proof.
  induction l1 as [|[m f|n f] l1 IH]; intros l2 seen next; simpl app;
    cbn [last_module_ordinal length].
  - rewrite Z.add_0_r. reflexivity.
  - rewrite IH. f_equal. lia.
  - rewrite IH. f_equal. lia.
Qed.

Lemma current_module_nearest (c : chain) (sl : list Z) :
  current_module c sl = nearest_module_handle (declarations c) sl.
Proof.
  unfold nearest_module_handle, nearest_module_ordinal.
  induction c as [|p IH m f|p IH n f]; cbn [declarations].
  - reflexivity.
  - rewrite last_module_ordinal_app. cbn [last_module_ordinal current_module Id].
    rewrite (Id_declarations p).
    replace (1 + Z.of_nat (length (declarations p)))
      with (Z.of_nat (length (declarations p)) + 1) by lia.
    destruct (Z.eqb_spec (Z.of_nat (length (declarations p)) + 1) 0); [lia|].
    reflexivity.
  - rewrite last_module_ordinal_app. cbn [last_module_ordinal current_module].
    exact IH.
Qed.

Lemma resolve_entry_symbol (p : chain) (Name : cstr) (Flags : Z) (s : state W) :
  resolve_entry (declarations p) (symbol_decl Name Flags) s
  = resolve_symbol p Name Flags s.
Proof.
  rewrite resolve_symbol_by_strategy, lookup_flags_nearest, current_module_nearest.
  reflexivity.
Qed.

(** A resolution changes the host only. *)
Lemma service_frame {A} (op : dispatch_table_storage -> W -> option (A * W))
    (s : state W) (a : A) (s' : state W) :
  service op s = Some (a, s') ->
  storage s' = storage s /\ slots s' = slots s /\ calls s' = calls s.
Proof.
  unfold service. destruct (op (storage s) (world s)) as [[a' w]|]; [|discriminate].
  intros H. injection H as _ <-. repeat split.
Qed.

Lemma resolve_entry_frame (preceding : list entry_decl) (d : entry_decl)
    (s : state W) (r : Z) (s' : state W) :
  resolve_entry preceding d s = Some (r, s') ->
  storage s' = storage s /\ slots s' = slots s /\ calls s' = calls s.
Proof.
  destruct d as [Module Flags | Name Flags]; simpl.
  - unfold resolve_module.
    destruct (has Flags SCFW_FLAG_DYNAMIC_LOAD);
      [|destruct (has Flags SCFW_FLAG_STRING_MODULE)]; apply service_frame.
  - unfold bind, get_slots.
    destruct (strategy_of _); apply service_frame.
Qed.

(** One step of the run along the declarations. *)
Lemma import_in_order_cons (preceding : list entry_decl) (d : entry_decl)
    (rest : list entry_decl) (s : state W) :
  import_in_order preceding (d :: rest) s
  = match resolve_entry preceding d s with
    | None => None
    | Some (r, s1) =>
        let s2 := {| storage := storage s1;
                     slots := <[length preceding := r]> (slots s1);
                     world := world s1; calls := calls s1 |} in
        if r =? 0 then Some ([r], s2)
        else match import_in_order (preceding ++ [d]) rest s2 with
             | None => None
             | Some (rs, s3) => Some (r :: rs, s3)
             end
    end.
Proof.
  cbn [import_in_order]. unfold bind, set_slot, ret.
  replace (Z.to_nat (Z.of_nat (length preceding) + 1 - 1))
    with (length preceding) by lia.
  destruct (resolve_entry preceding d s) as [[r s1]|]; [|reflexivity].
  destruct (r =? 0); reflexivity.
Qed.

(** The run along the declarations: what it stores and where it stops. *)
Lemma import_in_order_spec (rest : list entry_decl) :
  forall (preceding : list entry_decl) (s : state W) (rs : list Z) (s' : state W),
    import_in_order preceding rest s = Some (rs, s') ->
    storage s' = storage s /\ calls s' = calls s
    /\ (length rs <= length rest)%nat
    /\ ((length preceding + length rest <= length (slots s))%nat ->
        slots s'
        = take (length preceding) (slots s) ++ rs
          ++ drop (length preceding + length rs) (slots s))
    /\ ((Forall (fun r => r <> 0) rs /\ length rs = length rest)
        \/ exists resolved,
             rs = resolved ++ [0] /\ Forall (fun r => r <> 0) resolved).
Proof.
  induction rest as [|d rest IH]; intros preceding s rs s'.
  - simpl. unfold ret. intros H. injection H as <- <-.
    split; [reflexivity|]. split; [reflexivity|]. split; [simpl; lia|]. split.
    + intros _. simpl. rewrite Nat.add_0_r. symmetry. apply take_drop.
    + left. split; [constructor | reflexivity].
  - rewrite import_in_order_cons.
    destruct (resolve_entry preceding d s) as [[r s1]|] eqn:Er; [|discriminate].
    destruct (resolve_entry_frame _ _ _ _ _ Er) as (Hst & Hsl & Hca).
    cbv zeta.
    destruct (Z.eqb_spec r 0) as [->|Hr].
    + intros H. injection H as <- <-. simpl.
      split; [exact Hst|]. split; [exact Hca|]. split; [lia|]. split.
      * intros Hfit. rewrite Hsl.
        rewrite insert_take_drop by lia. do 2 f_equal. f_equal. lia.
      * right. exists []. split; [reflexivity | constructor].
    + match goal with |- context [import_in_order _ rest ?st] => set (s2 := st) end.
      destruct (import_in_order (preceding ++ [d]) rest s2) as [[rs' s3]|] eqn:Ei;
        [|discriminate].
      intros H. injection H as <- <-.
      destruct (IH _ _ _ _ Ei) as (Hst' & Hca' & Hle & Hslots & Hres).
      subst s2. simpl in Hst', Hca', Hslots.
      split; [congruence|]. split; [congruence|]. split; [simpl; lia|]. split.
      * intros Hfit. simpl in Hfit. rewrite Hsl in Hslots. rewrite Hslots.
        2:{ rewrite length_app, length_insert. simpl. lia. }
        rewrite length_app. simpl length.
        replace (length preceding + 1)%nat with (S (length preceding)) by lia.
        rewrite (take_S_r _ (length preceding) r)
          by (apply list_lookup_insert_eq; lia).
        rewrite take_insert_ge by lia. rewrite drop_insert_lt by lia.
        rewrite <- app_assoc. simpl.
        replace (length preceding + S (length rs'))%nat
          with (S (length preceding) + length rs')%nat by lia.
        reflexivity.
      * destruct Hres as [[Hall Hlen] | (resolved & -> & Hall)].
        -- left. split; [constructor; assumption | simpl; congruence].
        -- right. exists (r :: resolved). split; [reflexivity|].
           constructor; assumption.
Qed.

Lemma import_in_order_snoc (l : list entry_decl) (d : entry_decl) :
  forall (preceding : list entry_decl) (s : state W),
    import_in_order preceding (l ++ [d]) s
    = match import_in_order preceding l s with
      | None => None
      | Some (rs, s1) =>
          if first_null rs =? 0
          then bind (resolve_entry (preceding ++ l) d) (fun r =>
               bind (set_slot (Z.of_nat (length (preceding ++ l)) + 1) r) (fun _ =>
               ret (rs ++ [r]))) s1
          else Some (rs, s1)
      end.
Proof.
  induction l as [|d0 l IH]; intros preceding s.
  - simpl app. cbn [import_in_order]. rewrite app_nil_r.
    unfold bind, ret, set_slot. change (first_null [] =? 0) with true. cbv iota.
    destruct (resolve_entry preceding d s) as [[r s1]|]; [|reflexivity].
    destruct (r =? 0); reflexivity.
  - simpl app. rewrite !import_in_order_cons.
    destruct (resolve_entry preceding d0 s) as [[r s1]|]; [|reflexivity].
    cbv zeta. destruct (Z.eqb_spec r 0) as [->|Hr]; [reflexivity|].
    rewrite IH.
    destruct (import_in_order (preceding ++ [d0]) l _) as [[rs s3]|];
      [|reflexivity].
    assert (Hfn : (first_null (r :: rs) =? 0) = (first_null rs =? 0)).
    { unfold first_null. simpl. destruct (Z.eqb_spec r 0); [contradiction|].
      apply first_null_from_shift; lia. }
    rewrite Hfn. rewrite <- (app_assoc preceding [d0] l). simpl app.
    destruct (first_null rs =? 0); [|reflexivity].
    unfold bind, set_slot, ret.
    destruct (resolve_entry (preceding ++ d0 :: l) d s3) as [[r' s4]|]; reflexivity.
Qed.

Lemma init_in_order_unfold (decls : list entry_decl) (a1 a2 : Z) (s : state W) :
  init_in_order decls a1 a2 s
  = match init Base a1 a2 s with
    | None => None
    | Some (err, s0) =>
        if negb (err =? 0) then Some (err, s0)
        else match import_in_order [] decls s0 with
             | None => None
             | Some (rs, s') => Some (first_null rs, s')
             end
    end.
Proof.
  unfold init_in_order, bind.
  destruct (init Base a1 a2 s) as [[err s0]|]; [|reflexivity].
  destruct (negb (err =? 0)); reflexivity.
Qed.

(** [init] of the chain is the run along its declarations. *)
Lemma init_in_declaration_order (c : chain) (a1 a2 : Z) :
  forall s : state W, init c a1 a2 s = init_in_order (declarations c) a1 a2 s.
Proof.
  assert (Hlast : forall (p : chain) (rs : list Z) (s0 s1 : state W) (r : Z),
            import_in_order [] (declarations p) s0 = Some (rs, s1) ->
            first_null rs = 0 ->
            first_null (rs ++ [r]) = if r =? 0 then Id p + 1 else 0).
  { intros p rs s0 s1 r Hrun H0.
    apply first_null_from_zero in H0; [|lia].
    destruct (import_in_order_spec _ _ _ _ _ Hrun)
      as (_ & _ & _ & _ & [[_ Hlen] | (resolved & -> & _)]).
    - unfold first_null. rewrite first_null_from_snoc by exact H0.
      rewrite Hlen, Id_declarations. destruct (r =? 0); lia.
    - apply Forall_app in H0 as [_ H0]. inversion H0; subst. contradiction. }
  induction c as [|p IH Module Flags|p IH Name Flags]; intros s.
  - rewrite init_in_order_unfold. cbn [declarations import_in_order].
    destruct (init Base a1 a2 s) as [[err s0]|]; [|reflexivity].
    destruct (Z.eqb_spec err 0) as [->|]; reflexivity.
  - cbn [init declarations]. unfold bind at 1. rewrite IH.
    rewrite !init_in_order_unfold.
    destruct (init Base a1 a2 s) as [[err s0]|]; [|reflexivity].
    destruct (Z.eqb_spec err 0) as [->|Herr]; cbn [negb]; cbv beta iota.
    2:{ destruct (Z.eqb_spec err 0); [contradiction | reflexivity]. }
    rewrite import_in_order_snoc.
    destruct (import_in_order [] (declarations p) s0) as [[rs s1]|] eqn:Erun;
      [|reflexivity].
    cbv beta iota.
    destruct (Z.eqb_spec (first_null rs) 0) as [H0|_]; [|reflexivity].
    cbn [negb]. cbv beta iota. simpl app. cbn [resolve_entry].
    unfold bind. destruct (resolve_module Module Flags s1) as [[r s2]|];
      [|reflexivity].
    unfold set_slot, ret. rewrite (Hlast p rs s0 s1 r Erun H0).
    cbn [Id]. rewrite <- (Id_declarations p).
    destruct (r =? 0); reflexivity.
  - cbn [init declarations]. unfold bind at 1. rewrite IH.
    rewrite !init_in_order_unfold.
    destruct (init Base a1 a2 s) as [[err s0]|]; [|reflexivity].
    destruct (Z.eqb_spec err 0) as [->|Herr]; cbn [negb]; cbv beta iota.
    2:{ destruct (Z.eqb_spec err 0); [contradiction | reflexivity]. }
    rewrite import_in_order_snoc.
    destruct (import_in_order [] (declarations p) s0) as [[rs s1]|] eqn:Erun;
      [|reflexivity].
    cbv beta iota.
    destruct (Z.eqb_spec (first_null rs) 0) as [H0|_]; [|reflexivity].
    cbn [negb]. cbv beta iota. simpl app.
    unfold bind at 1 3. rewrite resolve_entry_symbol.
    destruct (resolve_symbol p Name Flags s1) as [[r s2]|]; [|reflexivity].
    unfold bind, set_slot, ret. rewrite (Hlast p rs s0 s1 r Erun H0).
    cbn [Id]. rewrite <- (Id_declarations p).
    destruct (r =? 0); reflexivity.
Qed.

(** C1. [init] of a chain is the run along its declarations, first to last:
    after the base level each entry is resolved in turn and the value
    stored in its slot, the run stops at the first entry whose resolution
    gives null, and the result is the ordinal of that entry, or 0 when
    every entry resolved. After the run the slots hold the values resolved,
    followed by the slots the run did not reach, unchanged: the values
    before a null are not null, and the run resolved every entry exactly
    when it met no null. So for a zero-initialized table and a base level
    that reports no error, either [init] returns 0 and every import slot
    is non-null, or it returns the ordinal of the first entry whose
    resolution gave null, the slots before it are non-null, and its own
    slot and the slots after it are null. *)
Theorem init_stops_at_first_failure (c : chain) (a1 a2 : Z) (s : state W) :
  init c a1 a2 s = init_in_order (declarations c) a1 a2 s
  /\ (forall (s0 : state W) (rs : list Z) (s' : state W),
        Id c <= Z.of_nat (length (slots s)) ->
        slots s0 = slots s ->
        import_in_order [] (declarations c) s0 = Some (rs, s') ->
        slots s' = rs ++ drop (length rs) (slots s)
        /\ storage s' = storage s0
        /\ ((first_null rs = 0 /\ Forall (fun r => r <> 0) rs
             /\ Z.of_nat (length rs) = Id c)
            \/ (exists resolved,
                  rs = resolved ++ [0] /\ Forall (fun r => r <> 0) resolved
                  /\ first_null rs = Z.of_nat (length rs)
                  /\ Z.of_nat (length rs) <= Id c)))
  /\ (Id c <= Z.of_nat (length (slots s)) ->
      base_never_fails ->
      Forall (fun v => v = 0) (slots s) ->
      forall err s',
        init c a1 a2 s = Some (err, s') ->
        (err = 0 /\ forall k, 1 <= k <= Id c -> slot k (slots s') <> 0)
        \/ (1 <= err <= Id c
            /\ (forall k, 1 <= k < err -> slot k (slots s') <> 0)
            /\ (forall k, err <= k -> slot k (slots s') = 0))).
Proof.
  assert (Hrun : forall (s0 : state W) (rs : list Z) (s' : state W),
            Id c <= Z.of_nat (length (slots s)) ->
            slots s0 = slots s ->
            import_in_order [] (declarations c) s0 = Some (rs, s') ->
            slots s' = rs ++ drop (length rs) (slots s)
            /\ storage s' = storage s0
            /\ ((first_null rs = 0 /\ Forall (fun r => r <> 0) rs
                 /\ Z.of_nat (length rs) = Id c)
                \/ (exists resolved,
                      rs = resolved ++ [0] /\ Forall (fun r => r <> 0) resolved
                      /\ first_null rs = Z.of_nat (length rs)
                      /\ Z.of_nat (length rs) <= Id c))).
  { intros s0 rs s' Hfit Hs0 Hi.
    pose proof (import_in_order_spec _ _ _ _ _ Hi) as (Hst & _ & Hle & Hslots & Hres).
    rewrite Hs0 in Hslots. rewrite Id_declarations in Hfit.
    split; [|split; [exact Hst|]].
    - rewrite Hslots by (simpl; lia). reflexivity.
    - destruct Hres as [[Hall Hlen] | (resolved & -> & Hall)].
      + left. split; [apply first_null_from_zero; [lia | exact Hall]|].
        split; [exact Hall|]. rewrite Hlen, Id_declarations. reflexivity.
      + right. exists resolved. split; [reflexivity|]. split; [exact Hall|].
        split; [|rewrite Id_declarations; lia].
        unfold first_null. rewrite first_null_from_snoc by exact Hall.
        rewrite length_app. simpl. lia. }
  split; [apply init_in_declaration_order|]. split; [exact Hrun|].
  intros Hfit Hbase Hzero err s' Hinit.
  rewrite init_in_declaration_order, init_in_order_unfold in Hinit.
  cbn [init] in Hinit.
  destruct (base_init a1 a2 (storage s) (world s)) as [[[e st] w]|] eqn:Eb;
    [|discriminate].
  rewrite (Hbase _ _ _ _ _ _ _ Eb) in Hinit. cbn [negb] in Hinit. cbv beta iota in Hinit.
  match type of Hinit with context [import_in_order _ _ ?st] => set (s0 := st) in * end.
  destruct (import_in_order [] (declarations c) s0) as [[rs s1]|] eqn:Ei;
    [|discriminate].
  injection Hinit as <- <-.
  destruct (Hrun s0 rs s1 Hfit eq_refl Ei)
    as (Hslots & _ & [(H0 & Hall & Hlen) | (resolved & -> & Hall & Hfn & Hle)]).
  - left. split; [exact H0|]. intros k Hk. rewrite Hslots.
    apply slot_resolved; [exact Hall | lia].
  - right. rewrite Hfn. rewrite length_app in *. simpl length in *.
    split; [lia|]. split.
    + intros k Hk. rewrite Hslots, <- app_assoc.
      apply slot_resolved; [exact Hall | lia].
    + intros k Hk. rewrite Hslots.
      destruct (Z.eq_dec k (Z.of_nat (length resolved + 1))) as [->|Hne].
      * unfold slot. rewrite lookup_app_l by (rewrite length_app; simpl; lia).
        rewrite lookup_app_r by lia.
        replace (Z.to_nat (Z.of_nat (length resolved + 1) - 1) - length resolved)%nat
          with O by lia.
        reflexivity.
      * replace (length resolved + 1)%nat with (length (resolved ++ [0]))
          by (rewrite length_app; simpl; lia).
        rewrite slot_untouched by (rewrite length_app; simpl; lia).
        apply slot_zeroed. exact Hzero.
Qed.

(** *** [_entry] *)




Lemma init_err_range (c : chain) (a1 a2 : Z) :
  base_never_fails ->
  forall (s : state W) err s',
    init c a1 a2 s = Some (err, s') -> 0 <= err <= Id c.
Proof.
  intros Hbase.
  induction c as [|p IH Module Flags|p IH Name Flags]; intros s err s'; cbn [init].
  - destruct (base_init a1 a2 (storage s) (world s)) as [[[e st] w]|] eqn:E;
      [|discriminate].
    intros H. injection H as <- _. rewrite (Hbase _ _ _ _ _ _ _ E). simpl. lia.
  - unfold bind at 1.
    destruct (init p a1 a2 s) as [[e s1]|] eqn:E; [|discriminate].
    specialize (IH _ _ _ E). pose proof (Id_nonneg p) as Hid.
    destruct (e =? 0) eqn:Ee; simpl.
    + unfold bind at 1.
      destruct (resolve_module Module Flags s1) as [[h s2]|]; [|discriminate].
      unfold bind, set_slot, ret.
      destruct (h =? 0); intros H; injection H as <- _; simpl; lia.
    + unfold ret. intros H. injection H as <- _. simpl. lia.
  - unfold bind at 1.
    destruct (init p a1 a2 s) as [[e s1]|] eqn:E; [|discriminate].
    specialize (IH _ _ _ E). pose proof (Id_nonneg p) as Hid.
    destruct (e =? 0) eqn:Ee; simpl.
    + unfold bind at 1.
      destruct (resolve_symbol p Name Flags s1) as [[h s2]|]; [|discriminate].
      unfold bind, set_slot, ret.
      intros H; injection H as <- _. destruct (h =? 0); simpl; lia.
    + unfold ret. intros H. injection H as <- _. simpl. lia.
Qed.

End ChainProperties.

(** ** The two back ends *)

Section BackEnds.

Import Dispatch.

Context {W : Type} {Mem : memory W}.
Context {Api : UserMode.api (W := W)} {Enum : KernelMode.enumeration (W := W)}.

Variable F : features.
Variable L : layout.
Variable fuel : nat.

Lemma scan_exports_returns ldr image lookup module comparator (n : nat) :
  is_Some (Windows.scan_exports ldr image false lookup module comparator n).
Proof.
  induction n as [|n IH]; simpl; [eexists; reflexivity|].
  destruct (comparator _); [|exact IH].
  unfold Windows.export_at, Windows.forwarded. simpl. eexists; reflexivity.
Qed.

Lemma lookup_symbol_impl_returns ldr image lookup module comparator :
  module <> 0 ->
  is_Some (Windows.lookup_symbol_impl ldr image false lookup module comparator).
Proof.
  intros Hm. unfold Windows.lookup_symbol_impl.
  destruct (Z.eqb_spec module 0); [contradiction|]. apply scan_exports_returns.
Qed.

Lemma lookup_symbol_returns ldr image (n : nat) module name :
  module <> 0 ->
  is_Some (Windows.lookup_symbol ldr image n false module name).
Proof. intros Hm. destruct n; apply lookup_symbol_impl_returns; exact Hm. Qed.

Lemma lookup_symbol_hash_returns ldr image (n : nat) module hash :
  module <> 0 ->
  is_Some (Windows.lookup_symbol_hash ldr image n false module hash).
Proof. intros Hm. apply lookup_symbol_impl_returns. exact Hm. Qed.

(** A null module handle is dereferenced. *)
Lemma lookup_symbol_null ldr image (n : nat) forwarder name :
  Windows.lookup_symbol ldr image n forwarder 0 name = None.
Proof. destruct n; reflexivity. Qed.

Lemma lookup_symbol_hash_null ldr image (n : nat) forwarder hash :
  Windows.lookup_symbol_hash ldr image n forwarder 0 hash = None.
Proof. reflexivity. Qed.

Lemma and_then_Some {A B} (o : option A) (k : A -> option B) (b : B) :
  and_then o k = Some b -> exists a, o = Some a /\ k a = Some b.
Proof. destruct o as [a|]; simpl; [eauto | discriminate]. Qed.

Lemma user_mode_init_spec a1 a2 st (w : W) err st' w' :
  UserMode.init F L fuel a1 a2 st w = Some (err, st', w') ->
  err = 0 /\ w' = w
  /\ let kernel32 := UserMode.init_module F "kernel32.dll" w in
     UserMode.header_field F fuel (SCFW_ENABLE_CLEANUP F) kernel32
       "VirtualFree" w (free_ st) = Some (free_ st')
     /\ UserMode.header_field F fuel (SCFW_ENABLE_LOOKUP_SYMBOL F) kernel32
          "GetProcAddress" w (lookup_symbol_ st) = Some (lookup_symbol_ st')
     /\ UserMode.header_field F fuel (SCFW_ENABLE_LOAD_MODULE F) kernel32
          "LoadLibraryA" w (load_module_ st) = Some (load_module_ st')
     /\ UserMode.header_field F fuel (SCFW_ENABLE_UNLOAD_MODULE F) kernel32
          "FreeLibrary" w (unload_module_ st) = Some (unload_module_ st').
Proof.
  unfold UserMode.init. intros H.
  apply and_then_Some in H as (v1 & E1 & H).
  apply and_then_Some in H as (v2 & E2 & H).
  apply and_then_Some in H as (v3 & E3 & H).
  apply and_then_Some in H as (v4 & E4 & H).
  injection H as <- <- <-. simpl. repeat split; assumption.
Qed.

Lemma kernel_mode_init_spec a1 a2 st (w : W) err st' w' :
  KernelMode.init F L fuel a1 a2 st w = Some (err, st', w') ->
  err = 0 /\ w' = w /\ mode_ st' = a1
  /\ (if SCFW_ENABLE_CLEANUP F
      then KernelMode.init_symbol F fuel a1 "ExFreePool" w
      else Some (free_ st)) = Some (free_ st').
Proof.
  unfold KernelMode.init. intros H.
  apply and_then_Some in H as (v1 & E1 & H).
  injection H as <- <- <-. simpl. repeat split; assumption.
Qed.

Lemma user_mode_never_fails :
  base_never_fails (P := UserMode.user_mode F L fuel).
Proof.
  intros a1 a2 st w err st' w' H. simpl in H.
  apply user_mode_init_spec in H. tauto.
Qed.

Lemma kernel_mode_never_fails :
  base_never_fails (P := KernelMode.kernel_mode F L fuel).
Proof.
  intros a1 a2 st w err st' w' H. simpl in H.
  apply kernel_mode_init_spec in H. tauto.
Qed.

Lemma init_symbol_returns (m : Z) (x : string) (w : W) :
  SCFW_ENABLE_FIND_MODULE_FORWARDER F = false ->
  m <> 0 ->
  is_Some (UserMode.init_symbol F fuel m x w)
  /\ is_Some (KernelMode.init_symbol F fuel m x w).
Proof.
  intros Hf Hm.
  unfold UserMode.init_symbol, KernelMode.init_symbol,
    UserMode.mode_lookup_symbol, UserMode.mode_lookup_symbol_hash,
    KernelMode.mode_lookup_symbol, KernelMode.mode_lookup_symbol_hash.
  rewrite Hf.
  destruct (SCFW_ENABLE_INIT_SYMBOLS_BY_STRING F); split;
    auto using lookup_symbol_returns, lookup_symbol_hash_returns.
Qed.

Lemma init_symbol_null (x : string) (w : W) :
  UserMode.init_symbol F fuel 0 x w = None
  /\ KernelMode.init_symbol F fuel 0 x w = None.
Proof.
  unfold UserMode.init_symbol, KernelMode.init_symbol,
    UserMode.mode_lookup_symbol, UserMode.mode_lookup_symbol_hash,
    KernelMode.mode_lookup_symbol, KernelMode.mode_lookup_symbol_hash.
  destruct (SCFW_ENABLE_INIT_SYMBOLS_BY_STRING F); split;
    first [apply lookup_symbol_null | apply lookup_symbol_hash_null].
Qed.

Lemma header_field_returns (enabled : bool) (m : Z) (x : string) (w : W) (old : Z) :
  SCFW_ENABLE_FIND_MODULE_FORWARDER F = false ->
  m <> 0 ->
  is_Some (UserMode.header_field F fuel enabled m x w old).
Proof.
  intros Hf Hm. unfold UserMode.header_field.
  destruct enabled; [|eexists; reflexivity].
  apply init_symbol_returns; assumption.
Qed.

(** C3. The flags a symbol inherits are those of the nearest module
    declared before it. On every platform its [init] resolves it the way
    its effective flags (own flags OR-ed with the inherited
    [DYNAMIC_RESOLVE] and [STRING_SYMBOL] bits) select; in user mode that
    is: a call through the header pointer [lookup_symbol_] with the literal
    name, else the export parse comparing names with [strcmp], else the
    export parse comparing the hash of the name. A symbol that declares
    [STRING_SYMBOL] is never resolved by hash, and under a flagless module
    it is resolved by [strcmp] unless it asks for dynamic resolution
    itself. *)
Theorem symbol_strategy_of_effective_flags
    (parent : chain) (Name : cstr) (entry_flags : Z) (s : state W) :
  let inherited := nearest_module_flags (declarations parent) in
  let how := strategy_of (effective_flags entry_flags inherited) in
  let module_ := current_module parent (slots s) in
  lookup_flags parent module = inherited
  /\ (forall P : platform W,
        resolve_symbol (P := P) parent Name entry_flags s
        = resolve_by (P := P) how module_ Name s)
  /\ resolve_symbol (P := UserMode.user_mode F L fuel) parent Name entry_flags s
     = match how with
       | through_header =>
           service (fun st w =>
             UserMode.call_lookup_symbol_fn (lookup_symbol_ st) module_ Name w) s
       | export_strcmp =>
           service (fun _ w =>
             and_then
               (Windows.lookup_symbol (InLoadOrderModuleList w) (image_at w) fuel
                  (SCFW_ENABLE_FIND_MODULE_FORWARDER F) module_ Name)
               (fun r => Some (r, w))) s
       | export_hash =>
           service (fun _ w =>
             and_then
               (Windows.lookup_symbol_hash (InLoadOrderModuleList w) (image_at w) fuel
                  (SCFW_ENABLE_FIND_MODULE_FORWARDER F) module_
                  (Fnv1a.fnv1a_hash Name))
               (fun r => Some (r, w))) s
       end
  /\ (has entry_flags SCFW_FLAG_STRING_SYMBOL = true -> how <> export_hash)
  /\ (has entry_flags SCFW_FLAG_STRING_SYMBOL = true ->
      has entry_flags SCFW_FLAG_DYNAMIC_RESOLVE = false ->
      inherited = 0 -> how = export_strcmp).
Proof.
  intros inherited how module_.
  assert (Hin : lookup_flags parent module = inherited)
    by apply lookup_flags_nearest.
  split; [exact Hin|]. split; [|split; [|split]].
  - intros P. rewrite resolve_symbol_by_strategy, Hin. reflexivity.
  - rewrite resolve_symbol_by_strategy, Hin. fold how. fold module_.
    destruct how; reflexivity.
  - intros Hs. apply (string_symbol_not_downgraded entry_flags inherited Hs).
  - intros Hs Hd H0.
    apply (string_symbol_not_downgraded entry_flags inherited Hs); assumption.
Qed.

(** C10, as the code has it. Whenever the base-level [init] of either back
    end returns, it returns 0, with the host as it was and each enabled
    header field holding what its lookup gave, null included: no lookup
    result is tested. With kernel32 located (in kernel mode: with a kernel
    base that is not null) and without forwarder chasing, it does return.
    A non-zero result of a chain's [init] is therefore the ordinal of one
    of its import entries. *)
Theorem base_init_reports_no_failure (a1 a2 : Z) (st : dispatch_table_storage) (w : W) :
  (forall err st' w',
     UserMode.init F L fuel a1 a2 st w = Some (err, st', w') ->
     err = 0 /\ w' = w
     /\ let kernel32 := UserMode.init_module F "kernel32.dll" w in
        UserMode.header_field F fuel (SCFW_ENABLE_CLEANUP F) kernel32
          "VirtualFree" w (free_ st) = Some (free_ st')
        /\ UserMode.header_field F fuel (SCFW_ENABLE_LOOKUP_SYMBOL F) kernel32
             "GetProcAddress" w (lookup_symbol_ st) = Some (lookup_symbol_ st')
        /\ UserMode.header_field F fuel (SCFW_ENABLE_LOAD_MODULE F) kernel32
             "LoadLibraryA" w (load_module_ st) = Some (load_module_ st')
        /\ UserMode.header_field F fuel (SCFW_ENABLE_UNLOAD_MODULE F) kernel32
             "FreeLibrary" w (unload_module_ st) = Some (unload_module_ st'))
  /\ (forall err st' w',
        KernelMode.init F L fuel a1 a2 st w = Some (err, st', w') ->
        err = 0 /\ w' = w /\ mode_ st' = a1
        /\ (if SCFW_ENABLE_CLEANUP F
            then KernelMode.init_symbol F fuel a1 "ExFreePool" w
            else Some (free_ st)) = Some (free_ st'))
  /\ (SCFW_ENABLE_FIND_MODULE_FORWARDER F = false ->
      (UserMode.init_module F "kernel32.dll" w <> 0 ->
       is_Some (UserMode.init F L fuel a1 a2 st w))
      /\ (a1 <> 0 -> is_Some (KernelMode.init F L fuel a1 a2 st w)))
  /\ (forall c s err s',
        init (P := UserMode.user_mode F L fuel) c a1 a2 s = Some (err, s') ->
        0 <= err <= Id c)
  /\ (forall c s err s',
        init (P := KernelMode.kernel_mode F L fuel) c a1 a2 s = Some (err, s') ->
        0 <= err <= Id c).
Proof.
  split; [intros err st' w'; apply user_mode_init_spec|].
  split; [intros err st' w'; apply kernel_mode_init_spec|].
  split; [|split].
  - intros Hf. split.
    + intros Hk. unfold UserMode.init.
      destruct (header_field_returns (SCFW_ENABLE_CLEANUP F)
                  (UserMode.init_module F "kernel32.dll" w) "VirtualFree" w
                  (free_ st) Hf Hk) as [v1 ->].
      destruct (header_field_returns (SCFW_ENABLE_LOOKUP_SYMBOL F)
                  (UserMode.init_module F "kernel32.dll" w) "GetProcAddress" w
                  (lookup_symbol_ st) Hf Hk) as [v2 ->].
      destruct (header_field_returns (SCFW_ENABLE_LOAD_MODULE F)
                  (UserMode.init_module F "kernel32.dll" w) "LoadLibraryA" w
                  (load_module_ st) Hf Hk) as [v3 ->].
      destruct (header_field_returns (SCFW_ENABLE_UNLOAD_MODULE F)
                  (UserMode.init_module F "kernel32.dll" w) "FreeLibrary" w
                  (unload_module_ st) Hf Hk) as [v4 ->].
      simpl. eexists; reflexivity.
    + intros Hk. unfold KernelMode.init.
      destruct (SCFW_ENABLE_CLEANUP F).
      * destruct (proj2 (init_symbol_returns a1 "ExFreePool" w Hf Hk)) as [v ->].
        simpl. eexists; reflexivity.
      * simpl. eexists; reflexivity.
  - intros c s err s'. apply init_err_range. apply user_mode_never_fails.
  - intros c s err s'. apply init_err_range. apply kernel_mode_never_fails.
Qed.

(** When kernel32 is not located, or the kernel base is null, and a header
    function is to be resolved, the null handle goes to [lookup_symbol]
    unchecked and is dereferenced there. *)
Lemma base_init_null_handle (a1 a2 : Z) (st : dispatch_table_storage) (w : W) :
  (UserMode.init_module F "kernel32.dll" w = 0 ->
   SCFW_ENABLE_CLEANUP F = true ->
   UserMode.init F L fuel a1 a2 st w = None)
  /\ (SCFW_ENABLE_CLEANUP F = true ->
      KernelMode.init F L fuel 0 a2 st w = None).
Proof.
  split.
  - intros Hk Hc. unfold UserMode.init, UserMode.header_field at 1.
    rewrite Hk, Hc. rewrite (proj1 (init_symbol_null "VirtualFree" w)). reflexivity.
  - intros Hc. unfold KernelMode.init. rewrite Hc.
    rewrite (proj2 (init_symbol_null "ExFreePool" w)). reflexivity.
Qed.

Lemma user_mode_lookups_return :
  SCFW_ENABLE_FIND_MODULE_FORWARDER F = false ->
  (forall m name w,
     m <> 0 ->
     is_Some (mode_lookup_symbol (platform := UserMode.user_mode F L fuel) m name w))
  /\ (forall m hash w,
        m <> 0 ->
        is_Some (mode_lookup_symbol_hash (platform := UserMode.user_mode F L fuel)
                   m hash w)).
Proof.
  intros Hf. split; intros m x w Hm; simpl.
  - unfold UserMode.mode_lookup_symbol. rewrite Hf.
    destruct (lookup_symbol_returns (InLoadOrderModuleList w) (image_at w) fuel m x Hm)
      as [v ->].
    eexists; reflexivity.
  - unfold UserMode.mode_lookup_symbol_hash. rewrite Hf.
    destruct (lookup_symbol_hash_returns (InLoadOrderModuleList w) (image_at w)
                fuel m x Hm) as [v ->].
    eexists; reflexivity.
Qed.

End BackEnds.

(** ** The chain on a concrete process *)

Section ConcreteProcess.

Import Examples.

Lemma init_stops_at_first_failure_witness :
  exists s',
    Dispatch.init (P := Examples.user_mode) Examples.missing_chain 1 2
      (Examples.fresh 3) = Some (3, s')
    /\ InOrder.init_in_order (P := Examples.user_mode)
         (Dispatch.declarations Examples.missing_chain) 1 2 (Examples.fresh 3)
       = Some (3, s')
    /\ Dispatch.slot 1 (Dispatch.slots s') <> 0
    /\ Dispatch.slot 2 (Dispatch.slots s') <> 0
    /\ Dispatch.slot 3 (Dispatch.slots s') = 0.
Proof.
  pose proof (init_stops_at_first_failure (P := Examples.user_mode)
                Examples.missing_chain 1 2 (Examples.fresh 3))
    as (Href & _ & Hpat).
  assert (Hbase : Dispatch.base_never_fails (P := Examples.user_mode))
    by apply user_mode_never_fails.
  specialize (Hpat ltac:(simpl; lia) Hbase ltac:(repeat constructor)).
  destruct (Dispatch.init (P := Examples.user_mode) Examples.missing_chain 1 2
              (Examples.fresh 3)) as [[err s']|] eqn:E;
    [|vm_compute in E; discriminate E].
  assert (Herr : err = 3).
  { vm_compute in E. injection E as <- _. reflexivity. }
  subst err. exists s'. split; [reflexivity|].
  split; [symmetry; exact Href|].
  destruct (Hpat 3 s' eq_refl) as [[H0 _] | (_ & Hlow & Hz)]; [discriminate H0|].
  split; [apply Hlow; lia|]. split; [apply Hlow; lia|]. apply Hz. lia.
Defined.


(** C10, the claim as worded. In a native process no walk finds kernel32;
    a build that resolves [VirtualFree] hands the null handle to
    [lookup_symbol], and the base-level [init] does not return. *)
Lemma base_init_faults_without_kernel32 :
  UserMode.init_module (Mem := Hosts.native_memory) Hosts.cleanup_build
    "kernel32.dll" tt = 0
  /\ UserMode.init (Mem := Hosts.native_memory) Hosts.cleanup_build
       Examples.linked 0 1 2 (Dispatch.storage (Examples.fresh 0)) tt = None.
Proof. split; vm_compute; reflexivity. Qed.

Lemma base_init_reports_no_failure_witness :
  exists st',
    UserMode.init Hosts.cleanup_build Examples.linked 0 1 2
      (Dispatch.storage (Examples.fresh 0)) tt = Some (0, st', tt)
    /\ Dispatch.free_ st' = 0x76003000
    /\ Dispatch.load_module_ st' = 0.
Proof.
  pose proof (base_init_reports_no_failure (Enum := Hosts.kernel_host)
                Hosts.cleanup_build Examples.linked 0 1 2 (Dispatch.storage (Examples.fresh 0)) tt)
    as (Huser & _ & Hret & _).
  destruct (Hret eq_refl) as [Hu _].
  destruct (Hu ltac:(vm_compute; discriminate)) as [[[err st'] w'] E].
  destruct (Huser err st' w' E) as (-> & -> & Hfree & _ & Hload & _).
  exists st'. split; [exact E|].
  vm_compute in Hfree, Hload.
  split; symmetry; [injection Hfree as Hv | injection Hload as Hv]; exact Hv.
Defined.

End ConcreteProcess.

(** * Further properties *)

(** ** crt0.h: the memory routines *)

Section MemoryRoutines.

Import Crt0Mem.

Ltac zcases :=
  repeat match goal with
  | |- context [?a <=? ?b] => destruct (Z.leb_spec a b)
  | |- context [?a <? ?b] => destruct (Z.ltb_spec a b)
  | |- context [?a =? ?b] => destruct (Z.eqb_spec a b)
  end;
  simpl.

Lemma memcmp_spec (m : memory) (n : nat) : forall p1 p2 : Z,
  (memcmp m p1 p2 n = 0
   /\ forall i, 0 <= i < Z.of_nat n -> load m (p1 + i) = load m (p2 + i))
  \/ exists k,
       0 <= k < Z.of_nat n
       /\ (forall i, 0 <= i < k -> load m (p1 + i) = load m (p2 + i))
       /\ load m (p1 + k) <> load m (p2 + k)
       /\ memcmp m p1 p2 n = load m (p1 + k) - load m (p2 + k).
Proof.
  induction n as [|n IH]; intros p1 p2.
  - left. split; [reflexivity | intros; lia].
  - cbn [memcmp]. destruct (Z.eqb_spec (load m p1) (load m p2)) as [E|N]; simpl.
    + destruct (IH (p1 + 1) (p2 + 1)) as [[H0 Hall] | (k & Hk & Hpre & Hd & Hr)].
      * left. split; [exact H0|]. intros i Hi.
        destruct (Z.eq_dec i 0) as [->|Hi0]; [rewrite !Z.add_0_r; exact E|].
        replace (p1 + i) with (p1 + 1 + (i - 1)) by lia.
        replace (p2 + i) with (p2 + 1 + (i - 1)) by lia. apply Hall. lia.
      * right. exists (k + 1). split; [lia|]. split; [|split].
        -- intros i Hi.
           destruct (Z.eq_dec i 0) as [->|Hi0]; [rewrite !Z.add_0_r; exact E|].
           replace (p1 + i) with (p1 + 1 + (i - 1)) by lia.
           replace (p2 + i) with (p2 + 1 + (i - 1)) by lia. apply Hpre. lia.
        -- replace (p1 + (k + 1)) with (p1 + 1 + k) by lia.
           replace (p2 + (k + 1)) with (p2 + 1 + k) by lia. exact Hd.
        -- replace (p1 + (k + 1)) with (p1 + 1 + k) by lia.
           replace (p2 + (k + 1)) with (p2 + 1 + k) by lia. exact Hr.
    + right. exists 0. rewrite !Z.add_0_r. split; [lia|].
      split; [intros; lia|]. split; [exact N | reflexivity].
Qed.

(** X1. [memcmp] returns 0 exactly when the two ranges hold the same
    bytes; otherwise it returns the difference, taken as unsigned bytes, of
    the first pair that differs, so its sign orders the ranges
    lexicographically. *)
Theorem memcmp_first_difference (m : memory) (p1 p2 : Z) (count : nat) :
  (memcmp m p1 p2 count = 0 <->
   forall i, 0 <= i < Z.of_nat count -> load m (p1 + i) = load m (p2 + i))
  /\ (memcmp m p1 p2 count <> 0 ->
      exists k,
        0 <= k < Z.of_nat count
        /\ (forall i, 0 <= i < k -> load m (p1 + i) = load m (p2 + i))
        /\ memcmp m p1 p2 count = load m (p1 + k) - load m (p2 + k)).
Proof.
  destruct (memcmp_spec m count p1 p2) as [[H0 Hall] | (k & Hk & Hpre & Hd & Hr)].
  - split; [tauto | congruence].
  - split.
    + split.
      * intros E. rewrite E in Hr. lia.
      * intros Hall. exfalso. apply Hd. apply Hall. exact Hk.
    + intros _. exists k. auto.
Qed.

Lemma memset_spec (n : nat) : forall (m : memory) (p ch a : Z),
  memset m p ch n a
  = if (p <=? a) && (a <? p + Z.of_nat n) then uint8 ch else m a.
Proof.
  induction n as [|n IH]; intros m p ch a.
  - cbn [memset]. zcases; try reflexivity; lia.
  - cbn [memset]. rewrite IH. unfold store. zcases; try reflexivity; lia.
Qed.

(** X2. [memset] stores the byte [(unsigned char)ch] at each of the [count]
    addresses from [dest] on and at no other address. *)
Theorem memset_fills_range (m : memory) (dest ch a : Z) (count : nat) :
  (dest <= a < dest + Z.of_nat count -> memset m dest ch count a = uint8 ch)
  /\ (~ dest <= a < dest + Z.of_nat count -> memset m dest ch count a = m a).
Proof.
  rewrite memset_spec. zcases; split; intros; try reflexivity; lia.
Qed.

Lemma memcpy_spec (n : nat) : forall (m : memory) (d s a : Z),
  d <= s \/ s + Z.of_nat n <= d ->
  memcpy m d s n a
  = if (d <=? a) && (a <? d + Z.of_nat n) then load m (s + (a - d)) else m a.
Proof.
  induction n as [|n IH]; intros m d s a Hds.
  - cbn [memcpy]. zcases; try reflexivity; lia.
  - cbn [memcpy]. rewrite IH by lia. unfold store, load.
    zcases; try reflexivity; try lia; f_equal; f_equal; lia.
Qed.

Lemma copy_backward_spec (n : nat) : forall (m : memory) (d s a : Z),
  s <= d ->
  copy_backward m d s n a
  = if (d - Z.of_nat n <=? a) && (a <? d) then load m (s - (d - a)) else m a.
Proof.
  induction n as [|n IH]; intros m d s a Hsd.
  - cbn [copy_backward]. zcases; try reflexivity; lia.
  - cbn [copy_backward]. rewrite IH by lia. unfold store, load.
    zcases; try reflexivity; try lia; f_equal; f_equal; lia.
Qed.

(** X3. [memcpy] leaves in the destination range the bytes the source
    range held before the call, and changes nothing else, provided the
    destination does not start inside the source range above its first
    byte: [dest <= src], or the source ends at or before [dest]. *)
Theorem memcpy_copies_forward (m : memory) (dest src a : Z) (count : nat) :
  dest <= src \/ src + Z.of_nat count <= dest ->
  (dest <= a < dest + Z.of_nat count ->
   memcpy m dest src count a = load m (src + (a - dest)))
  /\ (~ dest <= a < dest + Z.of_nat count -> memcpy m dest src count a = m a).
Proof.
  intros H. rewrite memcpy_spec by exact H.
  zcases; split; intros; try reflexivity; lia.
Qed.

Lemma memcpy_copies_forward_witness :
  let m : memory := fun a => a + 10 in
  (2 <= 4 \/ 4 + Z.of_nat 3 <= 2)
  /\ memcpy m 2 4 3 3 = 15
  /\ memcpy m 2 4 3 5 = 15.
Proof.
  intros m.
  assert (H : 2 <= 4 \/ 4 + Z.of_nat 3 <= 2) by (left; lia).
  destruct (memcpy_copies_forward m 2 4 3 3 H) as [Hin _].
  destruct (memcpy_copies_forward m 2 4 5 3 H) as [_ Hout].
  split; [exact H|]. split.
  - rewrite Hin by (simpl; lia). reflexivity.
  - rewrite Hout by (simpl; lia). reflexivity.
Defined.

(** Copying upwards inside the source range is where [memcpy] goes wrong:
    the first byte is smeared over the destination. *)
Lemma memcpy_overlap_smears :
  let m : memory := fun a => a + 10 in
  memcpy m 1 0 3 3 = 10 /\ load m (0 + (3 - 1)) = 12.
Proof. split; reflexivity. Qed.

(** X4. [memmove] leaves in the destination range the bytes the source
    range held before the call, and changes nothing else, however the two
    ranges overlap. *)
Theorem memmove_copies_any_overlap (m : memory) (dest src a : Z) (count : nat) :
  (dest <= a < dest + Z.of_nat count ->
   memmove m dest src count a = load m (src + (a - dest)))
  /\ (~ dest <= a < dest + Z.of_nat count -> memmove m dest src count a = m a).
Proof.
  unfold memmove. destruct (Z.ltb_spec dest src).
  - rewrite memcpy_spec by lia.
    zcases; split; intros; try reflexivity; lia.
  - rewrite copy_backward_spec by lia. unfold load.
    zcases; split; intros; try reflexivity; try lia; f_equal; f_equal; lia.
Qed.

Lemma memchr_spec (m : memory) (ch : Z) (n : nat) : forall p : Z,
  (memchr m p ch n = 0
   /\ forall i, 0 <= i < Z.of_nat n -> load m (p + i) <> uint8 ch)
  \/ exists k,
       0 <= k < Z.of_nat n
       /\ (forall i, 0 <= i < k -> load m (p + i) <> uint8 ch)
       /\ load m (p + k) = uint8 ch
       /\ memchr m p ch n = p + k.
Proof.
  induction n as [|n IH]; intros p.
  - left. split; [reflexivity | intros; lia].
  - cbn [memchr]. destruct (Z.eqb_spec (load m p) (uint8 ch)) as [E|N].
    + right. exists 0. rewrite !Z.add_0_r. split; [lia|].
      split; [intros; lia|]. split; [exact E | reflexivity].
    + destruct (IH (p + 1)) as [[H0 Hall] | (k & Hk & Hpre & Hat & Hr)].
      * left. split; [exact H0|]. intros i Hi.
        destruct (Z.eq_dec i 0) as [->|Hi0]; [rewrite Z.add_0_r; exact N|].
        replace (p + i) with (p + 1 + (i - 1)) by lia. apply Hall. lia.
      * right. exists (k + 1). split; [lia|]. split; [|split].
        -- intros i Hi.
           destruct (Z.eq_dec i 0) as [->|Hi0]; [rewrite Z.add_0_r; exact N|].
           replace (p + i) with (p + 1 + (i - 1)) by lia. apply Hpre. lia.
        -- replace (p + (k + 1)) with (p + 1 + k) by lia. exact Hat.
        -- rewrite Hr. lia.
Qed.

(** X5. [memchr] on a non-null pointer returns null exactly when none of
    the [count] bytes is [(unsigned char)ch]; otherwise it returns the
    address of the first one that is. *)
Theorem memchr_first_match (m : memory) (ptr ch : Z) (count : nat) :
  0 < ptr ->
  (memchr m ptr ch count = 0 <->
   forall i, 0 <= i < Z.of_nat count -> load m (ptr + i) <> uint8 ch)
  /\ (memchr m ptr ch count <> 0 ->
      exists k,
        0 <= k < Z.of_nat count
        /\ memchr m ptr ch count = ptr + k
        /\ load m (ptr + k) = uint8 ch
        /\ forall i, 0 <= i < k -> load m (ptr + i) <> uint8 ch).
Proof.
  intros Hp.
  destruct (memchr_spec m ch count ptr) as [[H0 Hall] | (k & Hk & Hpre & Hat & Hr)].
  - split; [tauto | congruence].
  - split.
    + split.
      * intros E. rewrite E in Hr. lia.
      * intros Hall. exfalso. exact (Hall k Hk Hat).
    + intros _. exists k. auto.
Qed.

Lemma memchr_first_match_witness :
  let m : memory := fun a => if a =? 102 then 7 else if a =? 104 then 7 else 0 in
  0 < 100 /\ memchr m 100 (256 + 7) 8 = 102.
Proof.
  intros m. assert (Hp : 0 < 100) by lia. split; [exact Hp|].
  destruct (memchr_first_match m 100 (256 + 7) 8 Hp) as [_ H].
  destruct H as (k & Hk & Hr & _ & _); [vm_compute; discriminate|].
  reflexivity.
Defined.

End MemoryRoutines.

(** ** crt0.h: the string routines *)

Section StringRoutines.

Import Crt0 Crt0Str.

Lemma uint8_byte (c : Z) : is_byte c -> uint8 c = c.
Proof. unfold is_byte, uint8. intros H. apply Z.mod_small. lia. Qed.

Lemma is_byte_peek (s : cstr) : Forall is_byte s -> is_byte (peek s).
Proof. intros H. destruct H; simpl; [unfold is_byte; lia | assumption]. Qed.

Lemma Forall_advance {Q : Z -> Prop} (s : cstr) : Forall Q s -> Forall Q (advance s).
Proof. intros H. destruct H; simpl; [constructor | assumption]. Qed.

Lemma chars_nil_iff (s : cstr) : chars s = [] <-> peek s = 0.
Proof.
  destruct s as [|c s]; simpl; [split; reflexivity|].
  rewrite chars_cons. destruct (Z.eqb_spec c 0); split; congruence.
Qed.

Lemma chars_peek_advance (s : cstr) :
  peek s <> 0 -> chars s = peek s :: chars (advance s).
Proof.
  destruct s as [|c s]; simpl; [congruence|].
  intros H. rewrite chars_cons. destruct (Z.eqb_spec c 0); [contradiction | reflexivity].
Qed.

Lemma strcmp_unfold (lhs rhs : cstr) :
  strcmp lhs rhs
  = if negb (peek lhs =? 0) && (peek lhs =? peek rhs)
    then strcmp (advance lhs) (advance rhs)
    else uint8 (peek lhs) - uint8 (peek rhs).
Proof. destruct lhs; reflexivity. Qed.

Lemma strcmp_spec (s : cstr) : forall t : cstr,
  Forall is_byte s -> Forall is_byte t ->
  (strcmp s t = 0 <-> chars s = chars t) /\ strcmp t s = - strcmp s t.
Proof.
  induction s as [|a s IH]; intros t Hs Ht.
  - pose proof (is_byte_peek t Ht) as Hp.
    rewrite (strcmp_unfold t []). cbn [strcmp peek hd].
    change (chars []) with (@nil Z).
    rewrite (uint8_byte (peek t)) by exact Hp. change (uint8 0) with 0.
    destruct (Z.eqb_spec (peek t) 0) as [E|N]; simpl.
    + rewrite E. split; [|reflexivity].
      split; [intros _; symmetry; apply chars_nil_iff; exact E | reflexivity].
    + split.
      * split; [lia|]. intros E. symmetry in E. apply chars_nil_iff in E. contradiction.
      * destruct (Z.eqb_spec (peek t) 0); [contradiction|]. simpl. lia.
  - inversion Hs as [|? ? Ha Hs']; subst.
    pose proof (is_byte_peek t Ht) as Hp.
    rewrite (strcmp_unfold t (a :: s)), (strcmp_unfold (a :: s) t).
    cbn [peek hd advance tl].
    rewrite (uint8_byte (peek t)) by exact Hp. rewrite (uint8_byte a) by exact Ha.
    rewrite chars_cons.
    destruct (Z.eqb_spec a 0) as [->|Na]; simpl.
    + destruct (Z.eqb_spec (peek t) 0) as [E|N]; simpl.
      * rewrite E. split; [|reflexivity].
        split; [intros _; symmetry; apply chars_nil_iff; exact E | reflexivity].
      * destruct (Z.eqb_spec (peek t) 0); [contradiction|]. simpl. split; [|lia].
        split; [lia|]. intros E. symmetry in E. apply chars_nil_iff in E. contradiction.
    + destruct (Z.eqb_spec a (peek t)) as [E|N]; simpl.
      * assert (Nt : peek t <> 0) by congruence.
        destruct (Z.eqb_spec (peek t) 0); [contradiction|].
        destruct (Z.eqb_spec (peek t) a); [|congruence]. simpl.
        destruct (IH (advance t) Hs' (Forall_advance t Ht)) as [Hz Hanti].
        split; [|exact Hanti].
        rewrite (chars_peek_advance t Nt), <- E, Hz.
        split; [intros ->; reflexivity | intros X; injection X; auto].
      * destruct (Z.eqb_spec (peek t) a); [congruence|]. rewrite andb_false_r.
        split; [|lia]. split; [lia|]. intros X. exfalso. apply N.
        destruct (Z.eq_dec (peek t) 0) as [E0|N0].
        -- apply chars_nil_iff in E0. rewrite E0 in X. discriminate.
        -- rewrite (chars_peek_advance t N0) in X. injection X. auto.
Qed.

(** X6. On strings of bytes [strcmp] returns 0 exactly when the two strings
    have the same characters up to their terminators, and swapping the
    arguments negates the result. *)
Theorem strcmp_equal_or_ordered (s t : cstr) :
  Forall is_byte s -> Forall is_byte t ->
  (strcmp s t = 0 <-> chars s = chars t) /\ strcmp t s = - strcmp s t.
Proof. intros Hs Ht. apply strcmp_spec; assumption. Qed.

Lemma strcmp_equal_or_ordered_witness :
  Forall is_byte (lit "Sleep") /\ Forall is_byte (lit "SleepEx")
  /\ strcmp (lit "Sleep") (lit "SleepEx") = - 69
  /\ strcmp (lit "SleepEx") (lit "Sleep") = 69.
Proof.
  assert (Hs : Forall is_byte (lit "Sleep")).
  { repeat constructor; unfold is_byte; simpl; lia. }
  assert (Ht : Forall is_byte (lit "SleepEx")).
  { repeat constructor; unfold is_byte; simpl; lia. }
  destruct (strcmp_equal_or_ordered (lit "Sleep") (lit "SleepEx") Hs Ht) as [_ H].
  split; [exact Hs|]. split; [exact Ht|]. split; [reflexivity|].
  rewrite H. reflexivity.
Defined.

Lemma strlen_peek_advance (s : cstr) :
  peek s <> 0 -> strlen s = S (strlen (advance s)).
Proof.
  destruct s as [|c s]; simpl; [congruence|].
  intros H. destruct (Z.eqb_spec c 0); [contradiction | reflexivity].
Qed.

Lemma strlen_zero (s : cstr) : peek s = 0 -> strlen s = O.
Proof.
  destruct s as [|c s]; simpl; [reflexivity|].
  intros ->. reflexivity.
Qed.

Lemma strncmp_zero_iff (n : nat) : forall s t : cstr,
  Forall is_byte s -> Forall is_byte t ->
  (strncmp s t n = 0 <-> take n (chars s) = take n (chars t)).
Proof.
  induction n as [|n IH]; intros s t Hs Ht.
  - simpl. rewrite !take_0. split; reflexivity.
  - pose proof (is_byte_peek s Hs) as Hps. pose proof (is_byte_peek t Ht) as Hpt.
    cbn [strncmp]. rewrite (uint8_byte _ Hps), (uint8_byte _ Hpt).
    destruct (Z.eqb_spec (peek s) 0) as [Es|Ns]; simpl.
    + apply chars_nil_iff in Es as Cs. rewrite Cs, Es. simpl.
      destruct (Z.eq_dec (peek t) 0) as [Et|Nt].
      * apply chars_nil_iff in Et as Ct. rewrite Ct, Et. split; reflexivity.
      * rewrite (chars_peek_advance t Nt). simpl. split; [lia | discriminate].
    + rewrite (chars_peek_advance s Ns).
      destruct (Z.eqb_spec (peek s) (peek t)) as [E|N].
      * assert (Nt : peek t <> 0) by congruence.
        rewrite (chars_peek_advance t Nt), <- E. simpl.
        rewrite (IH _ _ (Forall_advance s Hs) (Forall_advance t Ht)).
        split; [intros ->; reflexivity | intros X; injection X; auto].
      * split; [lia|]. intros X. exfalso. apply N.
        destruct (Z.eq_dec (peek t) 0) as [Et|Nt].
        -- apply chars_nil_iff in Et. rewrite Et in X. discriminate.
        -- rewrite (chars_peek_advance t Nt) in X. simpl in X. injection X. auto.
Qed.

Lemma strncmp_is_strcmp (n : nat) : forall s t : cstr,
  (strlen s < n)%nat -> strncmp s t n = strcmp s t.
Proof.
  induction n as [|n IH]; intros s t Hn; [lia|].
  cbn [strncmp]. rewrite (strcmp_unfold s t).
  destruct (Z.eqb_spec (peek s) 0) as [Es|Ns]; simpl; [reflexivity|].
  destruct (peek s =? peek t); [|reflexivity].
  apply IH. rewrite (strlen_peek_advance s Ns) in Hn. lia.
Qed.

(** X7. On strings of bytes [strncmp] returns 0 exactly when the two
    strings agree on their first [count] characters (or on all of them, if
    they are shorter); with a [count] above the length of the left string
    it is [strcmp]. *)
Theorem strncmp_compares_prefixes (s t : cstr) (count : nat) :
  Forall is_byte s -> Forall is_byte t ->
  (strncmp s t count = 0 <-> take count (chars s) = take count (chars t))
  /\ ((strlen s < count)%nat -> strncmp s t count = strcmp s t).
Proof.
  intros Hs Ht. split; [apply strncmp_zero_iff; assumption|].
  apply strncmp_is_strcmp.
Qed.

Lemma strncmp_compares_prefixes_witness :
  Forall is_byte (lit "SleepEx") /\ Forall is_byte (lit "Sleep")
  /\ strncmp (lit "SleepEx") (lit "Sleep") 5 = 0
  /\ strncmp (lit "SleepEx") (lit "Sleep") 6 <> 0.
Proof.
  assert (Hs : Forall is_byte (lit "SleepEx")).
  { repeat constructor; unfold is_byte; simpl; lia. }
  assert (Ht : Forall is_byte (lit "Sleep")).
  { repeat constructor; unfold is_byte; simpl; lia. }
  split; [exact Hs|]. split; [exact Ht|]. split.
  - apply (strncmp_compares_prefixes _ _ 5 Hs Ht). reflexivity.
  - intros E. apply (strncmp_compares_prefixes _ _ 6 Hs Ht) in E. discriminate E.
Defined.

(** *** Searching *)

Lemma strchr_unfold (str : cstr) (ch : Z) :
  strchr str ch
  = if peek str =? 0 then (if ch =? 0 then Some str else None)
    else if uint8 (peek str) =? uint8 ch then Some str
    else strchr (advance str) ch.
Proof. destruct str; reflexivity. Qed.

Lemma strchr_spec (str : cstr) (ch : Z) :
  match strchr str ch with
  | Some p =>
      exists k : nat,
        (k <= strlen str)%nat /\ p = drop k str
        /\ Forall (fun c => uint8 c <> uint8 ch) (take k str)
        /\ (if (k <? strlen str)%nat then uint8 (peek p) = uint8 ch else ch = 0)
  | None => ch <> 0 /\ Forall (fun c => uint8 c <> uint8 ch) (chars str)
  end.
Proof.
  induction str as [|c str IH].
  - simpl. destruct (Z.eqb_spec ch 0) as [->|N].
    + exists O. repeat split; try constructor.
    + split; [exact N | constructor].
  - rewrite strchr_unfold. cbn [peek hd advance tl].
    destruct (Z.eqb_spec c 0) as [->|Nc].
    + destruct (Z.eqb_spec ch 0) as [->|N].
      * exists O. simpl. repeat split; try constructor.
      * split; [exact N|]. rewrite chars_cons. simpl. constructor.
    + destruct (Z.eqb_spec (uint8 c) (uint8 ch)) as [E|N].
      * exists O. simpl. destruct (Z.eqb_spec c 0); [contradiction|].
        simpl. repeat split; try constructor; try lia; try exact E.
      * destruct (strchr str ch) as [p|].
        -- destruct IH as (k & Hk & Hp & Hpre & Hat).
           exists (S k). simpl. destruct (Z.eqb_spec c 0); [contradiction|].
           split; [lia|]. split; [exact Hp|]. split; [constructor; assumption|].
           exact Hat.
        -- destruct IH as [Hch Hall]. split; [exact Hch|].
           rewrite chars_cons. destruct (Z.eqb_spec c 0); [contradiction|].
           constructor; assumption.
Qed.

Lemma strlen_le_length (s : cstr) : (strlen s <= length s)%nat.
Proof.
  induction s as [|c s IH]; simpl; [lia|]. destruct (c =? 0); simpl; lia.
Qed.

Lemma chars_lookup (s : cstr) (k : nat) :
  (k < strlen s)%nat -> chars s !! k = Some (peek (drop k s)).
Proof.
  intros Hk. unfold chars. rewrite lookup_take_lt by exact Hk.
  pose proof (strlen_le_length s).
  destruct (lookup_lt_is_Some_2 s k ltac:(lia)) as [x Hx].
  rewrite Hx. rewrite (drop_S s x k Hx). reflexivity.
Qed.

Lemma strchr_terminator (str : cstr) :
  Forall is_byte str -> strchr str 0 = Some (drop (strlen str) str).
Proof.
  induction 1 as [|c str Hc _ IH]; [reflexivity|].
  rewrite strchr_unfold. cbn [peek hd advance tl]. simpl strlen.
  destruct (Z.eqb_spec c 0) as [->|Nc]; [reflexivity|].
  rewrite (uint8_byte c Hc). change (uint8 0) with 0.
  destruct (Z.eqb_spec c 0); [contradiction | exact IH].
Qed.

(** X8. [strchr] returns the pointer to the first character of the string
    whose byte is that of [ch]; it returns null exactly when [ch] is not
    zero and no character of the string has its byte; and looking for the
    zero character returns the pointer to the terminator. *)
Theorem strchr_first_occurrence (str : cstr) (ch : Z) :
  Forall is_byte str ->
  (forall p, strchr str ch = Some p ->
     exists k : nat,
       (k <= strlen str)%nat /\ p = drop k str
       /\ Forall (fun c => uint8 c <> uint8 ch) (take k str)
       /\ (if (k <? strlen str)%nat then uint8 (peek p) = uint8 ch else ch = 0))
  /\ (strchr str ch = None <->
      ch <> 0 /\ Forall (fun c => uint8 c <> uint8 ch) (chars str))
  /\ strchr str 0 = Some (drop (strlen str) str).
Proof.
  intros Hb. split; [|split].
  - intros p E. pose proof (strchr_spec str ch) as H. rewrite E in H. exact H.
  - pose proof (strchr_spec str ch) as H. split.
    + intros E. rewrite E in H. exact H.
    + intros [Hch Hall]. destruct (strchr str ch) as [p|]; [|reflexivity].
      exfalso. destruct H as (k & Hk & -> & Hpre & Hat).
      destruct (Nat.ltb_spec k (strlen str)) as [Hlt|Hge]; [|contradiction].
      rewrite Forall_forall in Hall. apply (Hall (peek (drop k str))); [|exact Hat].
      apply list_elem_of_lookup. exists k. apply chars_lookup. exact Hlt.
  - apply strchr_terminator. exact Hb.
Qed.

Lemma strchr_first_occurrence_witness :
  Forall is_byte (lit "NTDLL.RtlAllocateHeap")
  /\ strchr (lit "NTDLL.RtlAllocateHeap") 46 = Some (lit ".RtlAllocateHeap")
  /\ strchr (lit "NTDLL.RtlAllocateHeap") 35 = None.
Proof.
  assert (Hb : Forall is_byte (lit "NTDLL.RtlAllocateHeap")).
  { repeat constructor; unfold is_byte; simpl; lia. }
  split; [exact Hb|]. split; [reflexivity|].
  apply (strchr_first_occurrence _ 35 Hb). split; [lia|].
  repeat constructor; vm_compute; discriminate.
Defined.

Lemma chars_drop (k : nat) : forall s : cstr,
  (k <= strlen s)%nat -> chars (drop k s) = drop k (chars s).
Proof.
  induction k as [|k IH]; intros s Hk; [reflexivity|].
  destruct s as [|c s]; [simpl in Hk; lia|].
  simpl in Hk. rewrite chars_cons. destruct (c =? 0); [lia|].
  simpl. apply IH. lia.
Qed.

Lemma strrchr_from_spec (ch : Z) (str : cstr) : forall last : option cstr,
  ch <> 0 ->
  (exists k : nat,
     (k < strlen str)%nat
     /\ strrchr_from last str ch = Some (drop k str)
     /\ uint8 (peek (drop k str)) = uint8 ch
     /\ Forall (fun c => uint8 c <> uint8 ch) (drop (S k) (chars str)))
  \/ (strrchr_from last str ch = last
      /\ Forall (fun c => uint8 c <> uint8 ch) (chars str)).
Proof.
  intros last Hch. revert last.
  induction str as [|c str IH]; intros last.
  - right. simpl. destruct (Z.eqb_spec ch 0); [contradiction|].
    split; [reflexivity | constructor].
  - cbn [strrchr_from]. rewrite chars_cons. simpl strlen.
    destruct (Z.eqb_spec c 0) as [->|Nc].
    + right. destruct (Z.eqb_spec ch 0); [contradiction|].
      split; [reflexivity | constructor].
    + destruct (IH (if uint8 c =? uint8 ch then Some (c :: str) else last))
        as [(k & Hk & Hr & Hat & Hpost) | (Hr & Hall)].
      * left. exists (S k). split; [lia|]. split; [exact Hr|].
        split; [exact Hat | exact Hpost].
      * destruct (Z.eqb_spec (uint8 c) (uint8 ch)) as [E|N].
        -- left. exists O. split; [lia|]. split; [exact Hr|].
           split; [exact E | exact Hall].
        -- right. split; [exact Hr|]. constructor; assumption.
Qed.

Lemma strrchr_from_terminator (str : cstr) : forall last : option cstr,
  strrchr_from last str 0 = Some (drop (strlen str) str).
Proof.
  induction str as [|c str IH]; intros last; [reflexivity|].
  cbn [strrchr_from]. simpl strlen.
  destruct (Z.eqb_spec c 0) as [->|Nc]; [reflexivity|]. apply IH.
Qed.

(** X9. [strrchr] returns the pointer to the last character of the string
    whose byte is that of [ch], null when [ch] is not zero and there is
    none, and the pointer to the terminator when [ch] is zero. *)
Theorem strrchr_last_occurrence (str : cstr) (ch : Z) :
  (ch <> 0 ->
   (exists k : nat,
      (k < strlen str)%nat
      /\ strrchr str ch = Some (drop k str)
      /\ uint8 (peek (drop k str)) = uint8 ch
      /\ Forall (fun c => uint8 c <> uint8 ch) (drop (S k) (chars str)))
   \/ (strrchr str ch = None
       /\ Forall (fun c => uint8 c <> uint8 ch) (chars str)))
  /\ strrchr str 0 = Some (drop (strlen str) str).
Proof.
  split.
  - intros Hch. apply (strrchr_from_spec ch str None Hch).
  - apply strrchr_from_terminator.
Qed.

Lemma strrchr_last_occurrence_witness :
  46 <> 0
  /\ strrchr (lit "api-ms-win.l1-1-0.Sleep") 46 = Some (lit ".Sleep").
Proof.
  assert (H : 46 <> 0) by lia. split; [exact H|].
  destruct (proj1 (strrchr_last_occurrence (lit "api-ms-win.l1-1-0.Sleep") 46) H)
    as [(k & _ & Hr & _) | [Hr _]].
  - reflexivity.
  - discriminate Hr.
Defined.

Lemma match_here_spec (n : cstr) : forall h : cstr,
  match_here h n = true <-> chars n `prefix_of` chars h.
Proof.
  induction n as [|c n IH]; intros h.
  - simpl. split; [intros _; apply prefix_nil | reflexivity].
  - cbn [match_here]. rewrite chars_cons.
    destruct (Z.eqb_spec c 0) as [->|Nc].
    + split; [intros _; apply prefix_nil | reflexivity].
    + destruct (Z.eqb_spec (peek h) 0) as [E0|N0]; simpl.
      * apply chars_nil_iff in E0. rewrite E0.
        split; [discriminate|]. intros [k Hk]. discriminate Hk.
      * rewrite (chars_peek_advance h N0).
        destruct (Z.eqb_spec (peek h) c) as [->|N].
        -- rewrite IH. split.
           ++ intros [k Hk]. exists k. simpl. rewrite Hk. reflexivity.
           ++ intros [k Hk]. exists k. simpl in Hk. injection Hk. auto.
        -- split; [discriminate|]. intros [k Hk]. simpl in Hk.
           injection Hk. intros _ E. contradiction.
Qed.

Lemma strstr_scan_spec (substr : cstr) (str : cstr) :
  match strstr_scan str substr with
  | Some p =>
      exists k : nat,
        (k < strlen str)%nat /\ p = drop k str
        /\ chars substr `prefix_of` drop k (chars str)
        /\ forall j : nat, (j < k)%nat -> ~ chars substr `prefix_of` drop j (chars str)
  | None =>
      forall j : nat, (j < strlen str)%nat ->
        ~ chars substr `prefix_of` drop j (chars str)
  end.
Proof.
  induction str as [|c str IH].
  - simpl. intros j Hj. lia.
  - cbn [strstr_scan]. simpl strlen.
    destruct (Z.eqb_spec c 0) as [->|Nc]; [intros j Hj; lia|].
    destruct (match_here (c :: str) substr) eqn:Em.
    + apply match_here_spec in Em.
      exists O. split; [lia|]. split; [reflexivity|]. split; [exact Em|].
      intros j Hj. lia.
    + assert (Hno : ~ chars substr `prefix_of` chars (c :: str)).
      { intros Hp. apply match_here_spec in Hp. congruence. }
      assert (Hc : chars (c :: str) = c :: chars str).
      { rewrite chars_cons. destruct (Z.eqb_spec c 0); [contradiction | reflexivity]. }
      destruct (strstr_scan str substr) as [p|].
      * destruct IH as (k & Hk & Hp & Hpre & Hleft).
        exists (S k). split; [lia|]. split; [exact Hp|]. rewrite Hc. split; [exact Hpre|].
        intros [|j] Hj; [rewrite <- Hc; exact Hno|]. simpl. apply Hleft. lia.
      * intros [|j] Hj; [exact Hno|]. rewrite Hc. simpl. apply IH. lia.
Qed.

Lemma occurs_in_prefix_drop (needle hay : list Z) :
  Xorstr.occurs_in needle hay <->
  exists j : nat, (j <= length hay)%nat /\ needle `prefix_of` drop j hay.
Proof.
  split.
  - intros (before & after & ->). exists (length before).
    rewrite length_app. split; [lia|].
    rewrite drop_app_length. exists after. reflexivity.
  - intros (j & Hj & after & Hd). exists (take j hay), after.
    rewrite <- Hd. symmetry. apply take_drop.
Qed.

(** X10. [strstr] returns [str] for an empty [substr]; otherwise it returns
    the pointer to the leftmost place of the string where the characters
    of [substr] occur, and null exactly when they occur nowhere in it. *)
Theorem strstr_leftmost_occurrence (str substr : cstr) :
  (peek substr = 0 -> strstr str substr = Some str)
  /\ (peek substr <> 0 ->
      (forall p, strstr str substr = Some p ->
         exists k : nat,
           (k < strlen str)%nat /\ p = drop k str
           /\ chars substr `prefix_of` drop k (chars str)
           /\ forall j : nat, (j < k)%nat ->
                ~ chars substr `prefix_of` drop j (chars str))
      /\ (strstr str substr = None <->
          ~ Xorstr.occurs_in (chars substr) (chars str))).
Proof.
  unfold strstr. split.
  - intros ->. reflexivity.
  - intros Hn. destruct (Z.eqb_spec (peek substr) 0); [contradiction|].
    pose proof (strstr_scan_spec substr str) as H. split.
    + intros p E. rewrite E in H. exact H.
    + assert (Hlen : length (chars str) = strlen str).
      { unfold chars. rewrite length_take. pose proof (strlen_le_length str). lia. }
      assert (Hne : chars substr <> []).
      { intros E. apply chars_nil_iff in E. contradiction. }
      split.
      * intros E. rewrite E in H. rewrite occurs_in_prefix_drop.
        intros (j & Hj & Hp). rewrite Hlen in Hj.
        destruct (Nat.eq_dec j (strlen str)) as [->|Hne'].
        -- rewrite drop_ge in Hp by lia. destruct Hp as [k Hk].
           destruct (chars substr); [contradiction | discriminate].
        -- apply (H j); [lia | exact Hp].
      * intros Hno. destruct (strstr_scan str substr) as [p|]; [|reflexivity].
        exfalso. destruct H as (k & Hk & _ & Hp & _). apply Hno.
        apply occurs_in_prefix_drop. exists k. split; [lia | exact Hp].
Qed.

Lemma strstr_leftmost_occurrence_witness :
  peek (lit "ll") <> 0
  /\ strstr (lit "kernel32.dll") (lit "ll") = Some (lit "ll")
  /\ strstr (lit "kernel32.dll") (lit "l3") = Some (lit "l32.dll")
  /\ strstr (lit "kernel32.dll") (lit "lll") = None.
Proof.
  assert (H : peek (lit "ll") <> 0) by (simpl; lia).
  split; [exact H|].
  destruct (proj2 (strstr_leftmost_occurrence (lit "kernel32.dll") (lit "ll")) H)
    as [Hsome _].
  destruct (Hsome (lit "ll") eq_refl) as (k & _ & _ & _ & _).
  repeat split.
Defined.

Lemma write_block (l : list Z) : forall (d : nat) (buf : list Z),
  (d + length l <= length buf)%nat ->
  write buf (block (Z.of_nat d) l) = take d buf ++ l ++ drop (d + length l) buf.
Proof.
  unfold write. induction l as [|v l IH]; intros d buf Hfit.
  - simpl. rewrite Nat.add_0_r. symmetry. apply take_drop.
  - simpl in Hfit. cbn [block foldl]. unfold Windows.store at 2. cbn [fst snd].
    destruct (Z.leb_spec 0 (Z.of_nat d)); [|lia]. rewrite Nat2Z.id.
    replace (Z.of_nat d + 1) with (Z.of_nat (S d)) by lia.
    rewrite IH by (rewrite length_insert; lia).
    rewrite (take_S_r _ d v) by (apply list_lookup_insert_eq; lia).
    rewrite take_insert_ge by lia.
    rewrite drop_insert_lt by lia.
    rewrite <- app_assoc. simpl.
    replace (d + S (length l))%nat with (S (d + length l)) by lia. reflexivity.
Qed.

Lemma strcpy_from_block (src : cstr) : forall d : Z,
  strcpy_from d src = block d (chars src ++ [0]).
Proof.
  induction src as [|c src IH]; intros d; [reflexivity|].
  cbn [strcpy_from]. rewrite chars_cons.
  destruct (c =? 0); [reflexivity|]. simpl. rewrite IH. reflexivity.
Qed.

Lemma chars_nonzero (s : cstr) : Forall (fun c => c <> 0) (chars s).
Proof.
  induction s as [|c s IH]; [constructor|].
  rewrite chars_cons. destruct (Z.eqb_spec c 0); constructor; assumption.
Qed.

Lemma chars_length (s : cstr) : length (chars s) = strlen s.
Proof. unfold chars. rewrite length_take. pose proof (strlen_le_length s). lia. Qed.

Lemma chars_terminated (l rest : list Z) :
  Forall (fun c => c <> 0) l -> chars (l ++ 0 :: rest) = l.
Proof.
  induction 1 as [|c l Hc _ IH]; [reflexivity|].
  simpl. rewrite chars_cons. destruct (Z.eqb_spec c 0); [contradiction|].
  rewrite IH. reflexivity.
Qed.

Lemma chars_take_nonzero (l rest : list Z) :
  Forall (fun c => c <> 0) l -> strlen (l ++ 0 :: rest) = length l.
Proof.
  intros H. rewrite <- (chars_terminated l rest H) at 2. symmetry. apply chars_length.
Qed.

Lemma take_chars (s : cstr) : take (strlen s) s = chars s.
Proof. reflexivity. Qed.

Lemma write_strcpy (buf : list Z) (src : cstr) :
  (strlen src < length buf)%nat ->
  write buf (strcpy src) = chars src ++ 0 :: drop (S (strlen src)) buf.
Proof.
  intros Hfit. unfold strcpy.
  rewrite strcpy_from_block. change 0 with (Z.of_nat 0) at 1.
  rewrite write_block by (rewrite length_app, chars_length; simpl; lia).
  rewrite length_app, chars_length. simpl. rewrite <- app_assoc. simpl.
  do 3 f_equal. lia.
Qed.

Lemma chars_all_nonzero (l : list Z) :
  Forall (fun c => c <> 0) l -> chars l = l.
Proof.
  induction 1 as [|c l Hc _ IH]; [reflexivity|].
  rewrite chars_cons. destruct (Z.eqb_spec c 0); [contradiction|].
  rewrite IH. reflexivity.
Qed.

(** X11. [strcpy] into a buffer that has room for the string and its
    terminator: the buffer then holds the characters of [src], a
    terminator, and its old contents after that; read back as a C string it
    is [src]. *)
Theorem strcpy_round_trip (buf : list Z) (src : cstr) :
  (strlen src < length buf)%nat ->
  write buf (strcpy src) = chars src ++ 0 :: drop (S (strlen src)) buf
  /\ chars (write buf (strcpy src)) = chars src
  /\ length (write buf (strcpy src)) = length buf.
Proof.
  intros Hfit. rewrite (write_strcpy buf src Hfit).
  split; [reflexivity|]. split.
  - apply chars_terminated, chars_nonzero.
  - rewrite length_app, chars_length. simpl. rewrite length_drop. lia.
Qed.

Lemma strcpy_round_trip_witness :
  (strlen (lit "ntdll") < length (replicate 8 1%Z))%nat
  /\ write (replicate 8 1%Z) (strcpy (lit "ntdll")) = lit "ntdll" ++ [0; 1; 1].
Proof.
  assert (H : (strlen (lit "ntdll") < length (replicate 8 1%Z))%nat)
    by (vm_compute; lia).
  split; [exact H|].
  destruct (strcpy_round_trip (replicate 8 1%Z) (lit "ntdll") H) as [E _].
  rewrite E. reflexivity.
Defined.

Lemma strncpy_pad_block (count : nat) : forall d : Z,
  strncpy_pad d count = block d (replicate count 0).
Proof.
  induction count as [|count IH]; intros d; [reflexivity|].
  simpl. rewrite IH. reflexivity.
Qed.

Lemma strncpy_from_block (count : nat) : forall (src : cstr) (d : Z),
  strncpy_from d src count =
  block d (if (count <=? strlen src)%nat
           then take count (chars src)
           else chars src ++ replicate (S (count - strlen src)) 0).
Proof.
  induction count as [|count IH]; intros src d.
  - reflexivity.
  - cbn [strncpy_from].
    destruct (Z.eqb_spec (peek src) 0) as [E|N].
    + rewrite (strlen_zero src E). apply chars_nil_iff in E. rewrite E.
      cbn [Nat.leb app]. rewrite Nat.sub_0_r.
      rewrite strncpy_pad_block. reflexivity.
    + rewrite (chars_peek_advance src N), (strlen_peek_advance src N).
      rewrite IH. cbn [Nat.leb Nat.sub].
      destruct (count <=? strlen (advance src))%nat; reflexivity.
Qed.

(** X12. [strncpy] with a source of at least [count] characters stores
    exactly the first [count] of them and no terminator. With a shorter
    source it stores the characters and then zeros up to and including
    index [count]: [count + 1] units, one more than [count]. *)
Theorem strncpy_stores (src : cstr) (count : nat) :
  ((count <= strlen src)%nat ->
   strncpy src count = block 0 (take count (chars src)))
  /\ ((strlen src < count)%nat ->
      strncpy src count
      = block 0 (chars src ++ replicate (S (count - strlen src)) 0)
      /\ length (strncpy src count) = S count
      /\ In (Z.of_nat count, 0) (strncpy src count)).
Proof.
  unfold strncpy. rewrite strncpy_from_block. split.
  - intros H. destruct (Nat.leb_spec count (strlen src)); [reflexivity | lia].
  - intros H. destruct (Nat.leb_spec count (strlen src)); [lia|].
    split; [reflexivity|].
    assert (Hlen : forall l d, length (block d l) = length l).
    { induction l as [|v l IHl]; intros d; simpl; [reflexivity|].
      rewrite IHl. reflexivity. }
    assert (Hlast : forall l d, In (d + Z.of_nat (length l), 0) (block d (l ++ [0]))).
    { induction l as [|v l IHl]; intros d; simpl.
      - left. f_equal. lia.
      - right. replace (d + Z.of_nat (S (length l)))
          with (d + 1 + Z.of_nat (length l)) by lia. apply IHl. }
    split.
    + rewrite Hlen, length_app, chars_length, length_replicate. lia.
    + replace (S (count - strlen src)) with ((count - strlen src) + 1)%nat by lia.
      rewrite replicate_add, app_assoc. simpl replicate.
      specialize (Hlast (chars src ++ replicate (count - strlen src) 0) 0).
      rewrite length_app, chars_length, length_replicate in Hlast.
      replace (0 + Z.of_nat (strlen src + (count - strlen src)))
        with (Z.of_nat count) in Hlast by lia.
      exact Hlast.
Qed.

Lemma strncpy_stores_witness :
  (strlen (lit "a") < 3)%nat
  /\ strncpy (lit "a") 3 = [(0, 97); (1, 0); (2, 0); (3, 0)].
Proof.
  assert (H : (strlen (lit "a") < 3)%nat) by (vm_compute; lia).
  split; [exact H|].
  destruct (proj2 (strncpy_stores (lit "a") 3) H) as [E _].
  rewrite E. reflexivity.
Defined.

(** X13. [strcat] into a buffer with room for both strings and the
    terminator leaves, read back as a C string, the characters of [dest]
    followed by those of [src]. *)
Theorem strcat_appends (dest src : cstr) :
  (strlen dest + strlen src < length dest)%nat ->
  chars (strcat dest src) = chars dest ++ chars src
  /\ length (strcat dest src) = length dest.
Proof.
  intros Hfit. unfold strcat, strcat_stores.
  rewrite strcpy_from_block, write_block
    by (rewrite length_app, chars_length; simpl; lia).
  rewrite take_chars, length_app, chars_length. simpl length. split.
  - rewrite <- (app_assoc (chars src)). simpl. rewrite app_assoc.
    apply chars_terminated. apply Forall_app_2; apply chars_nonzero.
  - rewrite !length_app, !chars_length. simpl. rewrite length_drop. lia.
Qed.

Lemma strcat_appends_witness :
  (strlen (lit "ntdll" ++ replicate 8 0%Z) + strlen (lit ".dll")
   < length (lit "ntdll" ++ replicate 8 0%Z))%nat
  /\ chars (strcat (lit "ntdll" ++ replicate 8 0%Z) (lit ".dll")) = lit "ntdll.dll".
Proof.
  assert (H : (strlen (lit "ntdll" ++ replicate 8 0%Z) + strlen (lit ".dll")
               < length (lit "ntdll" ++ replicate 8 0%Z))%nat)
    by (vm_compute; lia).
  split; [exact H|].
  destruct (strcat_appends _ _ H) as [E _]. rewrite E. reflexivity.
Defined.

Lemma strncat_from_block (count : nat) : forall (src : cstr) (d : Z),
  strncat_from d src count = block d (take count (chars src) ++ [0]).
Proof.
  induction count as [|count IH]; intros src d.
  - reflexivity.
  - cbn [strncat_from].
    destruct (Z.eqb_spec (peek src) 0) as [E|N].
    + apply chars_nil_iff in E. rewrite E. reflexivity.
    + rewrite (chars_peek_advance src N). simpl. rewrite IH. reflexivity.
Qed.

(** X14. [strncat] into a buffer with room appends at most [count]
    characters of [src] and always a terminator: read back, the result is
    the characters of [dest] followed by the first [count] of [src]. *)
Theorem strncat_appends_prefix (dest src : cstr) (count : nat) :
  (strlen dest + Nat.min count (strlen src) < length dest)%nat ->
  chars (strncat dest src count) = chars dest ++ take count (chars src)
  /\ length (strncat dest src count) = length dest.
Proof.
  intros Hfit. unfold strncat.
  assert (Hl : length (take count (chars src)) = Nat.min count (strlen src)).
  { rewrite length_take, chars_length. reflexivity. }
  rewrite strncat_from_block, write_block
    by (rewrite length_app, Hl; simpl; lia).
  rewrite take_chars, length_app, Hl. simpl length. split.
  - rewrite <- (app_assoc (take count (chars src))). simpl. rewrite app_assoc.
    apply chars_terminated. apply Forall_app_2; [apply chars_nonzero|].
    apply Forall_take, chars_nonzero.
  - rewrite !length_app, chars_length, Hl. simpl. rewrite length_drop. lia.
Qed.

Lemma strncat_appends_prefix_witness :
  (strlen (lit "ntdll" ++ replicate 8 0%Z) + Nat.min 2 (strlen (lit ".dll"))
   < length (lit "ntdll" ++ replicate 8 0%Z))%nat
  /\ chars (strncat (lit "ntdll" ++ replicate 8 0%Z) (lit ".dll") 2) = lit "ntdll.d".
Proof.
  assert (H : (strlen (lit "ntdll" ++ replicate 8 0%Z) + Nat.min 2 (strlen (lit ".dll"))
               < length (lit "ntdll" ++ replicate 8 0%Z))%nat)
    by (vm_compute; lia).
  split; [exact H|].
  destruct (strncat_appends_prefix _ _ 2%nat H) as [E _]. rewrite E. reflexivity.
Defined.

End StringRoutines.

(** ** platform/windows/common.h: the module search of user mode *)

Section ModuleSearch.

Import Crt0 Crt0Str Windows WindowsWide Case.

Lemma to_lower_zero_iff (c : Z) : to_lower c = 0 <-> c = 0.
Proof.
  unfold to_lower, chr_A, chr_Z, chr_a.
  destruct (Z.leb_spec 65 c), (Z.leb_spec c 90); simpl; lia.
Qed.

Lemma to_lower_ascii (c : Z) : is_ascii c -> uint16 (to_lower c) = to_lower c.
Proof.
  unfold is_ascii, to_lower, uint16, chr_A, chr_Z, chr_a. intros H.
  destruct (Z.leb_spec 65 c), (Z.leb_spec c 90); simpl;
    apply Z.mod_small; lia.
Qed.

Lemma is_ascii_peek (s : cstr) : Forall is_ascii s -> is_ascii (peek s).
Proof. intros [|c s' Hc _]; simpl; [unfold is_ascii; lia | exact Hc]. Qed.

Lemma wcsicmp_unfold (lhs rhs : cstr) :
  _wcsicmp lhs rhs =
  if negb (to_lower (peek lhs) =? 0) && (to_lower (peek lhs) =? to_lower (peek rhs))
  then _wcsicmp (advance lhs) (advance rhs)
  else to_lower (peek lhs) - to_lower (peek rhs).
Proof. destruct lhs; reflexivity. Qed.

Lemma wcsicmp_zero_iff (s : cstr) : forall t : cstr,
  _wcsicmp s t = 0 <-> same_name s t.
Proof.
  unfold same_name.
  assert (Hend : forall s t : cstr, peek s = 0 ->
            (to_lower (peek s) - to_lower (peek t) = 0
             <-> map to_lower (chars s) = map to_lower (chars t))).
  { intros s' t E. rewrite E. change (to_lower 0) with 0.
    apply chars_nil_iff in E. rewrite E. simpl. split.
    - intros H. assert (Ht : to_lower (peek t) = 0) by lia.
      apply to_lower_zero_iff, chars_nil_iff in Ht. rewrite Ht. reflexivity.
    - intros H. symmetry in H. apply map_eq_nil in H.
      apply chars_nil_iff in H. rewrite H. reflexivity. }
  induction s as [|a s IH]; intros t; rewrite wcsicmp_unfold.
  - change (to_lower (peek [])) with 0. simpl negb. cbv iota. simpl andb. cbv iota.
    apply (Hend [] t). reflexivity.
  - change (peek (a :: s)) with a. change (advance (a :: s)) with s.
    destruct (Z.eqb_spec (to_lower a) 0) as [E0|N0]; simpl negb; simpl andb;
      cbv iota.
    + apply (Hend (a :: s) t). apply to_lower_zero_iff. exact E0.
    + assert (Ha : peek (a :: s) <> 0) by (intros E; apply N0, to_lower_zero_iff, E).
      rewrite (chars_peek_advance (a :: s) Ha).
      change (peek (a :: s)) with a. change (advance (a :: s)) with s.
      destruct (Z.eqb_spec (to_lower a) (to_lower (peek t))) as [E|N].
      * assert (Hb : peek t <> 0).
        { intros Eb. apply N0. rewrite E, Eb. reflexivity. }
        rewrite (chars_peek_advance t Hb). rewrite IH.
        simpl. split.
        -- intros ->. rewrite E. reflexivity.
        -- intros X. injection X. auto.
      * split; [lia|]. intros X. exfalso. apply N.
        destruct (Z.eq_dec (peek t) 0) as [Eb|Hb].
        -- apply chars_nil_iff in Eb. rewrite Eb in X. discriminate X.
        -- rewrite (chars_peek_advance t Hb) in X. simpl in X. injection X. auto.
Qed.

Lemma wcsicmpa_wcsicmp (s : cstr) : forall t : cstr,
  Forall is_ascii t -> _wcsicmpa s t = _wcsicmp s t.
Proof.
  induction s as [|a s IH]; intros t Ht; simpl;
    rewrite (to_lower_ascii _ (is_ascii_peek t Ht)); [reflexivity|].
  rewrite (IH (advance t)) by (apply Forall_advance; exact Ht). reflexivity.
Qed.

(** X15. [_wcsicmp] returns zero exactly when the two strings are equal up
    to the case of ASCII letters, and swapping the arguments negates the
    result. *)
Theorem wcsicmp_equal_up_to_case (s t : cstr) :
  (_wcsicmp s t = 0 <-> same_name s t)
  /\ _wcsicmp t s = - _wcsicmp s t.
Proof.
  split; [apply wcsicmp_zero_iff|].
  revert t. induction s as [|a s IH]; intros t;
    rewrite (wcsicmp_unfold t), (wcsicmp_unfold _ t).
  - change (to_lower (peek [])) with 0.
    destruct (Z.eqb_spec (to_lower (peek t)) 0) as [E|N]; simpl; lia.
  - change (peek (a :: s)) with a. change (advance (a :: s)) with s.
    destruct (Z.eqb_spec (to_lower a) (to_lower (peek t))) as [E|N].
    + rewrite <- E, Z.eqb_refl.
      destruct (to_lower a =? 0); simpl; [lia | apply IH].
    + destruct (Z.eqb_spec (to_lower (peek t)) (to_lower a)) as [E'|_];
        [congruence|].
      rewrite !andb_false_r. lia.
Qed.

Lemma find_module_impl_ext (f g : cstr -> bool) (L : list LDR_DATA_TABLE_ENTRY) :
  Forall (fun Ldr => f (BaseDllName Ldr) = g (BaseDllName Ldr)) L ->
  usermode_find_module_impl f L = usermode_find_module_impl g L.
Proof.
  induction 1 as [|Ldr L E _ IH]; simpl; [reflexivity|].
  rewrite E, IH. reflexivity.
Qed.

Lemma find_module_impl_first (f : cstr -> bool) (L : list LDR_DATA_TABLE_ENTRY) :
  (exists (i : nat) Ldr,
     L !! i = Some Ldr /\ f (BaseDllName Ldr) = true
     /\ Forall (fun Ldr' => f (BaseDllName Ldr') = false) (take i L)
     /\ usermode_find_module_impl f L = DllBase Ldr)
  \/ (Forall (fun Ldr' => f (BaseDllName Ldr') = false) L
      /\ usermode_find_module_impl f L = 0).
Proof.
  induction L as [|Ldr L IH]; simpl.
  - right. split; [constructor | reflexivity].
  - destruct (f (BaseDllName Ldr)) eqn:E.
    + left. exists O, Ldr. repeat split; [exact E | constructor].
    + destruct IH as [(i & Ldr' & Hi & Hf & Hpre & Hr) | [Hall Hr]].
      * left. exists (S i), Ldr'. split; [exact Hi|]. split; [exact Hf|].
        split; [|exact Hr]. simpl. constructor; assumption.
      * right. split; [constructor; assumption | exact Hr].
Qed.

Lemma wcsicmpa_accepts (name module : cstr) :
  Forall is_ascii name ->
  ((_wcsicmpa module name =? 0) = true <-> same_name module name).
Proof.
  intros Hn. rewrite wcsicmpa_wcsicmp by exact Hn.
  rewrite Z.eqb_eq. apply wcsicmp_zero_iff.
Qed.

Lemma wcsicmpa_rejects (name module : cstr) :
  Forall is_ascii name ->
  ((_wcsicmpa module name =? 0) = false <-> ~ same_name module name).
Proof.
  intros Hn. rewrite <- (wcsicmpa_accepts name module Hn).
  destruct (_wcsicmpa module name =? 0); split; intros H; congruence.
Qed.

(** X16. For an ASCII [name], [find_module (name)] returns [DllBase] of the
    first entry of the load-order list whose [BaseDllName] equals [name] up
    to the case of ASCII letters, and null when the list has none; the
    overload that takes a wide name returns the same. *)
Theorem find_module_first_match (L : list LDR_DATA_TABLE_ENTRY) (name : cstr) :
  Forall is_ascii name ->
  usermode_find_module_wide L name = usermode_find_module L name
  /\ ((exists (i : nat) Ldr,
         L !! i = Some Ldr /\ same_name (BaseDllName Ldr) name
         /\ Forall (fun Ldr' => ~ same_name (BaseDllName Ldr') name) (take i L)
         /\ usermode_find_module L name = DllBase Ldr)
      \/ (Forall (fun Ldr' => ~ same_name (BaseDllName Ldr') name) L
          /\ usermode_find_module L name = 0)).
Proof.
  intros Hn. split.
  - unfold usermode_find_module_wide, usermode_find_module.
    apply find_module_impl_ext. apply Forall_forall. intros Ldr _. simpl.
    rewrite wcsicmpa_wcsicmp by exact Hn. reflexivity.
  - unfold usermode_find_module.
    destruct (find_module_impl_first (fun module => _wcsicmpa module name =? 0) L)
      as [(i & Ldr & Hi & Hf & Hpre & Hr) | [Hall Hr]].
    + left. exists i, Ldr. split; [exact Hi|].
      split; [apply (wcsicmpa_accepts name _ Hn); exact Hf|].
      split; [|exact Hr].
      eapply Forall_impl; [exact Hpre|]. intros Ldr' H.
      apply (wcsicmpa_rejects name _ Hn). exact H.
    + right. split; [|exact Hr].
      eapply Forall_impl; [exact Hall|]. intros Ldr' H.
      apply (wcsicmpa_rejects name _ Hn). exact H.
Qed.

Lemma find_module_first_match_witness :
  Forall is_ascii (lit "KERNEL32.dll")
  /\ usermode_find_module_wide Examples.process (lit "KERNEL32.dll")
     = usermode_find_module Examples.process (lit "KERNEL32.dll")
  /\ usermode_find_module Examples.process (lit "KERNEL32.dll") = 0x76000000.
Proof.
  assert (H : Forall is_ascii (lit "KERNEL32.dll")).
  { repeat constructor; unfold is_ascii; simpl; lia. }
  split; [exact H|]. split.
  - exact (proj1 (find_module_first_match Examples.process _ H)).
  - destruct (proj2 (find_module_first_match Examples.process _ H))
      as [(i & Ldr & _ & _ & _ & _) | [_ Hr]]; [reflexivity | discriminate Hr].
Defined.

Lemma same_name_trans (a b c : cstr) :
  same_name a b -> same_name b c -> same_name a c.
Proof. unfold same_name. congruence. Qed.

Lemma same_name_sym (a b : cstr) : same_name a b -> same_name b a.
Proof. unfold same_name. congruence. Qed.

Lemma lit_ntdll_ascii : Forall is_ascii (lit "ntdll.dll").
Proof. repeat constructor; unfold is_ascii; simpl; lia. Qed.

Lemma lit_kernel32_ascii : Forall is_ascii (lit "kernel32.dll").
Proof. repeat constructor; unfold is_ascii; simpl; lia. Qed.

Lemma stricmp_accepts (name fixed : cstr) :
  Forall is_ascii name -> Forall is_ascii fixed ->
  ((_stricmp name fixed =? 0) = true <-> same_name name fixed).
Proof.
  intros Hn Hf. rewrite Z.eqb_eq. apply stricmp_zero_iff; assumption.
Qed.

(** X17. Under the standard load order the fast paths of user mode return
    what the full search returns: for every ASCII name,
    [mode_traits<user_mode>::find_module] gives the result of the walk of
    the load-order list, whether or not the build has
    [SCFW_ENABLE_FULL_MODULE_SEARCH]. *)
Theorem fast_path_agrees_with_search {W : Type} {Mem : memory W}
    (F : Dispatch.features) (name : cstr) (w : W) :
  Forall is_ascii name ->
  standard_load_order (InLoadOrderModuleList w) ->
  UserMode.mode_find_module F name w
  = usermode_find_module (InLoadOrderModuleList w) name.
Proof.
  intros Hn (exe & ntdll & kernel32 & rest & HL & Hexe1 & Hexe2 & Hnt & Hk).
  unfold UserMode.mode_find_module.
  destruct (Dispatch.SCFW_ENABLE_FULL_MODULE_SEARCH F); [reflexivity|].
  simpl negb. cbv iota. simpl andb.
  assert (Hmod : forall j : nat, (j <= 3)%nat ->
            (j mod S (length (InLoadOrderModuleList w)) = j)%nat).
  { intros j Hj. apply Nat.mod_small. rewrite HL. simpl. lia. }
  destruct (_stricmp name (lit "ntdll.dll") =? 0) eqn:E1.
  - apply (stricmp_accepts name _ Hn lit_ntdll_ascii) in E1.
    unfold find_module_ntdll, DllBase_after. rewrite (Hmod 2%nat) by lia.
    rewrite HL. unfold usermode_find_module. cbn [lookup list_lookup usermode_find_module_impl].
    assert (R0 : (_wcsicmpa (BaseDllName exe) name =? 0) = false).
    { apply (wcsicmpa_rejects name _ Hn). intros H. apply Hexe1.
      exact (same_name_trans _ _ _ H E1). }
    assert (R1 : (_wcsicmpa (BaseDllName ntdll) name =? 0) = true).
    { apply (wcsicmpa_accepts name _ Hn).
      exact (same_name_trans _ _ _ Hnt (same_name_sym _ _ E1)). }
    rewrite R0, R1. reflexivity.
  - destruct (_stricmp name (lit "kernel32.dll") =? 0) eqn:E2; [|reflexivity].
    apply (stricmp_accepts name _ Hn lit_kernel32_ascii) in E2.
    unfold find_module_kernel32, DllBase_after. rewrite (Hmod 3%nat) by lia.
    rewrite HL. unfold usermode_find_module. cbn [lookup list_lookup usermode_find_module_impl].
    assert (R0 : (_wcsicmpa (BaseDllName exe) name =? 0) = false).
    { apply (wcsicmpa_rejects name _ Hn). intros H. apply Hexe2.
      exact (same_name_trans _ _ _ H E2). }
    assert (R1 : (_wcsicmpa (BaseDllName ntdll) name =? 0) = false).
    { apply (wcsicmpa_rejects name _ Hn). intros H.
      assert (X : same_name (lit "ntdll.dll") (lit "kernel32.dll")).
      { exact (same_name_trans _ _ _ (same_name_sym _ _ Hnt)
                 (same_name_trans _ _ _ H E2)). }
      discriminate X. }
    assert (R2 : (_wcsicmpa (BaseDllName kernel32) name =? 0) = true).
    { apply (wcsicmpa_accepts name _ Hn).
      exact (same_name_trans _ _ _ Hk (same_name_sym _ _ E2)). }
    rewrite R0, R1, R2. reflexivity.
Qed.

End ModuleSearch.

Section ModuleSearchExample.

Import Crt0 Windows WindowsWide Case Examples.

Lemma process_standard_load_order : standard_load_order process.
Proof.
  eexists _, _, _, _. split; [reflexivity|].
  repeat split; try reflexivity; intros H; discriminate H.
Defined.

Lemma fast_path_agrees_with_search_witness :
  Forall is_ascii (lit "Kernel32.DLL")
  /\ standard_load_order (InLoadOrderModuleList tt)
  /\ UserMode.mode_find_module default_build (lit "Kernel32.DLL") tt = 0x76000000.
Proof.
  assert (H : Forall is_ascii (lit "Kernel32.DLL")).
  { repeat constructor; unfold is_ascii; simpl; lia. }
  assert (Hs : standard_load_order (InLoadOrderModuleList tt))
    by exact process_standard_load_order.
  split; [exact H|]. split; [exact Hs|].
  rewrite (fast_path_agrees_with_search default_build (lit "Kernel32.DLL") tt H Hs).
  reflexivity.
Defined.

End ModuleSearchExample.

(** ** platform/windows/common.h: lookups by hash and by name *)

Section HashedLookup.

Import Crt0 Crt0Str Fnv1a Windows.

Lemma fnv1a_loop_chars (s : cstr) : forall hash : Z,
  fnv1a_loop s (strlen s) hash
  = fold_left (fun h c => uint32 (uint32 (Z.lxor h (fold (uint8 c))) * 0x01000193))
      (chars s) hash.
Proof.
  induction s as [|c s IH]; intros hash; [reflexivity|].
  rewrite chars_cons. simpl strlen.
  destruct (c =? 0); [reflexivity|]. simpl. apply IH.
Qed.

Lemma fnv1a_hash_chars (s t : cstr) :
  chars s = chars t -> fnv1a_hash s = fnv1a_hash t.
Proof.
  intros E. unfold fnv1a_hash, fnv1a_hash_n.
  rewrite !fnv1a_loop_chars, E. reflexivity.
Qed.

Lemma scan_exports_ext ldr image_at forwarder lookup module
    (f g : cstr -> bool) (n : nat) :
  (forall Index, 0 <= Index < Z.of_nat n ->
     f (export_name (image_at module) Index) = g (export_name (image_at module) Index)) ->
  scan_exports ldr image_at forwarder lookup module f n
  = scan_exports ldr image_at forwarder lookup module g n.
Proof.
  induction n as [|n IH]; intros H; [reflexivity|].
  cbn [scan_exports]. rewrite (H (Z.of_nat n)) by lia.
  rewrite IH; [reflexivity|]. intros Index Hi. apply H. lia.
Qed.

(** X18. A lookup by hash returns what the lookup by name returns, as long
    as no other export of the module has the hash of the name: the two
    differ only through hash collisions in the export table. *)
Theorem lookup_by_hash_is_lookup_by_name ldr image_at (fuel : nat) (forwarder : bool)
    (module : Z) (name : cstr) :
  Forall is_byte name ->
  (forall Index, 0 <= Index < NumberOfNames (image_at module) ->
     let export := export_name (image_at module) Index in
     Forall is_byte export
     /\ (fnv1a_hash export = fnv1a_hash name -> chars export = chars name)) ->
  lookup_symbol_hash ldr image_at fuel forwarder module (fnv1a_hash name)
  = lookup_symbol ldr image_at fuel forwarder module name.
Proof.
  intros Hn Hexp.
  assert (Hscan : forall lookup,
            lookup_symbol_impl ldr image_at forwarder lookup module
              (by_hash (fnv1a_hash name))
            = lookup_symbol_impl ldr image_at forwarder lookup module (by_name name)).
  { intros lookup. unfold lookup_symbol_impl.
    destruct (module =? 0); [reflexivity|]. apply scan_exports_ext.
    intros Index Hi. destruct (Hexp Index ltac:(lia)) as [Hb Hcol].
    unfold by_hash, by_name.
    destruct (strcmp_spec _ name Hb Hn) as [Hz _].
    destruct (Z.eqb_spec (strcmp (export_name (image_at module) Index) name) 0)
      as [E|N].
    - apply Z.eqb_eq. apply fnv1a_hash_chars. apply Hz. exact E.
    - apply Z.eqb_neq. intros E. apply N, Hz, Hcol. exact E. }
  unfold lookup_symbol_hash. destruct fuel; simpl; apply Hscan.
Qed.

End HashedLookup.

Section HashedLookupExample.

Import Crt0 Crt0Str Fnv1a Windows.

Lemma lookup_by_hash_is_lookup_by_name_witness :
  Forall is_byte (lit "Sleep")
  /\ lookup_symbol_hash Examples.process (fun _ => Examples.kernel32) 0 false
       0x76000000 (fnv1a_hash (lit "Sleep"))
     = Some (0x76000000 + 0x2000).
Proof.
  assert (Hn : Forall is_byte (lit "Sleep")).
  { repeat constructor; unfold is_byte; simpl; lia. }
  split; [exact Hn|].
  rewrite (lookup_by_hash_is_lookup_by_name Examples.process
             (fun _ => Examples.kernel32) 0 false 0x76000000 (lit "Sleep") Hn).
  - reflexivity.
  - intros Index Hi. simpl in Hi.
    assert (Hcases : Index = 0 \/ Index = 1 \/ Index = 2) by lia.
    destruct Hcases as [-> | [-> | ->]]; cbv zeta; split;
      try (repeat constructor; unfold is_byte; simpl; lia);
      try reflexivity;
      vm_compute; intros X; discriminate X.
Defined.

End HashedLookupExample.

(** ** platform/windows/common.h: the forwarder branch *)

Section Forwarders.

Import Crt0 Crt0Str Windows WindowsWide.

Lemma scan_dot_spec (F : cstr) :
  snd (scan_dot F) = drop (fst (scan_dot F)) F
  /\ Forall (fun c => c <> 0) (take (fst (scan_dot F)) F)
  /\ (fst (scan_dot F) <= strlen F)%nat
  /\ (peek (snd (scan_dot F)) <> 0 -> peek (snd (scan_dot F)) = chr_dot).
Proof.
  induction F as [|c F IH]; simpl.
  - repeat split; [constructor | lia | intros H; contradiction].
  - destruct (Z.eqb_spec c 0) as [->|Nc]; simpl.
    + repeat split; [constructor | lia | intros H; contradiction].
    + destruct (Z.eqb_spec c chr_dot) as [->|Nd]; simpl.
      * repeat split; [constructor | lia].
      * destruct (scan_dot F) as [n stop]. simpl in *.
        destruct IH as (Hd & Hnz & Hle & Hdot).
        split; [exact Hd|]. split; [constructor; assumption|].
        split; [lia | exact Hdot].
Qed.

Lemma wcsicmpa_chars (m : cstr) : forall t t' : cstr,
  chars t = chars t' -> _wcsicmpa m t = _wcsicmpa m t'.
Proof.
  assert (Hpeek : forall t t' : cstr, chars t = chars t' -> peek t = peek t').
  { intros t t' E. destruct (Z.eq_dec (peek t) 0) as [E0|N0].
    - rewrite E0. apply chars_nil_iff in E0. rewrite E0 in E. symmetry in E.
      apply chars_nil_iff in E. congruence.
    - destruct (Z.eq_dec (peek t') 0) as [E0'|N0'].
      + apply chars_nil_iff in E0'. rewrite E0' in E.
        apply chars_nil_iff in E. contradiction.
      + rewrite (chars_peek_advance t N0), (chars_peek_advance t' N0') in E.
        injection E. auto. }
  induction m as [|a m IH]; intros t t' E; simpl; rewrite (Hpeek t t' E);
    [reflexivity|].
  destruct (Z.eq_dec (peek t') 0) as [E0|N0].
  - rewrite E0. change (uint16 (to_lower 0)) with 0.
    destruct (to_lower a =? 0); reflexivity.
  - assert (N : peek t <> 0) by (rewrite (Hpeek t t' E); exact N0).
    rewrite (chars_peek_advance t N), (chars_peek_advance t' N0) in E.
    injection E as _ E. rewrite (IH _ _ E). reflexivity.
Qed.

Lemma DllName_holds_target (F : cstr) (n : nat) :
  (strlen F < 64)%nat -> (n + 5 <= 64)%nat -> (n <= strlen F)%nat ->
  Forall (fun c => c <> 0) (take n F) ->
  chars (DllName_after (DllName_stores F (Z.of_nat n))) = take n F ++ lit ".dll".
Proof.
  intros Hfit Hguard Hn Hnz.
  unfold DllName_after, DllName_stores. rewrite foldl_app.
  change (Z.to_nat sizeof_DllName) with 64%nat.
  pose proof (write_strcpy (replicate 64 0) F) as H1. unfold write in H1.
  rewrite H1 by (rewrite length_replicate; exact Hfit). clear H1.
  set (B1 := chars F ++ 0 :: drop (S (strlen F)) (replicate 64 0)).
  assert (HB1 : length B1 = 64%nat).
  { subst B1. rewrite length_app, chars_length, length_cons.
    rewrite length_drop, length_replicate. lia. }
  assert (Hfive : [(Z.of_nat n + 0, chr_dot); (Z.of_nat n + 1, 100);
                   (Z.of_nat n + 2, 108); (Z.of_nat n + 3, 108);
                   (Z.of_nat n + 4, 0)]
                  = block (Z.of_nat n) (lit ".dll" ++ [0])).
  { change (lit ".dll" ++ [0]) with [chr_dot; 100; 108; 108; 0]. cbn [block].
    repeat (apply (f_equal2 cons); [apply (f_equal2 pair); [lia | reflexivity]|]).
    reflexivity. }
  rewrite Hfive.
  pose proof (write_block (lit ".dll" ++ [0]) n B1) as H2. unfold write in H2.
  rewrite H2 by (rewrite HB1; simpl; lia). clear H2.
  assert (Htake : take n B1 = take n F).
  { subst B1. rewrite take_app_le by (rewrite chars_length; exact Hn).
    unfold chars. rewrite take_take. f_equal. lia. }
  rewrite Htake.
  match goal with |- chars (_ ++ _ ++ ?X) = _ =>
    replace (take n F ++ (lit ".dll" ++ [0]) ++ X)
      with ((take n F ++ lit ".dll") ++ 0 :: X)
      by (rewrite <- !app_assoc; reflexivity)
  end.
  apply chars_terminated.
  apply Forall_app_2; [exact Hnz|].
  repeat constructor; simpl; lia.
Qed.

(** X19. The forwarder branch, for a forwarder string ["MODULE.Function"]
    that fits [DllName] whole: the branch searches the load-order list for
    ["MODULE.dll"], and returns null if it is not loaded, else the result of
    [lookup_symbol] for ["Function"] in the module found. *)
Theorem forwarder_resolves_in_target ldr
    (lookup : Z -> cstr -> option Z) (image : IMAGE) (FunctionRVA : Z) :
  let ForwardStr := string_at image FunctionRVA in
  let n := fst (scan_dot ForwardStr) in
  let Dot := snd (scan_dot ForwardStr) in
  peek Dot <> 0 ->
  (strlen ForwardStr < 64)%nat ->
  (n + 5 <= 64)%nat ->
  peek (advance Dot) <> chr_hash ->
  let TargetModule := usermode_find_module ldr (take n ForwardStr ++ lit ".dll") in
  Dot = drop n ForwardStr
  /\ peek Dot = chr_dot
  /\ snd (resolve_forwarder ldr lookup image FunctionRVA)
     = if TargetModule =? 0 then Some 0 else lookup TargetModule (advance Dot).
Proof.
  intros ForwardStr n Dot HDot Hfit Hguard Hfn TargetModule.
  destruct (scan_dot_spec ForwardStr) as (Hdrop & Hnz & Hle & Hisdot).
  fold n in Hdrop, Hnz, Hle. fold Dot in Hdrop, Hisdot.
  split; [exact Hdrop|]. split; [exact (Hisdot HDot)|].
  unfold resolve_forwarder. fold ForwardStr.
  assert (Hpair : scan_dot ForwardStr = (n, Dot)).
  { subst n Dot. destruct (scan_dot ForwardStr); reflexivity. }
  rewrite Hpair.
  destruct (Z.eqb_spec (peek Dot) 0) as [|_]; [contradiction|].
  destruct (Z.gtb_spec (Z.of_nat n + 5) sizeof_DllName) as [Hgt|_].
  { unfold sizeof_DllName in Hgt. lia. }
  destruct (Z.eqb_spec (peek (advance Dot)) chr_hash) as [|_]; [contradiction|].
  assert (Hfind : usermode_find_module ldr
                    (DllName_after (DllName_stores ForwardStr (Z.of_nat n)))
                  = TargetModule).
  { subst TargetModule. unfold usermode_find_module.
    apply find_module_impl_ext. apply Forall_forall. intros Ldr _. simpl.
    f_equal. apply wcsicmpa_chars.
    rewrite (DllName_holds_target ForwardStr n Hfit Hguard Hle Hnz).
    symmetry. apply chars_all_nonzero.
    apply Forall_app_2; [exact Hnz|]. repeat constructor; simpl; lia. }
  rewrite Hfind. destruct (TargetModule =? 0); reflexivity.
Qed.

Lemma forwarder_resolves_in_target_witness :
  let image := {|
    ExportDirRVA := 0x80; ExportDirSize := 0x200; NumberOfNames := 1;
    Names := Examples.table_of [0x100]; Ordinals := Examples.table_of [0];
    Functions := Examples.table_of [0x140];
    string_at := Examples.strings_of
      [(0x100, "HeapAlloc"%string); (0x140, "NTDLL.RtlAllocateHeap"%string)] |} in
  peek (snd (scan_dot (string_at image 0x140))) <> 0
  /\ snd (resolve_forwarder Examples.process (fun m _ => Some (m + 0x5000)) image 0x140)
     = Some (0x77000000 + 0x5000).
Proof.
  intros image.
  assert (H1 : peek (snd (scan_dot (string_at image 0x140))) <> 0)
    by (vm_compute; lia).
  split; [exact H1|].
  destruct (forwarder_resolves_in_target Examples.process
              (fun m _ => Some (m + 0x5000)) image 0x140 H1)
    as (_ & _ & E).
  - vm_compute. lia.
  - vm_compute. lia.
  - vm_compute. lia.
  - rewrite E. reflexivity.
Defined.

End Forwarders.

(** ** platform/windows/common.h: the module enumeration of kernel mode *)

Section KernelEnumeration.

Import Kernelmode PoolTraffic.

Lemma query_loop_balanced (replies : list reply) :
  forall (pool : list Z) (f f' : frame),
    pool_balanced f ->
    query_loop pool replies f = Some f' ->
    pool_balanced f'.
Proof.
  induction replies as [|r replies IH]; intros pool f f' Hinv; [discriminate|].
  cbn [query_loop].
  destruct (Z.eqb_spec (RequiredLength f) 0) as [E0|N0]; simpl negb; cbv iota.
  - set (f2 := {| Buffer := _ |}).
    assert (H2 : pool_balanced f2).
    { unfold pool_balanced, allocations, frees in Hinv |- *. subst f2. simpl.
      rewrite !omap_app. simpl. rewrite !app_nil_r. exact Hinv. }
    destruct (Status r =? STATUS_INFO_LENGTH_MISMATCH).
    + intros H. exact (IH _ _ _ H2 H).
    + intros H. injection H as <-. exact H2.
  - destruct pool as [|P pool]; [discriminate|].
    set (f2 := {| Buffer := _ |}).
    assert (H2 : pool_balanced f2).
    { unfold pool_balanced, allocations, frees in Hinv |- *. subst f2. simpl.
      rewrite !omap_app. simpl. rewrite !app_nil_r.
      destruct Hinv as [(Ha & Hb & Hf) | (earlier & Ha & Hf)].
      - right. exists []. rewrite Hb. simpl. rewrite Ha, Hf. split; reflexivity.
      - right. exists (earlier ++ [Buffer f]).
        destruct (Z.eqb_spec (Buffer f) 0) as [Eb|Nb]; simpl.
        + rewrite Ha, Hf. split; [reflexivity|].
          rewrite filter_app, Eb. simpl. rewrite app_nil_r. reflexivity.
        + rewrite !omap_app. simpl. rewrite ?app_nil_r, Ha, Hf. split; [reflexivity|].
          rewrite filter_app. f_equal.
          rewrite filter_cons_True by exact Nb. reflexivity. }
    destruct (Status r =? STATUS_INFO_LENGTH_MISMATCH).
    + intros H. exact (IH _ _ _ H2 H).
    + intros H. injection H as <-. exact H2.
Qed.

(** X20. Whenever [kernelmode::find_module_impl] returns from a run that
    scanned no null buffer, it has allocated at least one block, the last
    one is not null, and the calls of [ExFreePool] are the blocks it
    allocated that are not null, each once, in the order of allocation:
    [ExFreePool] is not called on null. *)
Theorem find_module_impl_pool_traffic (k : kernel) (comparator : cstr -> bool)
    (Result : Z) (events : list event) :
  find_module_impl k comparator = Some (Result, events) ->
  (forall was_filled, ~ In (EvScan 0 was_filled) events) ->
  exists earlier P,
    P <> 0
    /\ allocations events = earlier ++ [P]
    /\ frees events = filter (fun Q => Q <> 0) (earlier ++ [P]).
Proof.
  unfold find_module_impl.
  destruct (query_loop _ _ _) as [f|] eqn:E; [|discriminate].
  destruct (read_modules k f) as [Modules|]; [|discriminate].
  intros H Hscan. injection H as _ <-.
  assert (Hb : Buffer f <> 0).
  { intros E0. apply (Hscan (bool_decide (is_Some (filled f !! Buffer f)))).
    apply in_or_app. right. left. rewrite E0. reflexivity. }
  assert (H0 : pool_balanced
                 {| Buffer := 0; BufferLength := 0; RequiredLength := 0;
                    filled := ∅; log := [] |}).
  { left. repeat split. }
  pose proof (query_loop_balanced _ _ _ _ H0 E) as Hf.
  unfold pool_balanced in Hf. unfold allocations, frees in *.
  rewrite !omap_app. simpl. rewrite app_nil_r.
  destruct Hf as [(_ & Hz & _) | (earlier & Ha & Hfr)]; [contradiction|].
  exists earlier, (Buffer f). split; [exact Hb|]. rewrite Ha, Hfr.
  split; [reflexivity|].
  rewrite filter_app. f_equal.
  rewrite filter_cons_True by exact Hb. reflexivity.
Qed.

Lemma find_module_impl_pool_traffic_witness :
  find_module Examples.failing_late (lit "ksecdd.sys")
  = Some (0x7000,
          [ EvQuery 0 0 STATUS_INFO_LENGTH_MISMATCH; EvAlloc 0x128 0x5000;
            EvQuery 0x5000 0x128 0xC000009A; EvScan 0x5000 false;
            EvFree 0x5000 ])
  /\ allocations
       [ EvQuery 0 0 STATUS_INFO_LENGTH_MISMATCH; EvAlloc 0x128 0x5000;
         EvQuery 0x5000 0x128 0xC000009A; EvScan 0x5000 false;
         EvFree 0x5000 ] = [0x5000]
  /\ frees [ EvQuery 0 0 STATUS_INFO_LENGTH_MISMATCH; EvAlloc 0x128 0x5000;
            EvQuery 0x5000 0x128 0xC000009A; EvScan 0x5000 false;
            EvFree 0x5000 ] = [0x5000].
Proof.
  assert (H : find_module Examples.failing_late (lit "ksecdd.sys")
              = Some (0x7000,
                      [ EvQuery 0 0 STATUS_INFO_LENGTH_MISMATCH; EvAlloc 0x128 0x5000;
                        EvQuery 0x5000 0x128 0xC000009A; EvScan 0x5000 false;
                        EvFree 0x5000 ])) by reflexivity.
  split; [exact H|].
  destruct (find_module_impl_pool_traffic _ _ _ _ H)
    as (earlier & P & _ & Ha & Hf).
  - intros was_filled Hin. simpl in Hin.
    repeat (destruct Hin as [Hin|Hin]; [discriminate Hin|]). exact Hin.
  - split; reflexivity.
Defined.

Lemma query_loop_first_answer (pre : list reply) :
  forall (r : reply) (post : list reply) (ms : RTL_PROCESS_MODULES)
         (pool : list Z) (f : frame),
    Forall (fun p => Status p = STATUS_INFO_LENGTH_MISMATCH) pre ->
    Status r <> STATUS_INFO_LENGTH_MISMATCH ->
    Written r = Some ms ->
    (length pre + (if (RequiredLength f =? 0)%Z then 0 else 1) <= length pool)%nat ->
    exists f', query_loop pool (pre ++ r :: post) f = Some f'
               /\ filled f' !! Buffer f' = Some ms.
Proof.
  induction pre as [|p pre IH]; intros r post ms pool f Hpre Hr Hw Hpool.
  - cbn [app query_loop].
    destruct (Z.eqb_spec (Status r) STATUS_INFO_LENGTH_MISMATCH) as [|_];
      [contradiction|].
    destruct (RequiredLength f =? 0); simpl negb; cbv iota.
    + rewrite Hw. eexists. split; [reflexivity|]. simpl. apply lookup_insert_eq.
    + destruct pool as [|P pool]; [simpl in Hpool; lia|].
      rewrite Hw. eexists. split; [reflexivity|]. simpl. apply lookup_insert_eq.
  - inversion Hpre as [|? ? Hp Hpre']; subst.
    cbn [app query_loop]. rewrite Hp, Z.eqb_refl.
    assert (Hstep : forall x : Z,
              (length pre + (if (x =? 0)%Z then 0 else 1) <= length pre + 1)%nat).
    { intros x. destruct (x =? 0)%Z; lia. }
    destruct (RequiredLength f =? 0); simpl negb; cbv iota.
    + apply IH; try assumption. simpl in Hpool.
      etransitivity; [apply Hstep|]. lia.
    + destruct pool as [|P pool]; [simpl in Hpool; lia|]. simpl in Hpool.
      apply IH; try assumption. etransitivity; [apply Hstep|]. lia.
Qed.

(** X21. When the kernel answers [STATUS_INFO_LENGTH_MISMATCH] some number
    of times and then fills the buffer, and the pool serves one block per
    repeated query, [kernelmode::find_module_impl] returns, and its result is the
    scan of the module array the last query wrote. *)
Theorem find_module_impl_scans_last_answer (k : kernel) (comparator : cstr -> bool)
    (pre : list reply) (r : reply) (post : list reply) (ms : RTL_PROCESS_MODULES) :
  replies k = pre ++ r :: post ->
  Forall (fun p => Status p = STATUS_INFO_LENGTH_MISMATCH) pre ->
  Status r <> STATUS_INFO_LENGTH_MISMATCH ->
  Written r = Some ms ->
  (length pre <= length (pool k))%nat ->
  exists events,
    find_module_impl k comparator = Some (scan_modules comparator ms, events).
Proof.
  intros Hk Hpre Hr Hw Hpool. unfold find_module_impl. rewrite Hk.
  destruct (query_loop_first_answer pre r post ms (pool k)
              {| Buffer := 0; BufferLength := 0; RequiredLength := 0;
                 filled := ∅; log := [] |} Hpre Hr Hw
              ltac:(simpl; lia))
    as (f' & -> & Hfilled).
  unfold read_modules. rewrite Hfilled. eexists. reflexivity.
Qed.

Lemma find_module_impl_scans_last_answer_witness :
  replies Hosts.answering
  = [ {| Status := STATUS_INFO_LENGTH_MISMATCH; ReturnLength := Some 0x128;
         Written := None |} ]
    ++ {| Status := 0; ReturnLength := Some 0x128;
          Written := Some Examples.old_list |} :: []
  /\ exists events,
       find_module Hosts.answering (lit "KSECDD.SYS") = Some (0x7000, events).
Proof.
  split; [reflexivity|].
  destruct (find_module_impl_scans_last_answer Hosts.answering
              (fun module_name => Crt0._stricmp module_name (lit "KSECDD.SYS") =? 0)
              [ {| Status := STATUS_INFO_LENGTH_MISMATCH; ReturnLength := Some 0x128;
                   Written := None |} ]
              {| Status := 0; ReturnLength := Some 0x128;
                 Written := Some Examples.old_list |} [] Examples.old_list
              eq_refl)
    as [events E].
  - repeat constructor.
  - intros X. discriminate X.
  - reflexivity.
  - vm_compute. lia.
  - exists events. exact E.
Defined.

End KernelEnumeration.

(** ** platform/windows/kernelmode.h: the kernel image itself *)

Section KernelImage.

Import Crt0 Fnv1a Case WindowsWide.

Context {W : Type} {Mem : memory W} {Enum : KernelMode.enumeration (W := W)}.

Lemma fold_left_map_fold (l : list Z) : forall hash : Z,
  fold_left (fun h c => uint32 (uint32 (Z.lxor h (fold (uint8 c))) * 0x01000193))
    l hash
  = fold_left (fun h b => uint32 (uint32 (Z.lxor h b) * 0x01000193))
      (map (fun c => fold (uint8 c)) l) hash.
Proof. induction l as [|c l IH]; intros hash; simpl; [reflexivity | apply IH]. Qed.

Lemma fnv1a_hash_same_name (s t : cstr) :
  Forall is_ascii s -> Forall is_ascii t ->
  same_name s t -> fnv1a_hash s = fnv1a_hash t.
Proof.
  intros Hs Ht E. unfold fnv1a_hash, fnv1a_hash_n.
  rewrite !fnv1a_loop_chars, !fold_left_map_fold.
  rewrite (map_fold_of_map_lower (chars s) (chars t)
             (Forall_chars _ _ Hs) (Forall_chars _ _ Ht) E).
  reflexivity.
Qed.

(** X22. In kernel mode an import of the kernel image, under any spelling
    of ["ntoskrnl.exe"] in ASCII letters of either case, resolves to the
    kernel base the payload was entered with, by name and by hash alike,
    and leaves the host as it was: the module list of the kernel is not
    queried. *)
Theorem ntoskrnl_is_kernel_base (kernel_base : Z) (name : cstr) (w : W) :
  Forall is_ascii name ->
  same_name name (lit "ntoskrnl.exe") ->
  KernelMode.mode_find_module kernel_base name w = Some (kernel_base, w)
  /\ KernelMode.mode_find_module_hash kernel_base (fnv1a_hash name) w
     = Some (kernel_base, w).
Proof.
  intros Hn Hsame.
  assert (Hlit : Forall is_ascii (lit "ntoskrnl.exe")).
  { repeat constructor; unfold is_ascii; simpl; lia. }
  split.
  - unfold KernelMode.mode_find_module.
    rewrite (proj2 (stricmp_zero_iff name _ Hn Hlit) Hsame). reflexivity.
  - unfold KernelMode.mode_find_module_hash.
    rewrite (fnv1a_hash_same_name name _ Hn Hlit Hsame), Z.eqb_refl. reflexivity.
Qed.

End KernelImage.

Section KernelImageExample.

Import Crt0 Fnv1a Case WindowsWide Examples Hosts.

Lemma ntoskrnl_is_kernel_base_witness :
  Forall is_ascii (lit "NTOSKRNL.exe")
  /\ same_name (lit "NTOSKRNL.exe") (lit "ntoskrnl.exe")
  /\ KernelMode.mode_find_module 0x80400000 (lit "NTOSKRNL.exe") tt
     = Some (0x80400000, tt).
Proof.
  assert (H : Forall is_ascii (lit "NTOSKRNL.exe")).
  { repeat constructor; unfold is_ascii; simpl; lia. }
  assert (Hs : same_name (lit "NTOSKRNL.exe") (lit "ntoskrnl.exe")) by reflexivity.
  split; [exact H|]. split; [exact Hs|].
  exact (proj1 (ntoskrnl_is_kernel_base 0x80400000 (lit "NTOSKRNL.exe") tt H Hs)).
Defined.

End KernelImageExample.

(** ** runtime/pic.h *)

Section PositionIndependence.

Import Dispatch.

(** X23. [_pic] moves every linked address by one and the same
    displacement in 32-bit arithmetic: the linked address of [_pc] goes to
    the value [_pc ()] returns, the difference of two relocated addresses is
    the difference of the linked ones, and a payload that runs where it was
    linked gets its addresses back. *)
Theorem pic_relocates (L : layout) (a b : Z) :
  0 <= _pc L < 2 ^ 32 ->
  _pic L (addr__pc L) = _pc L
  /\ uint32 (_pic L a - _pic L b) = uint32 (a - b)
  /\ (_pc L = addr__pc L -> _pic L a = uint32 a).
Proof.
  intros Hpc. unfold _pic, uint32. split; [|split].
  - rewrite Zplus_mod_idemp_l.
    replace (_pc L - addr__pc L + addr__pc L) with (_pc L) by lia.
    apply Z.mod_small. exact Hpc.
  - rewrite !Zplus_mod_idemp_l, Zminus_mod_idemp_l, Zminus_mod_idemp_r.
    f_equal. lia.
  - intros ->. rewrite Z.sub_diag. reflexivity.
Qed.

Lemma pic_relocates_witness :
  0 <= _pc Examples.linked < 2 ^ 32
  /\ _pic Examples.linked (addr__pc Examples.linked) = 0x20010.
Proof.
  assert (H : 0 <= _pc Examples.linked < 2 ^ 32) by (simpl; lia).
  split; [exact H|].
  exact (proj1 (pic_relocates Examples.linked 0 0 H)).
Defined.

End PositionIndependence.

(** ** runtime.h: teardown *)

Section TeardownOrder.

Import Dispatch Teardown.

Context {W : Type} {P : platform W}.

Lemma unload_order_module (p : chain) (Module : cstr) (Flags : Z) (sl : list Z) :
  unload_order (IMPORT_MODULE p Module Flags) sl
  = (if has Flags SCFW_FLAG_DYNAMIC_LOAD && has Flags SCFW_FLAG_DYNAMIC_UNLOAD
        && negb (slot (Id (IMPORT_MODULE p Module Flags)) sl =? 0)
     then [slot (Id (IMPORT_MODULE p Module Flags)) sl] else [])
    ++ unload_order p sl.
Proof.
  unfold unload_order. cbn [declarations Id].
  rewrite imap_app, omap_app, reverse_app. cbn [imap omap unloaded].
  rewrite Nat.add_0_r, <- Id_declarations.
  destruct (has Flags SCFW_FLAG_DYNAMIC_LOAD && has Flags SCFW_FLAG_DYNAMIC_UNLOAD
            && negb (slot (Id p + 1) sl =? 0)); reflexivity.
Qed.

Lemma unload_order_symbol (p : chain) (Name : cstr) (Flags : Z) (sl : list Z) :
  unload_order (IMPORT_SYMBOL p Name Flags) sl = unload_order p sl.
Proof.
  unfold unload_order. cbn [declarations].
  rewrite imap_app, omap_app, reverse_app. reflexivity.
Qed.

(** X24. [destroy] calls [unload_module] on the handles of the module
    entries that have both [SCFW_FLAG_DYNAMIC_LOAD] and
    [SCFW_FLAG_DYNAMIC_UNLOAD] and a slot that is not null, the entry
    declared last first, then the teardown of the base level; it returns
    when all these calls return, and leaves the header, the import slots
    and the record of calls as they were. *)
Theorem destroy_unloads_in_reverse (c : chain) (a1 a2 : Z) (s : state W) :
  destroy c a1 a2 s
  = match unload_all (storage s) (unload_order c (slots s)) (world s) with
    | Some w =>
        match base_destroy a1 a2 (storage s) w with
        | Some w' =>
            Some (tt, {| storage := storage s; slots := slots s;
                         world := w'; calls := calls s |})
        | None => None
        end
    | None => None
    end.
Proof.
  revert s. induction c as [|p IH Module Flags|p IH Name Flags]; intros s.
  - simpl. unfold service_, service.
    destruct (base_destroy a1 a2 (storage s) (world s)); reflexivity.
  - rewrite unload_order_module. cbn [destroy]. unfold bind at 1.
    destruct (has Flags SCFW_FLAG_DYNAMIC_LOAD && has Flags SCFW_FLAG_DYNAMIC_UNLOAD);
      cbn [andb].
    + unfold bind at 1, get_slots. cbn [current_module].
      destruct (negb (slot (Id (IMPORT_MODULE p Module Flags)) (slots s) =? 0)).
      * unfold service_, service. cbn [app unload_all].
        destruct (unload_module (storage s)
                    (slot (Id (IMPORT_MODULE p Module Flags)) (slots s)) (world s))
          as [w|]; [|reflexivity].
        rewrite IH. reflexivity.
      * unfold ret. rewrite IH. reflexivity.
    + unfold ret. rewrite IH. reflexivity.
  - rewrite unload_order_symbol. cbn [destroy]. apply IH.
Qed.

End TeardownOrder.

(** ** runtime/xorstr.h: literals longer than the length field counts *)

Section LongLiterals.

Import Xorstr.

Lemma decode_loop_prefix (T : CharT) (k : Z) (orig : list Z) (l : nat) :
  Forall (in_range T) orig ->
  (l < length orig)%nat ->
  Z.of_nat l < 2 ^ (8 * sizeof T) - 1 ->
  forall (m i fuel : nat),
    (i + m = S l)%nat -> (m + 1 <= fuel)%nat ->
    decode_loop fuel T k (Z.of_nat l) (Z.of_nat i)
      (take i orig ++ drop i (map (fun c => key_type_cast T (Z.lxor c k)) orig))
    = Some (take (S l) orig
            ++ drop (S l) (map (fun c => key_type_cast T (Z.lxor c k)) orig)).
Proof.
  intros Horig Hl Hlen. set (enc := map _ orig).
  induction m as [|m IH]; intros i fuel Him Hfuel.
  - destruct fuel as [|fuel]; [lia|]. simpl.
    destruct (Z.leb_spec (Z.of_nat i) (Z.of_nat l)); [lia|].
    replace i with (S l) by lia. reflexivity.
  - destruct fuel as [|fuel]; [lia|]. simpl.
    destruct (Z.leb_spec (Z.of_nat i) (Z.of_nat l)); [|lia].
    assert (Hi : (i < length orig)%nat) by lia.
    destruct (lookup_lt_is_Some_2 orig i Hi) as [o Ho].
    assert (He : enc !! i = Some (key_type_cast T (Z.lxor o k))).
    { subst enc. rewrite list_lookup_fmap, Ho. reflexivity. }
    assert (Hro : in_range T o).
    { rewrite Forall_forall in Horig. apply Horig.
      eapply list_elem_of_lookup_2. exact Ho. }
    replace (key_type_cast T (Z.of_nat i + 1)) with (Z.of_nat (S i)).
    2:{ rewrite key_type_cast_small; [lia|]. unfold in_range. lia. }
    replace (xor_unit T k (Z.of_nat i) (take i orig ++ drop i enc))
      with (take (S i) orig ++ drop (S i) enc).
    { apply IH; lia. }
    unfold xor_unit. rewrite Nat2Z.id.
    rewrite (take_S_r orig i o Ho), (drop_S enc _ i He).
    rewrite <- app_assoc. simpl.
    rewrite alter_app_r_alt by (rewrite length_take; lia).
    rewrite length_take. replace (i - i `min` length orig)%nat with O by lia.
    simpl. rewrite xor_twice by exact Hro. reflexivity.
Qed.

(** X25. [decode_xor] decodes [len + 1] units, [len] being the length of
    the literal cut to the key type. For a literal of [2 ^ w] units or more
    ([w] the width of the key type) the loop stops early: the units after
    the first [len + 1] stay encoded, and the string returned is not the
    literal. *)
Theorem decode_xor_cut_length (T : CharT) (s : list Z) (line ptr : Z) (fuel : nat) :
  Forall (in_range T) s ->
  let r := _TX_record T s line in
  let l := Z.to_nat (len r) in
  len r < 2 ^ (8 * sizeof T) - 1 ->
  (l + 2 <= fuel)%nat ->
  let decoded := take (S l) (literal s) ++ drop (S l) (data r) in
  decode_xor fuel T ptr r
  = Some (ptr + 2 * sizeof T, {| key := 0; len := len r; data := decoded |})
  /\ (2 ^ (8 * sizeof T) <= Z.of_nat (length s) -> decoded <> literal s).
Proof.
  intros Hs r l Hlen Hfuel decoded.
  assert (Hr : len r = key_type_cast T (Z.of_nat (length s))).
  { subst r. unfold _TX_record, make_xor_string. simpl. rewrite length_literal.
    f_equal. lia. }
  pose proof (in_range_mod T (Z.of_nat (length s))) as Hrange.
  rewrite <- Hr in Hrange. unfold in_range in Hrange.
  assert (Hl : Z.of_nat l = len r) by (subst l; lia).
  assert (Hle : len r <= Z.of_nat (length s)).
  { rewrite Hr, key_type_cast_mod. apply Z.mod_le; [lia|].
    apply Z.pow_pos_nonneg; [lia|]. pose proof (sizeof_pos T). lia. }
  assert (Hshort : (l < length (literal s))%nat).
  { rewrite length_literal. lia. }
  split.
  - unfold decode_xor.
    assert (Hkey : key r = SCFW_XOR_KEY line T) by reflexivity.
    destruct (Z.eqb_spec (key r) 0) as [E|_].
    { exfalso. rewrite Hkey in E. exact (SCFW_XOR_KEY_nonzero line T E). }
    simpl negb. cbv iota.
    pose proof (decode_loop_prefix T (key r) (literal s) l
                  (literal_in_range T s Hs) Hshort ltac:(lia)
                  (S l) O fuel ltac:(lia) ltac:(lia)) as Hloop.
    change (Z.of_nat 0) with 0 in Hloop. rewrite take_0, drop_0 in Hloop.
    simpl app in Hloop. rewrite Hl in Hloop.
    rewrite (Hloop : decode_loop fuel T (key r) (len r) 0 (data r) = Some decoded).
    reflexivity.
  - intros Hlong E. subst decoded.
    rewrite <- (take_drop (S l) (literal s)) in E at 2.
    apply app_inv_head in E.
    pose proof (encoded_differs T (SCFW_XOR_KEY line T) (literal s)
                  (SCFW_XOR_KEY_odd line T)) as Hd.
    change (map _ (literal s)) with (data r) in Hd.
    apply (Forall2_drop _ _ _ (S l)) in Hd. rewrite E in Hd.
    assert (Hne : (S l < length (literal s))%nat) by (rewrite length_literal; lia).
    destruct (drop (S l) (literal s)) as [|c rest] eqn:Ed.
    + apply (f_equal length) in Ed. rewrite length_drop in Ed. simpl in Ed. lia.
    + inversion Hd as [|? ? ? ? Hc _]; subst. apply Hc. reflexivity.
Qed.

Lemma decode_xor_cut_length_witness :
  Forall (in_range char) (replicate 300 0x62)
  /\ len (_TX_record char (replicate 300 0x62) 13) = 44
  /\ exists r,
       decode_xor 50 char 4096 (_TX_record char (replicate 300 0x62) 13)
       = Some (4098, r)
       /\ data r = replicate 45 0x62 ++ replicate 255 0x03 ++ [0x61].
Proof.
  assert (H : Forall (in_range char) (replicate 300 0x62)).
  { apply Forall_replicate. unfold in_range. simpl. lia. }
  split; [exact H|]. split; [reflexivity|].
  destruct (decode_xor_cut_length char (replicate 300 0x62) 13 4096 50 H)
    as [E _].
  - vm_compute. reflexivity.
  - vm_compute. lia.
  - eexists. split; [exact E|]. vm_compute. reflexivity.
Defined.

End LongLiterals.

(** ** runtime/fnv1a.h: what the hash depends on *)

Section HashedNames.

Import Crt0 Fnv1a Case Windows WindowsWide.

Lemma fnv1a_step_range (l : list Z) : forall hash : Z,
  0 <= hash < 2 ^ 32 ->
  0 <= fold_left (fun h b => uint32 (uint32 (Z.lxor h b) * 0x01000193)) l hash
    < 2 ^ 32.
Proof.
  induction l as [|b l IH]; intros hash Hh; [exact Hh|].
  simpl. apply IH. unfold uint32. apply Z.mod_pos_bound. lia.
Qed.

(** X26. [fnv1a_hash] is a 32-bit value that depends on the folded low
    bytes of the characters only: two strings, narrow or wide, with the
    same folded low bytes have the same hash. *)
Theorem fnv1a_hash_of_low_bytes (s t : cstr) :
  0 <= fnv1a_hash s < 2 ^ 32
  /\ (folded s = folded t -> fnv1a_hash s = fnv1a_hash t).
Proof.
  unfold fnv1a_hash, fnv1a_hash_n, folded.
  rewrite !fnv1a_loop_chars, !fold_left_map_fold. split.
  - apply fnv1a_step_range. lia.
  - intros ->. reflexivity.
Qed.

(** X27. The search of the load-order list by hash returns what the search
    by name returns, as long as no other module of the list has the hash
    of the name. *)
Theorem find_module_by_hash_is_by_name (L : list LDR_DATA_TABLE_ENTRY) (name : cstr) :
  Forall is_ascii name ->
  Forall (fun Ldr =>
            Forall is_ascii (BaseDllName Ldr)
            /\ (fnv1a_hash (BaseDllName Ldr) = fnv1a_hash name ->
                same_name (BaseDllName Ldr) name)) L ->
  usermode_find_module_hash L (fnv1a_hash name) = usermode_find_module L name.
Proof.
  intros Hn HL. unfold usermode_find_module_hash, usermode_find_module.
  apply find_module_impl_ext.
  eapply Forall_impl; [exact HL|]. intros Ldr [Ha Hcol]. simpl.
  destruct (_wcsicmpa (BaseDllName Ldr) name =? 0) eqn:E.
  - apply (wcsicmpa_accepts name _ Hn) in E.
    apply Z.eqb_eq. apply fnv1a_hash_same_name; assumption.
  - apply (wcsicmpa_rejects name _ Hn) in E.
    apply Z.eqb_neq. intros H. apply E, Hcol, H.
Qed.

Lemma find_module_by_hash_is_by_name_witness :
  Forall is_ascii (lit "ntdll.dll")
  /\ usermode_find_module_hash Examples.process (fnv1a_hash (lit "ntdll.dll"))
     = 0x77000000.
Proof.
  assert (H : Forall is_ascii (lit "ntdll.dll")) by exact lit_ntdll_ascii.
  split; [exact H|].
  rewrite (find_module_by_hash_is_by_name Examples.process (lit "ntdll.dll") H).
  - reflexivity.
  - repeat constructor; try (unfold is_ascii; simpl; lia);
      try reflexivity; vm_compute; intros X; discriminate X.
Defined.

End HashedNames.

(** ** tools/scrun.c *)

Section Launcher.

Import Scrun.

(** X28. Whatever the system answers, the launcher exits with 0 or 1; it
    closes the file handle exactly once if the file was opened and never
    otherwise; it enters the shellcode exactly when it exits with 0, which
    is after the whole file has been read into a block that is not null and
    the handle has been closed; and it frees the block at most once: after
    a failed read, or after the shellcode returned if the block can still be
    protected. *)
Theorem main_releases_what_it_acquired (h : host) (argv : list cstr) :
  let code := fst (main h argv) in
  let log := snd (main h argv) in
  let FileHandle := CreateFileA h (nth 1 argv []) in
  let FileSize := GetFileSize h FileHandle in
  let BaseAddress := VirtualAlloc h FileSize in
  (code = 0 \/ code = 1)
  /\ closed log
     = (if (2 <=? Z.of_nat (length argv)) && negb (FileHandle =? INVALID_HANDLE_VALUE)
        then [FileHandle] else [])
  /\ entered log = (if code =? 0 then [BaseAddress] else [])
  /\ (code = 0 ->
      ReadFile h FileHandle BaseAddress FileSize = (true, FileSize)
      /\ FileSize <> 0 /\ BaseAddress <> 0
      /\ freed log
         = (if VirtualProtect h BaseAddress FileSize then [BaseAddress] else [])
      /\ exists before Arg1 Arg2 after,
           log = before ++ EvShellcode BaseAddress Arg1 Arg2 :: after
           /\ In (EvCloseHandle FileHandle) before)
  /\ (code = 1 ->
      freed log = [] \/ (freed log = [BaseAddress] /\ BaseAddress <> 0
                         /\ ReadFile h FileHandle BaseAddress FileSize
                            <> (true, FileSize))).
Proof.
  intros code log FileHandle FileSize BaseAddress. subst code log.
  unfold main. fold FileHandle. fold FileSize. fold BaseAddress.
  destruct (Z.ltb_spec (Z.of_nat (length argv)) 2) as [Hargc|Hargc].
  { destruct (Z.leb_spec 2 (Z.of_nat (length argv))); [lia|]. simpl.
    repeat split; intros; auto; congruence. }
  destruct (Z.leb_spec 2 (Z.of_nat (length argv))) as [_|]; [|lia].
  destruct (Z.eqb_spec FileHandle INVALID_HANDLE_VALUE) as [Hh|Hh].
  { simpl. repeat split; intros; auto; congruence. }
  destruct (Z.eqb_spec FileSize INVALID_FILE_SIZE) as [Hs|Hs].
  { simpl. repeat split; intros; auto; congruence. }
  destruct (Z.eqb_spec FileSize 0) as [Hz|Hz].
  { simpl. repeat split; intros; auto; congruence. }
  destruct (Z.eqb_spec BaseAddress 0) as [Hb|Hb].
  { simpl. repeat split; intros; auto; congruence. }
  destruct (ReadFile h FileHandle BaseAddress FileSize) as [Success BytesRead] eqn:Er.
  destruct Success; simpl negb; simpl orb.
  2:{ simpl. split; [auto|]. split; [reflexivity|]. split; [reflexivity|].
      split; [intros X; discriminate X|]. intros _. right.
      split; [reflexivity|]. split; [exact Hb|]. intros X. discriminate X. }
  destruct (Z.eqb_spec BytesRead FileSize) as [Hr|Hr]; simpl negb; cbv iota.
  2:{ simpl. split; [auto|]. split; [reflexivity|]. split; [reflexivity|].
      split; [intros X; discriminate X|]. intros _. right.
      split; [reflexivity|]. split; [exact Hb|]. intros X. injection X as X.
      contradiction. }
  subst BytesRead.
  destruct (VirtualProtect h BaseAddress FileSize); simpl;
    (split; [auto|]); (split; [reflexivity|]); (split; [reflexivity|]);
    (split; [|intros X; discriminate X]); intros _;
    (split; [reflexivity|]); (split; [exact Hz|]); (split; [exact Hb|]);
    (split; [reflexivity|]);
    eexists [_; _; _; _; _], _, _, _; (split; [reflexivity|]);
    simpl; auto 10.
Qed.

End Launcher.
